(** * Order placement over the shared catalog store

    A shallow embedding of the two services of the repository:
    [catalog/app] (product maintenance) and [orders/app] (order creation and
    listing), together with the part of the relational store that their
    statements touch.

    Conventions.
    - Python [int] values and integer columns are [Z].
    - The [products] table is a finite map keyed by its primary key.
      [orders] and [order_items] are row lists in insertion order; their
      primary and foreign keys are stated by [db_wf].
    - The dict [combined] of [create_order] is an association list that
      keeps Python's insertion order, because the order is observable.
      The dict [prices] is only looked up, measured and asked for its key
      set, so it is a [gmap].
    - A SQLAlchemy session is a working copy of the store plus the list of
      statements sent so far; [get_session] commits the working copy or
      throws it away. A rollback restores the whole store, the counters of
      the generated keys included; the real store does not give back the
      key of a rolled-back [INSERT], which no response shows and which
      the steps of the system ([step]) allow for.
    - The store refuses a value that does not fit its column: the columns
      declared [Integer] and the generated keys are 32-bit, [orders.user_id]
      is [String(100)], no text value holds a NUL character. The session
      then raises [DataError] and the request is answered 500.
    - A text value is the string of its characters; the header [X-User] is
      read one character per byte.
    - The column [orders.created_at] is written by the store's default and
      read by no handler; it is left out of the rows.
    - The handlers are modelled as functions of their arguments,
      [post_orders] and [get_orders_me] as the handlers inside
      [get_session]; the routes, with [require_user] and the validation of
      the request body in front of the handler, are [post_orders_route]
      and [get_orders_me_route]. The request metrics are not modelled. *)

From stdpp Require Import gmap strings list sorting pretty.

Open Scope Z_scope.

(** ** Rows *)

(** [catalog/app/models.py], class [Product]; the key of the table is [id]. *)
Record Product := mkProduct {
  name : string;
  price_cents : Z;
  stock : Z
}.

(** [orders/app/models.py], class [Order]. *)
Record Order := mkOrder {
  id : Z;
  user_id : string;
  total_cents : Z
}.

(** [orders/app/models.py], class [OrderItem]. *)
Record OrderItem := mkOrderItem {
  item_id : Z;
  order_id : Z;
  product_id : Z;
  qty : Z;
  item_price_cents : Z
}.

#[global] Instance Product_eq_dec : EqDecision Product.
Proof. solve_decision. Defined.
#[global] Instance Order_eq_dec : EqDecision Order.
Proof. solve_decision. Defined.
#[global] Instance OrderItem_eq_dec : EqDecision OrderItem.
Proof. solve_decision. Defined.

(** ** Request and response bodies *)

(** [orders/app/schemas.py], class [OrderItemIn]. *)
Record OrderItemIn := mkItemIn {
  in_product_id : Z;
  in_qty : Z
}.

(** [orders/app/schemas.py], class [OrderItemOut]. *)
Record OrderItemOut := mkItemOut {
  out_product_id : Z;
  out_qty : Z;
  out_price_cents : Z
}.

(** [orders/app/schemas.py], class [OrderOut]. *)
Record OrderOut := mkOrderOut {
  out_id : Z;
  out_user_id : string;
  out_total_cents : Z;
  out_items : list OrderItemOut
}.

(** [catalog/app/schemas.py], class [ProductIn]. *)
Record ProductIn := mkProductIn {
  pin_name : string;
  pin_price_cents : Z;
  pin_stock : Z
}.

(** The [Field] constraints of [ProductIn]. *)
Definition ProductIn_valid (p : ProductIn) : Prop :=
  (1 <= String.length (pin_name p))%nat ∧ 0 <= pin_price_cents p ∧ 0 <= pin_stock p.

(** The [Field] constraints of [OrderItemIn] and [OrderCreate]. *)
Definition OrderItemIn_valid (it : OrderItemIn) : Prop :=
  1 <= in_product_id it ∧ 1 <= in_qty it.

Definition OrderCreate_valid (items : list OrderItemIn) : Prop :=
  (1 <= length items)%nat ∧ Forall OrderItemIn_valid items.

#[global] Instance ProductIn_valid_dec p : Decision (ProductIn_valid p).
Proof. unfold ProductIn_valid. apply _. Defined.
#[global] Instance OrderItemIn_valid_dec it : Decision (OrderItemIn_valid it).
Proof. unfold OrderItemIn_valid. apply _. Defined.
#[global] Instance OrderCreate_valid_dec items : Decision (OrderCreate_valid items).
Proof. unfold OrderCreate_valid. apply _. Defined.

(** ** The store *)

Record DB := mkDB {
  schemas : gset string;
  products : gmap Z Product;
  next_product_id : Z;
  orders : list Order;
  next_order_id : Z;
  order_items : list OrderItem;
  next_item_id : Z
}.

(** [DB_SCHEMA] of [orders/app/db.py] and of [catalog/app/db.py]. *)
Definition DB_SCHEMA : string := "orders".
Definition CATALOG_SCHEMA : string := "catalog".

(** The store after start-up: the catalog's [init_db] has created its
    schema, the tables hold no rows, the sequences are at their first
    value. *)
Definition initial_db : DB :=
  mkDB {[ CATALOG_SCHEMA ]} ∅ 1 [] 1 [] 1.

(** ** Exceptions and results *)

(** [RequestValidationError] is what the framework raises for a body that
    its schema refuses (answered 422); [DataError] is what the session
    raises when the store refuses a value (answered 500). *)
Inductive Exn :=
| HTTPException (status_code : Z) (detail : string)
| RequestValidationError
| DataError
| KeyError (key : Z)
| InvalidRequestError.

Inductive Result (A : Type) :=
| Ok (a : A)
| Raise (e : Exn).
Arguments Ok {A} a.
Arguments Raise {A} e.

(** Python's [str] of an [int] and of a list of [int]. *)
Definition repr_int (z : Z) : string := pretty z.
Definition repr_list (l : list Z) : string :=
  "[" +:+ String.concat ", " (map repr_int l) +:+ "]".

(** ** Statements and their effect on the store *)

Inductive Stmt :=
| CreateSchemaIfNotExists (schema : string)
| SelectPrices (ids : list Z)
| UpdateStock (pid qty : Z)
| InsertOrder (user : string) (total : Z)
| UpdateOrderTotal (oid total : Z)
| InsertOrderItem (oid pid qty price : Z)
| InsertOrderItems (rows : list (Z * Z * Z * Z))
| SelectOrder (oid : Z)
| SelectOrderItems (oid : Z)
| SelectOrdersOfUser (user : string)
| SelectProducts
| SelectProduct (pid : Z)
| InsertProduct (n : string) (price st : Z)
| UpdateProduct (pid : Z) (n : string) (price st : Z)
| DeleteProduct (pid : Z).

(** [UPDATE products SET stock = stock - :qty WHERE id = :pid AND stock >= :qty]:
    the [WHERE] clause as a test on a row, the [SET] clause on every row
    that passes it, and the number of rows that pass it. *)
Definition reserve_where (pid qty : Z) (k : Z) (p : Product) : bool :=
  bool_decide (k = pid) && bool_decide (stock p >= qty).

Definition reserve_set (qty : Z) (p : Product) : Product :=
  mkProduct (name p) (price_cents p) (stock p - qty).

Definition update_stock (pid qty : Z) (ps : gmap Z Product) : gmap Z Product :=
  map_imap (λ k p, Some (if reserve_where pid qty k p then reserve_set qty p else p)) ps.

Definition update_stock_rowcount (pid qty : Z) (ps : gmap Z Product) : Z :=
  Z.of_nat (size (filter (λ kp, reserve_where pid qty kp.1 kp.2 = true) ps)).

(** [UPDATE orders SET total_cents = :total WHERE id = :oid]. *)
Definition set_total (oid total : Z) (o : Order) : Order :=
  if decide (id o = oid) then mkOrder (id o) (user_id o) total else o.

(** The rows of one [INSERT INTO order_items] with several rows
    [(order_id, product_id, qty, price_cents)]; the keys are taken from the
    sequence in the order of the rows. *)
Fixpoint insert_rows (first : Z) (rows : list (Z * Z * Z * Z)) : list OrderItem :=
  match rows with
  | [] => []
  | (oid, pid, q, price) :: rest =>
      mkOrderItem first oid pid q price :: insert_rows (first + 1) rest
  end.

(** The effect of a statement that the store accepts. *)
Definition run_stmt (st : Stmt) (db : DB) : DB :=
  match st with
  | CreateSchemaIfNotExists n =>
      mkDB (schemas db ∪ {[ n ]}) (products db) (next_product_id db)
           (orders db) (next_order_id db) (order_items db) (next_item_id db)
  | UpdateStock pid q =>
      mkDB (schemas db) (update_stock pid q (products db)) (next_product_id db)
           (orders db) (next_order_id db) (order_items db) (next_item_id db)
  | InsertOrder user total =>
      mkDB (schemas db) (products db) (next_product_id db)
           (orders db ++ [mkOrder (next_order_id db) user total]) (next_order_id db + 1)
           (order_items db) (next_item_id db)
  | UpdateOrderTotal oid total =>
      mkDB (schemas db) (products db) (next_product_id db)
           (map (set_total oid total) (orders db)) (next_order_id db)
           (order_items db) (next_item_id db)
  | InsertOrderItem oid pid q price =>
      mkDB (schemas db) (products db) (next_product_id db)
           (orders db) (next_order_id db)
           (order_items db ++ [mkOrderItem (next_item_id db) oid pid q price])
           (next_item_id db + 1)
  | InsertOrderItems rows =>
      mkDB (schemas db) (products db) (next_product_id db)
           (orders db) (next_order_id db)
           (order_items db ++ insert_rows (next_item_id db) rows)
           (next_item_id db + Z.of_nat (length rows))
  | InsertProduct n price st =>
      mkDB (schemas db) (<[next_product_id db := mkProduct n price st]> (products db))
           (next_product_id db + 1)
           (orders db) (next_order_id db) (order_items db) (next_item_id db)
  | UpdateProduct pid n price st =>
      mkDB (schemas db) (alter (λ _, mkProduct n price st) pid (products db))
           (next_product_id db)
           (orders db) (next_order_id db) (order_items db) (next_item_id db)
  | DeleteProduct pid =>
      mkDB (schemas db) (delete pid (products db)) (next_product_id db)
           (orders db) (next_order_id db) (order_items db) (next_item_id db)
  | SelectPrices _ | SelectOrder _ | SelectOrderItems _ | SelectOrdersOfUser _
  | SelectProducts | SelectProduct _ => db
  end.

(** ** What the store refuses *)

(** The range of an [Integer] column and of a generated key. *)
Definition INTEGER_MIN : Z := -2147483648.
Definition INTEGER_MAX : Z := 2147483647.

Definition fits_integer (z : Z) : Prop := INTEGER_MIN <= z <= INTEGER_MAX.

#[global] Instance fits_integer_dec z : Decision (fits_integer z).
Proof. unfold fits_integer. apply _. Defined.

(** A text value: no NUL character; in a [String(width)] column, at most
    [width] characters. *)
Fixpoint no_nul (s : string) : bool :=
  match s with
  | EmptyString => true
  | String c s' => negb (Ascii.eqb c Ascii.zero) && no_nul s'
  end.

Definition fits_text (s : string) : Prop := no_nul s = true.

Definition fits_string (width : nat) (s : string) : Prop :=
  (String.length s <= width)%nat ∧ fits_text s.

#[global] Instance fits_text_dec s : Decision (fits_text s).
Proof. unfold fits_text. apply _. Defined.
#[global] Instance fits_string_dec w s : Decision (fits_string w s).
Proof. unfold fits_string. apply _. Defined.

(** The width of [orders.user_id]. *)
Definition USER_ID_WIDTH : nat := 100.

Definition row_fits (r : Z * Z * Z * Z) : Prop :=
  fits_integer r.1.1.1 ∧ fits_integer r.1.1.2 ∧ fits_integer r.1.2 ∧ fits_integer r.2.

#[global] Instance row_fits_dec r : Decision (row_fits r).
Proof. unfold row_fits. apply _. Defined.

(** Whether the store accepts a statement. Every value written to a
    column and every generated key has to fit; [session.get] compares the
    key with its parameter cast to the type of the key. The parameters of
    the two [SELECT ... WHERE] of the orders service and of the conditional
    [UPDATE] are compared as numbers of any size; the quantity of a
    reservation is at least 1 on the route, so that the row that passes
    its [WHERE] clause gets a value between 0 and its old one. *)
Definition accepts (st : Stmt) (db : DB) : bool :=
  match st with
  | InsertOrder user total =>
      bool_decide (fits_string USER_ID_WIDTH user ∧ fits_integer total
                   ∧ fits_integer (next_order_id db))
  | UpdateOrderTotal oid total => bool_decide (fits_integer total)
  | InsertOrderItem oid pid q price =>
      bool_decide (row_fits (oid, pid, q, price) ∧ fits_integer (next_item_id db))
  | InsertOrderItems rows =>
      bool_decide (Forall row_fits rows ∧ fits_integer (next_item_id db)
                   ∧ fits_integer (next_item_id db + Z.of_nat (length rows) - 1))
  | SelectProduct pid => bool_decide (fits_integer pid)
  | InsertProduct n price st =>
      bool_decide (fits_text n ∧ fits_integer price ∧ fits_integer st
                   ∧ fits_integer (next_product_id db))
  | UpdateProduct pid n price st =>
      bool_decide (fits_text n ∧ fits_integer price ∧ fits_integer st)
  | DeleteProduct pid => bool_decide (fits_integer pid)
  | CreateSchemaIfNotExists _ | SelectPrices _ | UpdateStock _ _ | SelectOrder _
  | SelectOrderItems _ | SelectOrdersOfUser _ | SelectProducts => true
  end.

(** ** Sessions *)

(** A session: the transaction's view of the store, the objects added but
    not yet flushed (each as the statement it would need on its own, in the
    order they were added), and the statements sent so far. *)
Record Session := mkSession {
  store : DB;
  pending : list Stmt;
  log : list Stmt
}.

Definition SessionLocal (db : DB) : Session := mkSession db [] [].

Definition M (A : Type) : Type := Session → Result A * Session.

Definition ret {A} (a : A) : M A := λ s, (Ok a, s).
Definition raise {A} (e : Exn) : M A := λ s, (Raise e, s).
Definition bind {A B} (m : M A) (k : A → M B) : M B :=
  λ s, match m s with
       | (Ok a, s') => k a s'
       | (Raise e, s') => (Raise e, s')
       end.

Notation "'let*' x ':=' m 'in' k" := (bind m (λ x, k))
  (at level 10, x name, m at level 100, k at level 200, only parsing).
Notation "'run' m 'in' k" := (bind m (λ _, k))
  (at level 10, m at level 100, k at level 200, only parsing).

(** A statement that the store accepts: it reaches the store. *)
Definition send (st : Stmt) (s : Session) : Session :=
  mkSession (run_stmt st (store s)) (pending s) (log s ++ [st]).

(** [session.execute(stmt)]: the statement is sent; the store runs it or
    refuses it. *)
Definition execute (st : Stmt) : M unit :=
  λ s, if accepts st (store s)
       then (Ok tt, send st s)
       else (Raise DataError, mkSession (store s) (pending s) (log s ++ [st])).

(** [session.add(obj)]. *)
Definition session_add (st : Stmt) : M unit :=
  λ s, (Ok tt, mkSession (store s) (pending s ++ [st]) (log s)).

(** The statements of one flush (the unit of work): the pending objects
    in the order they were added, except that a row set to the values it
    already holds needs no [UPDATE], and that the new rows of
    [order_items] go last, in one [INSERT]. *)
Definition item_row (st : Stmt) : option (Z * Z * Z * Z) :=
  match st with
  | InsertOrderItem oid pid q price => Some (oid, pid, q, price)
  | _ => None
  end.

Definition changes_row (db : DB) (st : Stmt) : bool :=
  match st with
  | UpdateOrderTotal oid total =>
      match List.find (λ o, bool_decide (id o = oid)) (orders db) with
      | Some o => bool_decide (total_cents o ≠ total)
      | None => true
      end
  | UpdateProduct pid n price stk =>
      match products db !! pid with
      | Some p => bool_decide (p ≠ mkProduct n price stk)
      | None => true
      end
  | InsertOrderItem _ _ _ _ => false
  | _ => true
  end.

Definition unit_of_work (objs : list Stmt) (db : DB) : list Stmt :=
  filter (λ st, changes_row db st = true) objs
  ++ match omap item_row objs with
     | [] => []
     | rows => [InsertOrderItems rows]
     end.

Fixpoint send_all (plan : list Stmt) : M unit :=
  match plan with
  | [] => ret tt
  | st :: rest => run execute st in send_all rest
  end.

(** [session.flush()]. *)
Definition session_flush : M unit :=
  λ s, match send_all (unit_of_work (pending s) (store s)) s with
       | (Ok _, s') => (Ok tt, mkSession (store s') [] (log s'))
       | (Raise e, s') => (Raise e, s')
       end.

(** A value read off the session's view of the store without a statement
    of its own (a generated key that the flush has just written back). *)
Definition peek {A} (f : DB → A) : M A := λ s, (Ok (f (store s)), s).

(** What a request leaves behind: its outcome, the store afterwards and
    the statements that were sent to the store while it ran. *)
Record Response (A : Type) := mkResponse {
  result : Result A;
  db_after : DB;
  statements : list Stmt
}.
Arguments mkResponse {A}.
Arguments result {A}.
Arguments db_after {A}.
Arguments statements {A}.

(** The end of [get_session] for a handler that ran from store [db]:
    [s.commit()], which flushes first, when the handler returned;
    [s.rollback(); raise] when the handler or the commit raised. *)
Definition close_session {A} (db : DB) (r : Result A * Session) : Response A :=
  match r with
  | (Ok a, s') =>
      match session_flush s' with
      | (Ok _, s'') => mkResponse (Ok a) (store s'') (log s'')
      | (Raise e, s'') => mkResponse (Raise e) db (log s'')
      end
  | (Raise e, s') => mkResponse (Raise e) db (log s')
  end.

(** [require_user] of both services, on the value of the header [X-User]
    if the request has one. *)
Definition require_user (x_user : option string) : Result string :=
  match x_user with
  | Some user =>
      if decide (user = "") then Raise (HTTPException 401 "missing X-User") else Ok user
  | None => Raise (HTTPException 401 "missing X-User")
  end.

(** ** The catalog service *)

Module Catalog.

(** [catalog/app/db.py], [get_session]: commit when the handler returns,
    roll back when it raises. *)
Definition get_session {A} (handler : M A) (db : DB) : Response A :=
  close_session db (handler (SessionLocal db)).

(** [session.get(Product, pid)]. *)
Definition session_get (pid : Z) : M (option Product) :=
  run execute (SelectProduct pid) in
  let* ps := peek products in
  ret (ps !! pid).

(** [list_products]. *)
Definition list_products : M (list (Z * Product)) :=
  run execute SelectProducts in
  let* ps := peek products in
  ret (map_to_list ps).

(** [create_product]: the flush sends the [INSERT] and the row takes the
    next value of the sequence; [refresh] reads the row back. *)
Definition create_product (payload : ProductIn) : M (Z * Product) :=
  let* pid := peek next_product_id in
  run session_add (InsertProduct (pin_name payload) (pin_price_cents payload) (pin_stock payload)) in
  run session_flush in
  let* p := session_get pid in
  match p with
  | Some p => ret (pid, p)
  | None => raise InvalidRequestError
  end.

(** [update_product]. *)
Definition update_product (pid : Z) (payload : ProductIn) : M (Z * Product) :=
  let* p := session_get pid in
  match p with
  | None => raise (HTTPException 404 "not found")
  | Some _ =>
      run session_add (UpdateProduct pid (pin_name payload) (pin_price_cents payload) (pin_stock payload)) in
      run session_flush in
      let* p' := session_get pid in
      match p' with
      | Some p' => ret (pid, p')
      | None => raise InvalidRequestError
      end
  end.

(** [delete_product]. *)
Definition delete_product (pid : Z) : M unit :=
  let* p := session_get pid in
  match p with
  | None => raise (HTTPException 404 "not found")
  | Some _ => session_add (DeleteProduct pid)
  end.

(** [get_product]. *)
Definition get_product (pid : Z) : M (Z * Product) :=
  let* p := session_get pid in
  match p with
  | None => raise (HTTPException 404 "not found")
  | Some p => ret (pid, p)
  end.

End Catalog.

(** ** The orders service *)

Module Orders.

(** [orders/app/db.py], [get_session]: the schema statement is sent before
    the handler receives the session; commit when the handler returns, roll
    back when it raises. *)
Definition get_session {A} (handler : M A) (db : DB) : Response A :=
  close_session db (handler (send (CreateSchemaIfNotExists DB_SCHEMA) (SessionLocal db))).

(** The rows of [SELECT id, price_cents FROM products WHERE id = ANY(:ids)]
    as the dict [{row[0]: row[1] for row in rows}]. *)
Definition select_prices (ids : list Z) (ps : gmap Z Product) : gmap Z Z :=
  price_cents <$> filter (λ kp, kp.1 ∈ ids) ps.

(** [fetch_prices]. *)
Definition fetch_prices (product_ids : list Z) : M (gmap Z Z) :=
  match product_ids with
  | [] => ret ∅
  | _ =>
      let* ps := peek products in
      run execute (SelectPrices product_ids) in
      ret (select_prices product_ids ps)
  end.

(** One conditional update of [reserve_stock]; the value is [res.rowcount]. *)
Definition execute_update_stock (pid qty : Z) : M Z :=
  let* ps := peek products in
  run execute (UpdateStock pid qty) in
  ret (update_stock_rowcount pid qty ps).

(** [reserve_stock]; an item [{"product_id": pid, "qty": qty}] is the pair
    [(pid, qty)]. *)
Fixpoint reserve_stock (items : list (Z * Z)) : M unit :=
  match items with
  | [] => ret tt
  | (pid, qty) :: rest =>
      let* rowcount := execute_update_stock pid qty in
      if decide (rowcount ≠ 1)
      then raise (HTTPException 400 ("insufficient stock for product " +:+ repr_int pid))
      else reserve_stock rest
  end.

(** The dict [combined]: [dict.get(k, default)] and [d[k] = v] on an
    association list in insertion order. *)
Fixpoint dict_get (d : list (Z * Z)) (k : Z) (default : Z) : Z :=
  match d with
  | [] => default
  | (k', v) :: d' => if decide (k' = k) then v else dict_get d' k default
  end.

Fixpoint dict_set (d : list (Z * Z)) (k v : Z) : list (Z * Z) :=
  match d with
  | [] => [(k, v)]
  | (k', v') :: d' => if decide (k' = k) then (k, v) :: d' else (k', v') :: dict_set d' k v
  end.

(** The normalisation loop of [create_order]: its body, and the loop. *)
Definition combine_step (combined : list (Z * Z)) (it : OrderItemIn) : list (Z * Z) :=
  dict_set combined (in_product_id it) (dict_get combined (in_product_id it) 0 + in_qty it).

Definition combine_items (items : list OrderItemIn) : list (Z * Z) :=
  fold_left combine_step items [].

(** [sorted(...)] on a set of [int]. *)
Definition sorted (X : gset Z) : list Z := merge_sort Z.le (elements X).

(** [order = Order(user_id=user, total_cents=0); session.add(order);
    session.flush()] and the generated [order.id]. *)
Definition new_order (user : string) : M Z :=
  let* oid := peek next_order_id in
  run session_add (InsertOrder user 0) in
  run session_flush in
  ret oid.

(** The loop that snapshots prices and adds one [OrderItem] per entry of
    [combined]; the value is [total]. *)
Fixpoint snapshot_items (oid : Z) (prices : gmap Z Z) (combined : list (Z * Z)) (total : Z) : M Z :=
  match combined with
  | [] => ret total
  | (pid, qty) :: rest =>
      match prices !! pid with
      | None => raise (KeyError pid)
      | Some price =>
          run session_add (InsertOrderItem oid pid qty price) in
          snapshot_items oid prices rest (total + price * qty)
      end
  end.

(** [session.refresh(order)]. *)
Definition session_refresh (oid : Z) : M Order :=
  run execute (SelectOrder oid) in
  let* os := peek orders in
  match List.find (λ o, bool_decide (id o = oid)) os with
  | Some o => ret o
  | None => raise InvalidRequestError
  end.

(** The relationship [order.items], loaded from the store. *)
Definition load_items (oid : Z) : M (list OrderItem) :=
  run execute (SelectOrderItems oid) in
  let* its := peek order_items in
  ret (filter (λ i, order_id i = oid) its).

Definition item_out (i : OrderItem) : OrderItemOut :=
  mkItemOut (product_id i) (qty i) (item_price_cents i).

(** [create_order]. *)
Definition create_order (items : list OrderItemIn) (user : string) : M OrderOut :=
  match items with
  | [] => raise (HTTPException 400 "items must not be empty")
  | _ =>
      let combined := combine_items items in
      let product_ids := combined.*1 in
      let* prices := fetch_prices product_ids in
      if decide (size prices ≠ length product_ids)
      then
        let missing := sorted (list_to_set product_ids ∖ dom prices) in
        raise (HTTPException 400 ("unknown product(s): " +:+ repr_list missing))
      else
        run reserve_stock combined in
        let* oid := new_order user in
        let* total := snapshot_items oid prices combined 0 in
        run session_add (UpdateOrderTotal oid total) in
        run session_flush in
        let* order := session_refresh oid in
        let* its := load_items oid in
        ret (mkOrderOut (id order) (user_id order) (total_cents order) (map item_out its))
  end.

(** [select(Order).where(Order.user_id == user).order_by(Order.id.desc())]. *)
Definition id_desc (a b : Order) : Prop := id b <= id a.
#[global] Instance id_desc_dec : RelDecision id_desc.
Proof. intros a b. unfold id_desc. apply _. Defined.

Definition select_orders_of_user (user : string) : M (list Order) :=
  run execute (SelectOrdersOfUser user) in
  let* os := peek orders in
  ret (merge_sort id_desc (filter (λ o, user_id o = user) os)).

(** The loop of [list_my_orders]. *)
Fixpoint orders_out (os : list Order) : M (list OrderOut) :=
  match os with
  | [] => ret []
  | o :: rest =>
      let* its := load_items (id o) in
      let* out := orders_out rest in
      ret (mkOrderOut (id o) (user_id o) (total_cents o) (map item_out its) :: out)
  end.

(** [list_my_orders]. *)
Definition list_my_orders (user : string) : M (list OrderOut) :=
  let* os := select_orders_of_user user in
  orders_out os.

(** The two handlers as requests against the store. *)
Definition post_orders (user : string) (items : list OrderItemIn) (db : DB) : Response OrderOut :=
  get_session (create_order items user) db.

Definition get_orders_me (user : string) (db : DB) : Response (list OrderOut) :=
  get_session (list_my_orders user) db.

(** A request whose dependencies were resolved and whose body the schema
    refused: [get_session] has sent its schema statement and the handler
    is not called. Whether the framework then leaves [get_session] by its
    [commit] or by its [rollback] depends on its version, which the
    repository does not fix: [commits] says which. *)
Definition body_refused {A} (commits : bool) (db : DB) : Response A :=
  let s := send (CreateSchemaIfNotExists DB_SCHEMA) (SessionLocal db) in
  mkResponse (Raise RequestValidationError) (if commits then store s else db) (log s).

(** The route [POST /orders]: [user = Depends(require_user)] is resolved
    first and answers 401 before the session exists; the body is held
    against [OrderCreate]; only then is [create_order] called. *)
Definition post_orders_route (commits : bool) (x_user : option string)
    (items : list OrderItemIn) (db : DB) : Response OrderOut :=
  match require_user x_user with
  | Raise e => mkResponse (Raise e) db []
  | Ok user =>
      if decide (OrderCreate_valid items)
      then post_orders user items db
      else body_refused commits db
  end.

(** The route [GET /orders/me]. *)
Definition get_orders_me_route (x_user : option string) (db : DB) : Response (list OrderOut) :=
  match require_user x_user with
  | Raise e => mkResponse (Raise e) db []
  | Ok user => get_orders_me user db
  end.

End Orders.

(** ** Well-formed stores *)

(** The keys of the store: generated keys lie below their sequence,
    [orders.id] is a primary key, [order_items.order_id] references
    [orders.id]. *)
Definition db_wf (db : DB) : Prop :=
  map_Forall (λ k _, k < next_product_id db) (products db)
  ∧ Forall (λ o, id o < next_order_id db) (orders db)
  ∧ NoDup (map id (orders db))
  ∧ Forall (λ i, order_id i ∈ map id (orders db)) (order_items db).

#[global] Instance db_wf_dec db : Decision (db_wf db).
Proof. unfold db_wf. apply _. Defined.

(** Every stock value of the [products] table is non-negative. *)
Definition stock_nonneg (ps : gmap Z Product) : Prop :=
  ∀ k p, ps !! k = Some p → 0 <= stock p.

(** ** What a request asks for *)

(** The quantity a request asks of product [pid]: the sum over its entries
    for [pid]. *)
Fixpoint requested (items : list OrderItemIn) (pid : Z) : Z :=
  match items with
  | [] => 0
  | it :: rest =>
      (if decide (in_product_id it = pid) then in_qty it else 0) + requested rest pid
  end.

(** The distinct values of a list in the order of their first occurrence. *)
Fixpoint distinct (l : list Z) : list Z :=
  match l with
  | [] => []
  | x :: l' => x :: filter (λ y, y ≠ x) (distinct l')
  end.

(** The product IDs of a request, each once, in first-occurrence order. *)
Definition request_ids (items : list OrderItemIn) : list Z :=
  distinct (map in_product_id items).

(** Product [pid] exists and holds at least [q] units. *)
Definition in_stock (ps : gmap Z Product) (pid q : Z) : Prop :=
  ∃ p, ps !! pid = Some p ∧ q <= stock p.

#[global] Instance in_stock_dec ps pid q : Decision (in_stock ps pid q).
Proof.
  unfold in_stock. destruct (ps !! pid) as [p|].
  - destruct (decide (q <= stock p)) as [Hle|Hgt].
    + left. by exists p.
    + right. intros (p' & Heq & Hle). by inversion Heq; subst.
  - right. by intros (p' & Heq & _).
Defined.

(** Product [pid] exists and holds fewer than [q] units. *)
Definition short_of (ps : gmap Z Product) (pid q : Z) : Prop :=
  ∃ p, ps !! pid = Some p ∧ stock p < q.

(** The request with one merged entry per product. *)
Definition merged (items : list OrderItemIn) : list OrderItemIn :=
  map (λ kv, mkItemIn kv.1 kv.2) (Orders.combine_items items).

(** The spec's names for the three failures of [create_order];
    [ValidationError] is the handler's own check of an empty list. *)
Definition ValidationError : Exn :=
  HTTPException 400 "items must not be empty".
Definition UnknownProductError (missing : list Z) : Exn :=
  HTTPException 400 ("unknown product(s): " +:+ repr_list missing).
Definition InsufficientStockError (pid : Z) : Exn :=
  HTTPException 400 ("insufficient stock for product " +:+ repr_int pid).

(** Statements that read only. *)
Definition is_select (st : Stmt) : bool :=
  match st with
  | SelectPrices _ | SelectOrder _ | SelectOrderItems _ | SelectOrdersOfUser _
  | SelectProducts | SelectProduct _ => true
  | _ => false
  end.

(** ** The outcome of a successful order, written out *)

(** The store with its [products] table replaced. *)
Definition set_products (ps : gmap Z Product) (db : DB) : DB :=
  mkDB (schemas db) ps (next_product_id db)
       (orders db) (next_order_id db) (order_items db) (next_item_id db).

(** All the conditional updates of a request, in order. *)
Definition reserve_all (combined : list (Z * Z)) (ps : gmap Z Product) : gmap Z Product :=
  fold_left (λ acc kv, update_stock kv.1 kv.2 acc) combined ps.

Definition reserve_log (combined : list (Z * Z)) : list Stmt :=
  map (λ kv, UpdateStock kv.1 kv.2) combined.

(** The price snapshot of one entry, and the sum of the line totals. *)
Definition price_of (prices : gmap Z Z) (pid : Z) : Z := default 0 (prices !! pid).

Definition order_total (prices : gmap Z Z) (combined : list (Z * Z)) : Z :=
  foldr (λ kv acc, price_of prices kv.1 * kv.2 + acc) 0 combined.

Definition item_stmts (oid : Z) (prices : gmap Z Z) (combined : list (Z * Z)) : list Stmt :=
  map (λ kv, InsertOrderItem oid kv.1 kv.2 (price_of prices kv.1)) combined.

Definition new_rows (oid : Z) (prices : gmap Z Z) (combined : list (Z * Z))
    : list (Z * Z * Z * Z) :=
  map (λ kv, (oid, kv.1, kv.2, price_of prices kv.1)) combined.

(** The statements of the second flush of [create_order]. *)
Definition total_stmts (oid total : Z) : list Stmt :=
  if decide (total = 0) then [] else [UpdateOrderTotal oid total].

Fixpoint item_rows (first oid : Z) (prices : gmap Z Z) (combined : list (Z * Z)) : list OrderItem :=
  match combined with
  | [] => []
  | kv :: rest =>
      mkOrderItem first oid kv.1 kv.2 (price_of prices kv.1)
      :: item_rows (first + 1) oid prices rest
  end.

Definition items_out (prices : gmap Z Z) (combined : list (Z * Z)) : list OrderItemOut :=
  map (λ kv, mkItemOut kv.1 kv.2 (price_of prices kv.1)) combined.

(** The sum of the line totals of a response body. *)
Definition lines_total (its : list OrderItemOut) : Z :=
  foldr (λ i acc, out_qty i * out_price_cents i + acc) 0 its.

(** The store and the statements of a successful [create_order] that
    starts from store [st]. *)
Definition placed_db (user : string) (items : list OrderItemIn) (st : DB) : DB :=
  let combined := Orders.combine_items items in
  let prices := Orders.select_prices combined.*1 (products st) in
  let oid := next_order_id st in
  mkDB (schemas st) (reserve_all combined (products st)) (next_product_id st)
       (orders st ++ [mkOrder oid user (order_total prices combined)]) (oid + 1)
       (order_items st ++ item_rows (next_item_id st) oid prices combined)
       (next_item_id st + Z.of_nat (length combined)).

Definition placed_log (user : string) (items : list OrderItemIn) (st : DB) : list Stmt :=
  let combined := Orders.combine_items items in
  let prices := Orders.select_prices combined.*1 (products st) in
  let oid := next_order_id st in
  [SelectPrices combined.*1] ++ reserve_log combined ++ [InsertOrder user 0]
  ++ total_stmts oid (order_total prices combined)
  ++ [InsertOrderItems (new_rows oid prices combined); SelectOrder oid; SelectOrderItems oid].

Definition placed_out (user : string) (items : list OrderItemIn) (st : DB) : OrderOut :=
  let combined := Orders.combine_items items in
  let prices := Orders.select_prices combined.*1 (products st) in
  mkOrderOut (next_order_id st) user (order_total prices combined) (items_out prices combined).

(** The store that [create_order] starts from takes the rows that it
    writes, statement by statement. *)
Definition rows_fit (user : string) (items : list OrderItemIn) (st : DB) : Prop :=
  let combined := Orders.combine_items items in
  let prices := Orders.select_prices combined.*1 (products st) in
  (fits_string USER_ID_WIDTH user ∧ fits_integer (next_order_id st))
  ∧ fits_integer (order_total prices combined)
  ∧ (Forall row_fits (new_rows (next_order_id st) prices combined)
     ∧ fits_integer (next_item_id st)
     ∧ fits_integer (next_item_id st + Z.of_nat (length (new_rows (next_order_id st) prices combined)) - 1)).

#[global] Instance rows_fit_dec user items st : Decision (rows_fit user items st).
Proof. unfold rows_fit. apply _. Defined.

(** The statements of a [create_order] whose products are in stock and
    whose rows the store does not take, up to the statement that the
    store refuses. *)
Definition refused_log (user : string) (items : list OrderItemIn) (st : DB) : list Stmt :=
  let combined := Orders.combine_items items in
  let prices := Orders.select_prices combined.*1 (products st) in
  let oid := next_order_id st in
  [SelectPrices combined.*1] ++ reserve_log combined ++ [InsertOrder user 0]
  ++ (if decide (fits_string USER_ID_WIDTH user ∧ fits_integer oid)
      then total_stmts oid (order_total prices combined)
           ++ (if decide (fits_integer (order_total prices combined))
               then [InsertOrderItems (new_rows oid prices combined)]
               else [])
      else []).

(** The reservation statements, as a test. *)
Definition is_update_stock (st : Stmt) : bool :=
  match st with
  | UpdateStock _ _ => true
  | _ => false
  end.

(** The list [missing] of [create_order]. *)
Definition missing_ids (items : list OrderItemIn) (ps : gmap Z Product) : list Z :=
  let product_ids := (Orders.combine_items items).*1 in
  Orders.sorted (list_to_set product_ids ∖ dom (Orders.select_prices product_ids ps)).

(** The session that [Orders.get_session] hands to a handler. *)
Definition opened (db : DB) : Session :=
  send (CreateSchemaIfNotExists DB_SCHEMA) (SessionLocal db).

(** ** Statements as the only way to the store *)

(** The store after a list of statements. *)
Definition replay (l : list Stmt) (db : DB) : DB :=
  fold_left (λ d st, run_stmt st d) l db.

(** The statements that the handlers of the orders service send. *)
Definition orders_stmt (st : Stmt) : Prop :=
  match st with
  | CreateSchemaIfNotExists _ | SelectPrices _ | UpdateStock _ _ | InsertOrder _ _
  | UpdateOrderTotal _ _ | InsertOrderItem _ _ _ _ | InsertOrderItems _ | SelectOrder _
  | SelectOrderItems _ | SelectOrdersOfUser _ => True
  | _ => False
  end.

(** The guarded reservation statement, and the statements that leave the
    [products] table as it is. *)
Definition is_reservation (st : Stmt) : Prop := ∃ pid q, st = UpdateStock pid q.
Definition keeps_products (st : Stmt) : Prop := ∀ db, products (run_stmt st db) = products db.

(** A computation is traced when the statements it logged are all of the
    orders service and, if it returns, its effect on the session's store
    is the replay of these statements. *)
Definition returned {A} (r : Result A) : Prop :=
  match r with Ok _ => True | Raise _ => False end.

Definition traced {A} (m : M A) : Prop :=
  ∀ s r s', Forall orders_stmt (pending s) → m s = (r, s') →
    ∃ l, log s' = log s ++ l ∧ (returned r → store s' = replay l (store s))
         ∧ Forall orders_stmt l ∧ Forall orders_stmt (pending s').

(** The same rows of [products], up to their [stock]. *)
Definition same_catalog (ps ps' : gmap Z Product) : Prop :=
  ∀ k, match ps !! k, ps' !! k with
       | Some p, Some p' => name p' = name p ∧ price_cents p' = price_cents p
       | None, None => True
       | _, _ => False
       end.

(** ** Reading orders back *)

(** One order of a listing: the stored row with the items that reference
    it. *)
Definition order_out (its : list OrderItem) (o : Order) : OrderOut :=
  mkOrderOut (id o) (user_id o) (total_cents o)
    (map Orders.item_out (filter (λ i, order_id i = id o) its)).

(** The rows that [list_my_orders] selects, in its order. *)
Definition listed (user : string) (db : DB) : list Order :=
  merge_sort Orders.id_desc (filter (λ o, user_id o = user) (orders db)).

(** Newest first, with no two orders of the same ID. *)
Definition newer (a b : OrderOut) : Prop := out_id b < out_id a.

(** ** The requests of the two services as steps of the store *)

Inductive CatalogOp :=
| ListProducts
| CreateProduct (payload : ProductIn)
| PutProduct (pid : Z) (payload : ProductIn)
| RemoveProduct (pid : Z).

(** The store after a catalog request. *)
Definition catalog_run (op : CatalogOp) (db : DB) : DB :=
  match op with
  | ListProducts => db_after (Catalog.get_session Catalog.list_products db)
  | CreateProduct payload => db_after (Catalog.get_session (Catalog.create_product payload) db)
  | PutProduct pid payload => db_after (Catalog.get_session (Catalog.update_product pid payload) db)
  | RemoveProduct pid => db_after (Catalog.get_session (Catalog.delete_product pid) db)
  end.

(** The request bodies that pass the schema of the catalog. *)
Definition catalog_op_valid (op : CatalogOp) : Prop :=
  match op with
  | CreateProduct payload | PutProduct _ payload => ProductIn_valid payload
  | _ => True
  end.

(** Any catalog request, valid or not. *)
Definition catalog_step (db db' : DB) : Prop := ∃ op, db' = catalog_run op db.

(** One step of the system: a catalog request with a valid body, a request
    to the orders service with any body, one reservation statement
    committed on its own, or keys of the sequences used up without a row
    (the store does not give back the key of an [INSERT] that was refused
    or rolled back). *)
Inductive step : DB → DB → Prop :=
| step_catalog op db :
    catalog_op_valid op → step db (catalog_run op db)
| step_post_orders user items db :
    step db (db_after (Orders.post_orders user items db))
| step_get_orders_me user db :
    step db (db_after (Orders.get_orders_me user db))
| step_reserve pid q db :
    step db (run_stmt (UpdateStock pid q) db)
| step_skip_keys np no ni db :
    next_product_id db <= np → next_order_id db <= no → next_item_id db <= ni →
    step db (mkDB (schemas db) (products db) np (orders db) no (order_items db) ni).

Definition reachable (db : DB) : Prop := rtc step initial_db db.

(** ** The total of a request at catalog prices *)

(** The catalog price of product [pid], and the sum over the distinct
    products of a request of quantity times catalog price. *)
Definition price_at (ps : gmap Z Product) (pid : Z) : Z :=
  default 0 (price_cents <$> ps !! pid).

Definition catalog_total (ps : gmap Z Product) (items : list OrderItemIn) : Z :=
  foldr (λ pid acc, requested items pid * price_at ps pid + acc) 0 (request_ids items).

(** ** What the store takes *)

(** The store takes the rows of the order that a request places: the user
    fits [orders.user_id], the total fits [orders.total_cents], every
    product ID, merged quantity and price fits its column of
    [order_items], and the generated keys fit. *)
Definition order_fits (db : DB) (user : string) (items : list OrderItemIn) : Prop :=
  fits_string USER_ID_WIDTH user
  ∧ fits_integer (next_order_id db)
  ∧ fits_integer (catalog_total (products db) items)
  ∧ Forall (λ k, fits_integer k ∧ fits_integer (requested items k)
                 ∧ fits_integer (price_at (products db) k)) (request_ids items)
  ∧ fits_integer (next_item_id db)
  ∧ fits_integer (next_item_id db + Z.of_nat (length (request_ids items)) - 1).

#[global] Instance order_fits_dec db user items : Decision (order_fits db user items).
Proof. unfold order_fits. apply _. Defined.

(** The store takes the row of a catalog payload. *)
Definition payload_fits (payload : ProductIn) : Prop :=
  fits_text (pin_name payload) ∧ fits_integer (pin_price_cents payload)
  ∧ fits_integer (pin_stock payload).

#[global] Instance payload_fits_dec payload : Decision (payload_fits payload).
Proof. unfold payload_fits. apply _. Defined.

(** The row of a catalog payload. *)
Definition product_of (payload : ProductIn) : Product :=
  mkProduct (pin_name payload) (pin_price_cents payload) (pin_stock payload).

(** ** A small store for the examples *)

Definition tea : Product := mkProduct "tea" 250 10.
Definition mug : Product := mkProduct "mug" 900 3.

Definition shop : DB :=
  mkDB {[ CATALOG_SCHEMA ]} (<[1 := tea]> (<[2 := mug]> ∅)) 3 [] 1 [] 1.

(** The shop with a product whose price times two is more than an
    [Integer] column holds. *)
Definition gem : Product := mkProduct "gem" 1500000000 10.

Definition pricey_shop : DB :=
  mkDB {[ CATALOG_SCHEMA ]} (<[1 := tea]> (<[2 := mug]> (<[3 := gem]> ∅))) 4 [] 1 [] 1.

(** The same shop after three orders of two customers. *)
Definition busy_shop : DB :=
  mkDB {[ CATALOG_SCHEMA; DB_SCHEMA ]} (<[1 := tea]> (<[2 := mug]> ∅)) 3
    [mkOrder 1 "bob" 900; mkOrder 2 "ann" 500; mkOrder 3 "ann" 1150] 4
    [mkOrderItem 1 1 2 1 900; mkOrderItem 2 2 1 2 250;
     mkOrderItem 3 3 1 1 250; mkOrderItem 4 3 2 1 900] 5.

(** ** More of the two services *)

(** The sum of the quantities that a list of reservation items holds for
    product [k]. *)
Fixpoint reserved_qty (items : list (Z * Z)) (k : Z) : Z :=
  match items with
  | [] => 0
  | (pid, q) :: rest => (if decide (pid = k) then q else 0) + reserved_qty rest k
  end.

(** The sum of [qty * price_cents] over stored item rows. *)
Definition rows_total (its : list OrderItem) : Z :=
  foldr (λ i acc, qty i * item_price_cents i + acc) 0 its.

(** Every order row holds the sum of the line totals of its item rows. *)
Definition totals_consistent (db : DB) : Prop :=
  Forall (λ o, total_cents o = rows_total (filter (λ i, order_id i = id o) (order_items db)))
         (orders db).

(** Every price of the [products] table is non-negative. *)
Definition price_nonneg (ps : gmap Z Product) : Prop :=
  ∀ k p, ps !! k = Some p → 0 <= price_cents p.

(** The sum of the quantities of a request, and of a dict of merged
    quantities. *)
Definition total_qty (items : list OrderItemIn) : Z :=
  foldr (λ it acc, in_qty it + acc) 0 items.

Definition dict_total (d : list (Z * Z)) : Z :=
  foldr (λ kv acc, kv.2 + acc) 0 d.

(** *** The Prometheus counters of [create_order] *)

(** [ORDERS_CREATED] and [ORDERS_FAILED], the latter by its label
    [reason]. *)
Record Counters := mkCounters {
  orders_created : Z;
  orders_failed : gmap string Z
}.

(** [ORDERS_CREATED.inc()] and [ORDERS_FAILED.labels(reason=r).inc()]. *)
Definition inc_created (c : Counters) : Counters :=
  mkCounters (orders_created c + 1) (orders_failed c).

Definition inc_failed (reason : string) (c : Counters) : Counters :=
  mkCounters (orders_created c)
             (<[reason := default 0 (orders_failed c !! reason) + 1]> (orders_failed c)).

(** The reading of [ORDERS_FAILED] for one label. *)
Definition failed_count (reason : string) (c : Counters) : Z :=
  default 0 (orders_failed c !! reason).

(** The part of [create_order] between the reservation and the counter of
    successes: the order row, its item rows, the total, the refresh. The
    value is the generated ID with the refreshed row. *)
Definition persist_order (user : string) (prices : gmap Z Z) (combined : list (Z * Z))
    : M (Z * Order) :=
  let* oid := Orders.new_order user in
  let* total := Orders.snapshot_items oid prices combined 0 in
  run session_add (UpdateOrderTotal oid total) in
  run session_flush in
  let* order := Orders.session_refresh oid in
  ret (oid, order).

(** [create_order] with its counters: the session and the counters are
    both threaded; [except HTTPException] counts and raises again;
    [ORDERS_CREATED.inc()] comes before the response body reads
    [order.items]. *)
Definition create_order_counted (items : list OrderItemIn) (user : string)
    (c : Counters) (s : Session) : Result OrderOut * Session * Counters :=
  match items with
  | [] => (Raise (HTTPException 400 "items must not be empty"), s, c)
  | _ =>
      let combined := Orders.combine_items items in
      let product_ids := combined.*1 in
      match Orders.fetch_prices product_ids s with
      | (Raise e, s1) => (Raise e, s1, c)
      | (Ok prices, s1) =>
          if decide (size prices ≠ length product_ids)
          then
            let missing := Orders.sorted (list_to_set product_ids ∖ dom prices) in
            (Raise (HTTPException 400 ("unknown product(s): " +:+ repr_list missing)),
             s1, inc_failed "missing_product" c)
          else
            match Orders.reserve_stock combined s1 with
            | (Raise (HTTPException st d), s2) =>
                (Raise (HTTPException st d), s2, inc_failed "insufficient_stock" c)
            | (Raise e, s2) => (Raise e, s2, c)
            | (Ok _, s2) =>
                match persist_order user prices combined s2 with
                | (Raise e, s3) => (Raise e, s3, c)
                | (Ok (oid, order), s3) =>
                    let c' := inc_created c in
                    match Orders.load_items oid s3 with
                    | (Raise e, s4) => (Raise e, s4, c')
                    | (Ok its, s4) =>
                        (Ok (mkOrderOut (id order) (user_id order) (total_cents order)
                               (map Orders.item_out its)), s4, c')
                    end
                end
            end
      end
  end.

(** The request [POST /orders] with the counters; the counters live in
    the process and are not part of the transaction. *)
Definition post_orders_counted (user : string) (items : list OrderItemIn)
    (c : Counters) (db : DB) : Response OrderOut * Counters :=
  match create_order_counted items user c (opened db) with
  | (r, s', c') => (close_session db (r, s'), c')
  end.

(** *** The route prefix of the catalog *)

(** A Python [str] as its code points. *)
Definition slash : N := 47.

(** [str.isspace] on one code point. *)
Definition isspace (c : N) : bool :=
  ((9 <=? c) && (c <=? 13) || (28 <=? c) && (c <=? 32) || (c =? 133) || (c =? 160)
   || (c =? 5760) || (8192 <=? c) && (c <=? 8202) || (c =? 8232) || (c =? 8233)
   || (c =? 8239) || (c =? 8287) || (c =? 12288))%N.

Fixpoint lstrip (f : N → bool) (s : list N) : list N :=
  match s with
  | [] => []
  | c :: s' => if f c then lstrip f s' else s
  end.

Definition rstrip (f : N → bool) (s : list N) : list N :=
  reverse (lstrip f (reverse s)).

(** [s.strip()] and [s.rstrip("/")]. *)
Definition strip (s : list N) : list N := rstrip isspace (lstrip isspace s).
Definition rstrip_slash (s : list N) : list N := rstrip (λ c, (c =? slash)%N) s.

(** [s.startswith("/")]. *)
Definition startswith_slash (s : list N) : bool :=
  match s with
  | c :: _ => (c =? slash)%N
  | [] => false
  end.

(** [API_PREFIX] of [catalog/app/main.py], from the value of the
    environment variable if it is set. *)
Definition API_PREFIX (env : option (list N)) : list N :=
  let p := strip (default [] env) in
  let p := match p with
           | [] => p
           | _ => if negb (startswith_slash p) then slash :: p else p
           end in
  rstrip_slash p.

(** * Properties *)

(** ** The conditional update *)

Section ConditionalUpdate.
Variables (pid qty : Z) (ps : gmap Z Product).

Lemma update_stock_lookup k :
  update_stock pid qty ps !! k =
  (λ p, if reserve_where pid qty k p then reserve_set qty p else p) <$> ps !! k.
Proof.
  unfold update_stock. rewrite map_lookup_imap.
  by destruct (ps !! k).
Qed.

Lemma update_stock_lookup_ne k : k ≠ pid → update_stock pid qty ps !! k = ps !! k.
Proof.
  intros Hne. rewrite update_stock_lookup. destruct (ps !! k) as [p|]; [|done].
  simpl. unfold reserve_where. by rewrite bool_decide_eq_false_2.
Qed.

Lemma update_stock_hit p :
  ps !! pid = Some p → qty <= stock p →
  update_stock pid qty ps = <[pid := reserve_set qty p]> ps.
Proof.
  intros Hp Hq. apply map_eq. intros k.
  destruct (decide (k = pid)) as [->|Hne].
  - rewrite lookup_insert_eq, update_stock_lookup, Hp. simpl.
    unfold reserve_where. rewrite !bool_decide_eq_true_2 by lia. done.
  - rewrite lookup_insert_ne by done. by apply update_stock_lookup_ne.
Qed.

Lemma update_stock_miss :
  ¬ in_stock ps pid qty → update_stock pid qty ps = ps.
Proof.
  intros Hno. apply map_eq. intros k. rewrite update_stock_lookup.
  destruct (ps !! k) as [p|] eqn:Hk; [|done]. simpl.
  unfold reserve_where.
  destruct (bool_decide_reflect (k = pid)) as [->|]; [|done].
  destruct (bool_decide_reflect (stock p >= qty)); [|done].
  exfalso. apply Hno. exists p. split; [done|lia].
Qed.

Lemma rowcount_hit : in_stock ps pid qty → update_stock_rowcount pid qty ps = 1.
Proof.
  intros (p & Hp & Hq). unfold update_stock_rowcount.
  replace (filter (λ kp : Z * Product, reserve_where pid qty kp.1 kp.2 = true) ps)
    with ({[ pid := p ]} : gmap Z Product); [by rewrite map_size_singleton|].
  apply map_eq. intros k. symmetry.
  destruct (decide (k = pid)) as [->|Hne].
  - rewrite lookup_singleton_eq. apply map_lookup_filter_Some. split; [done|].
    simpl. unfold reserve_where. rewrite !bool_decide_eq_true_2 by lia. done.
  - rewrite lookup_singleton_ne by done. apply map_lookup_filter_None. right.
    intros p' _. simpl. unfold reserve_where.
    rewrite (bool_decide_eq_false_2 (k = pid)) by done. done.
Qed.

Lemma rowcount_miss : ¬ in_stock ps pid qty → update_stock_rowcount pid qty ps = 0.
Proof.
  intros Hno. unfold update_stock_rowcount.
  replace (filter (λ kp : Z * Product, reserve_where pid qty kp.1 kp.2 = true) ps)
    with (∅ : gmap Z Product); [done|].
  symmetry. apply map_empty. intros k. apply map_lookup_filter_None. right.
  intros p Hk. simpl. unfold reserve_where.
  destruct (bool_decide_reflect (k = pid)) as [->|]; [|done].
  destruct (bool_decide_reflect (stock p >= qty)); [|done].
  exfalso. apply Hno. exists p. split; [done|lia].
Qed.

End ConditionalUpdate.

(** ** The dict [combined] *)

Section Dict.
Import Orders.

Lemma dict_set_keys d k v :
  (dict_set d k v).*1 = if decide (k ∈ d.*1) then d.*1 else d.*1 ++ [k].
Proof.
  induction d as [|[k' v'] d IH]; [done|].
  cbn [dict_set]. destruct (decide (k' = k)) as [->|Hne]; rewrite !fmap_cons; cbn [fst].
  - rewrite decide_True; [done|]. apply list_elem_of_here.
  - rewrite IH. destruct (decide (k ∈ d.*1)) as [Hin|Hnin].
    + rewrite decide_True; [done|]. by apply list_elem_of_further.
    + rewrite decide_False; [done|]. intros Hin.
      apply elem_of_cons in Hin as [?|?]; congruence.
Qed.

Lemma dict_get_set_eq d k v x : dict_get (dict_set d k v) k x = v.
Proof.
  induction d as [|[k' v'] d IH]; simpl.
  - by rewrite decide_True.
  - destruct (decide (k' = k)) as [->|Hne]; simpl.
    + by rewrite decide_True.
    + by rewrite decide_False.
Qed.

Lemma dict_get_set_ne d k v k' x :
  k ≠ k' → dict_get (dict_set d k v) k' x = dict_get d k' x.
Proof.
  intros Hne. induction d as [|[k0 v0] d IH]; simpl.
  - by rewrite decide_False.
  - destruct (decide (k0 = k)) as [->|Hne0]; simpl.
    + by rewrite !decide_False.
    + by rewrite IH.
Qed.

Lemma dict_set_NoDup d k v : NoDup d.*1 → NoDup (dict_set d k v).*1.
Proof.
  intros Hnd. rewrite dict_set_keys. case_decide; [done|].
  apply NoDup_app. split; [done|]. split.
  - intros y Hy Hk. apply list_elem_of_singleton in Hk. congruence.
  - apply NoDup_singleton.
Qed.

(** A dict with distinct keys is its key list paired with the lookups. *)
Lemma dict_as_lookups d x :
  NoDup d.*1 → d = map (λ k, (k, dict_get d k x)) d.*1.
Proof.
  induction d as [|[k v] d IH]; simpl; [done|].
  intros Hnd. apply NoDup_cons in Hnd as [Hk Hnd].
  rewrite decide_True by done. f_equal.
  rewrite IH at 1 by done. apply map_ext_in. intros k' Hin.
  apply list_elem_of_In in Hin.
  rewrite decide_False; [done|]. congruence.
Qed.

Lemma combine_fold_NoDup items d :
  NoDup d.*1 → NoDup (fold_left combine_step items d).*1.
Proof.
  revert d. induction items as [|it items IH]; intros d Hd; simpl; [done|].
  apply IH. by apply dict_set_NoDup.
Qed.

Lemma combine_fold_get items d k :
  dict_get (fold_left combine_step items d) k 0 = dict_get d k 0 + requested items k.
Proof.
  revert d. induction items as [|it items IH]; intros d; simpl; [lia|].
  rewrite IH. unfold combine_step.
  destruct (decide (in_product_id it = k)) as [->|Hne].
  - rewrite dict_get_set_eq. lia.
  - rewrite dict_get_set_ne by done. lia.
Qed.

Lemma elem_of_distinct l k : k ∈ distinct l ↔ k ∈ l.
Proof.
  induction l as [|x l IH]; simpl; [done|].
  rewrite !elem_of_cons, list_elem_of_filter, IH.
  destruct (decide (k = x)); naive_solver.
Qed.

Lemma NoDup_distinct l : NoDup (distinct l).
Proof.
  induction l as [|x l IH]; simpl; [apply NoDup_nil_2|].
  apply NoDup_cons. split.
  - rewrite list_elem_of_filter. naive_solver.
  - by apply NoDup_filter.
Qed.

Lemma filter_filter_ne (ks l : list Z) k :
  filter (λ y, y ∉ ks ++ [k]) l = filter (λ y, y ∉ ks) (filter (λ y, y ≠ k) l).
Proof.
  induction l as [|y l IH]; [done|].
  rewrite !filter_cons. destruct (decide (y ≠ k)) as [Hne|Heq].
  - rewrite filter_cons. destruct (decide (y ∉ ks)) as [Hn|Hn].
    + rewrite decide_True; [by rewrite IH|].
      rewrite elem_of_app, list_elem_of_singleton. naive_solver.
    + rewrite decide_False; [done|].
      rewrite elem_of_app. naive_solver.
  - rewrite decide_False; [done|].
    rewrite elem_of_app, list_elem_of_singleton.
    destruct (decide (y = k)); naive_solver.
Qed.

Lemma filter_drop_ne (ks l : list Z) k :
  k ∈ ks → filter (λ y, y ∉ ks) (filter (λ y, y ≠ k) l) = filter (λ y, y ∉ ks) l.
Proof.
  intros Hk. induction l as [|y l IH]; [done|].
  rewrite !filter_cons. destruct (decide (y ≠ k)) as [Hne|Heq].
  - rewrite filter_cons. by rewrite IH.
  - rewrite IH. rewrite decide_False; [done|].
    destruct (decide (y = k)) as [->|]; naive_solver.
Qed.

Lemma combine_fold_keys items d :
  (fold_left combine_step items d).*1 =
  d.*1 ++ filter (λ y, y ∉ d.*1) (distinct (map in_product_id items)).
Proof.
  revert d. induction items as [|it items IH]; intros d.
  - simpl. by rewrite app_nil_r.
  - cbn [fold_left map distinct]. rewrite IH. unfold combine_step.
    set (k := in_product_id it). rewrite (dict_set_keys d k). rewrite filter_cons.
    destruct (decide (k ∈ d.*1)) as [Hin|Hnin]; case_decide; try done.
    + by rewrite filter_drop_ne.
    + rewrite <- app_assoc. simpl. by rewrite filter_filter_ne.
Qed.

Lemma combine_items_keys items : (combine_items items).*1 = request_ids items.
Proof.
  unfold combine_items.
  rewrite combine_fold_keys. simpl. unfold request_ids.
  induction (distinct (map in_product_id items)) as [|y l IH]; [done|].
  rewrite filter_cons. rewrite decide_True by apply not_elem_of_nil. by f_equal.
Qed.

Lemma combine_items_get items k : dict_get (combine_items items) k 0 = requested items k.
Proof.
  unfold combine_items.
  by rewrite combine_fold_get.
Qed.

Lemma combine_items_NoDup items : NoDup (combine_items items).*1.
Proof. rewrite combine_items_keys. apply NoDup_distinct. Qed.

(** [combined] holds, for each distinct product of the request in
    first-occurrence order, the summed quantity. *)
Lemma combine_items_spec items :
  combine_items items = map (λ k, (k, requested items k)) (request_ids items).
Proof.
  rewrite (dict_as_lookups (combine_items items) 0) by apply combine_items_NoDup.
  rewrite combine_items_keys. apply map_ext. intros k.
  by rewrite combine_items_get.
Qed.

Lemma request_ids_nil items : request_ids items = [] ↔ items = [].
Proof. unfold request_ids. by destruct items. Qed.
End Dict.

(** ** Price lookup *)

Section Prices.
Import Orders.

Lemma select_prices_lookup ids ps k :
  select_prices ids ps !! k = if decide (k ∈ ids) then price_cents <$> ps !! k else None.
Proof.
  unfold select_prices. rewrite lookup_fmap, map_lookup_filter.
  destruct (ps !! k) as [p|]; simpl; [|by case_decide].
  unfold guard. simpl. by destruct (decide (k ∈ ids)).
Qed.

Lemma select_prices_dom ids ps :
  dom (select_prices ids ps) = dom ps ∩ list_to_set ids.
Proof.
  apply set_eq. intros k.
  rewrite elem_of_dom, select_prices_lookup, elem_of_intersection,
    elem_of_dom, elem_of_list_to_set.
  case_decide.
  - rewrite fmap_is_Some. naive_solver.
  - split; [by intros [? ?]|naive_solver].
Qed.

Lemma select_prices_size ids ps :
  NoDup ids →
  size (select_prices ids ps) = length ids ↔ Forall (λ k, is_Some (ps !! k)) ids.
Proof.
  intros Hnd. rewrite <- size_dom, select_prices_dom.
  rewrite <- (size_list_to_set (C := gset Z) ids Hnd).
  rewrite Forall_forall. split.
  - intros Hsz k Hk.
    assert (dom ps ∩ list_to_set ids =@{gset Z} list_to_set ids) as Heq.
    { apply set_subseteq_size_eq; [set_solver|lia]. }
    apply elem_of_dom. set_solver.
  - intros Hall. f_equal. apply set_eq. intros k.
    rewrite elem_of_intersection, elem_of_list_to_set, elem_of_dom. naive_solver.
Qed.

Lemma select_prices_full ids ps k :
  size (select_prices ids ps) = length ids → NoDup ids → k ∈ ids →
  ∃ p, ps !! k = Some p ∧ select_prices ids ps !! k = Some (price_cents p).
Proof.
  intros Hsz Hnd Hk. apply select_prices_size in Hsz; [|done].
  rewrite Forall_forall in Hsz. destruct (Hsz k Hk) as [p Hp].
  exists p. split; [done|]. rewrite select_prices_lookup, decide_True by done.
  by rewrite Hp.
Qed.

(** The list [missing]: strictly ascending, and exactly the requested
    IDs that the catalog does not hold. *)
Lemma elem_of_sorted X k : k ∈ sorted X ↔ k ∈ X.
Proof. unfold sorted. rewrite merge_sort_Permutation. apply elem_of_elements. Qed.

Lemma sorted_ascending X : StronglySorted Z.lt (sorted X).
Proof.
  unfold sorted.
  assert (NoDup (merge_sort Z.le (elements X))) as Hnd.
  { rewrite merge_sort_Permutation. apply NoDup_elements. }
  assert (StronglySorted Z.le (merge_sort Z.le (elements X))) as Hs.
  { apply StronglySorted_merge_sort; apply _. }
  induction Hs as [|x l Hl IH Hx]; [constructor|].
  apply NoDup_cons in Hnd as [Hnin Hnd]. constructor; [by apply IH|].
  rewrite Forall_forall in Hx |- *. intros y Hy.
  specialize (Hx y Hy). assert (x ≠ y) by (intros ->; done). lia.
Qed.

Lemma missing_spec ids ps k :
  k ∈ sorted (list_to_set ids ∖ dom (select_prices ids ps)) ↔ k ∈ ids ∧ ps !! k = None.
Proof.
  rewrite elem_of_sorted, elem_of_difference, elem_of_list_to_set,
    select_prices_dom, elem_of_intersection, elem_of_list_to_set, elem_of_dom.
  rewrite eq_None_not_Some. naive_solver.
Qed.
End Prices.

(** ** Running the handlers' steps *)

Section Steps.
Import Orders.

Lemma bind_ok {A B} (m : M A) (k : A → M B) s a s' :
  m s = (Ok a, s') → bind m k s = k a s'.
Proof. unfold bind. by intros ->. Qed.

Lemma bind_raise {A B} (m : M A) (k : A → M B) s e s' :
  m s = (Raise e, s') → bind m k s = (Raise e, s').
Proof. unfold bind. by intros ->. Qed.

Lemma fetch_prices_run ids st lg :
  ids ≠ [] →
  fetch_prices ids (mkSession st [] lg) =
  (Ok (select_prices ids (products st)), mkSession st [] (lg ++ [SelectPrices ids])).
Proof. intros Hne. by destruct ids. Qed.

Lemma reserve_all_lookup_notin combined ps k :
  k ∉ combined.*1 → reserve_all combined ps !! k = ps !! k.
Proof.
  revert ps. induction combined as [|[pid q] rest IH]; intros ps Hk; [done|].
  rewrite fmap_cons, not_elem_of_cons in Hk. destruct Hk as [Hne Hk].
  cbn [reserve_all fold_left]. fold (reserve_all rest (update_stock pid q ps)).
  rewrite IH by done. by apply update_stock_lookup_ne.
Qed.

Lemma reserve_stock_ok combined st lg :
  NoDup combined.*1 →
  Forall (λ kv, in_stock (products st) kv.1 kv.2) combined →
  reserve_stock combined (mkSession st [] lg) =
  (Ok tt, mkSession (set_products (reserve_all combined (products st)) st) []
                    (lg ++ reserve_log combined)).
Proof.
  revert st lg. induction combined as [|[pid q] rest IH]; intros st lg Hnd Hall.
  - simpl. rewrite app_nil_r. by destruct st.
  - rewrite fmap_cons in Hnd. apply NoDup_cons in Hnd as [Hnin Hnd].
    apply Forall_cons in Hall as [Hhd Hall]. simpl in Hhd.
    cbn [reserve_stock]. unfold bind at 1. unfold execute_update_stock, bind, peek, execute, ret. cbn [accepts].
    cbn [store]. rewrite (rowcount_hit _ _ _ Hhd).
    rewrite decide_False by (intros ?; done).
    unfold send. cbn [store pending log run_stmt accepts].
    change (mkDB (schemas st) (update_stock pid q (products st)) (next_product_id st)
              (orders st) (next_order_id st) (order_items st) (next_item_id st))
      with (set_products (update_stock pid q (products st)) st).
    rewrite IH; [|done|].
    + cbn [reserve_log map reserve_all fold_left]. rewrite <- app_assoc. done.
    + rewrite Forall_forall in Hall |- *. intros [k v] Hkv.
      destruct (Hall _ Hkv) as (p & Hp & Hle). exists p. split; [|done].
      cbn [products set_products fst]. rewrite update_stock_lookup_ne; [done|].
      intros ->. apply Hnin. apply list_elem_of_fmap. by exists (pid, v).
Qed.

Lemma reserve_stock_short l1 pid q l2 st lg :
  NoDup (l1 ++ (pid, q) :: l2).*1 →
  Forall (λ kv, in_stock (products st) kv.1 kv.2) l1 →
  ¬ in_stock (products st) pid q →
  ∃ s', reserve_stock (l1 ++ (pid, q) :: l2) (mkSession st [] lg)
          = (Raise (InsufficientStockError pid), s')
        ∧ log s' = lg ++ reserve_log (l1 ++ [(pid, q)]).
Proof.
  revert st lg. induction l1 as [|[k v] l1 IH]; intros st lg Hnd Hall Hno.
  - cbn [app reserve_stock]. unfold bind at 1.
    unfold execute_update_stock, bind, peek, execute, ret. cbn [accepts]. cbn [store].
    rewrite (rowcount_miss _ _ _ Hno). rewrite decide_True by done.
    eexists. split; [reflexivity|]. done.
  - rewrite <- app_comm_cons, fmap_cons in Hnd. apply NoDup_cons in Hnd as [Hnin Hnd].
    apply Forall_cons in Hall as [Hhd Hall]. simpl in Hhd.
    cbn [app reserve_stock]. unfold bind at 1.
    unfold execute_update_stock, bind, peek, execute, ret. cbn [accepts]. cbn [store].
    rewrite (rowcount_hit _ _ _ Hhd). rewrite decide_False by (intros ?; done).
    unfold send. cbn [store pending log run_stmt accepts].
    change (mkDB (schemas st) (update_stock k v (products st)) (next_product_id st)
              (orders st) (next_order_id st) (order_items st) (next_item_id st))
      with (set_products (update_stock k v (products st)) st).
    destruct (IH (set_products (update_stock k v (products st)) st)
                (lg ++ [UpdateStock k v])) as (s' & Hrun & Hlog); [done| |  |].
    + rewrite Forall_forall in Hall |- *. intros [k' v'] Hkv.
      destruct (Hall _ Hkv) as (p & Hp & Hle). exists p. split; [|done].
      cbn [products set_products fst]. rewrite update_stock_lookup_ne; [done|].
      intros ->. apply Hnin. rewrite fmap_app, elem_of_app. left.
      apply list_elem_of_fmap. by exists (k, v').
    + intros (p & Hp & Hle). apply Hno. exists p. split; [|done].
      cbn [products set_products] in Hp. rewrite update_stock_lookup_ne in Hp; [done|].
      intros ->. apply Hnin. rewrite fmap_app, elem_of_app. right.
      rewrite fmap_cons. apply list_elem_of_here.
    + exists s'. split; [done|]. rewrite Hlog.
      cbn [reserve_log map app]. by rewrite <- app_assoc.
Qed.

Lemma reserve_all_lookup_in combined ps k q p :
  NoDup combined.*1 → (k, q) ∈ combined → ps !! k = Some p → q <= stock p →
  reserve_all combined ps !! k = Some (reserve_set q p).
Proof.
  revert ps. induction combined as [|[k' q'] rest IH]; intros ps Hnd Hin Hp Hle.
  - by apply elem_of_nil in Hin.
  - rewrite fmap_cons in Hnd. apply NoDup_cons in Hnd as [Hnin Hnd].
    cbn [reserve_all fold_left]. fold (reserve_all rest (update_stock k' q' ps)).
    cbn [fst snd] in *.
    apply elem_of_cons in Hin as [Heq|Hin].
    + inversion Heq; subst k' q'.
      rewrite reserve_all_lookup_notin by done.
      rewrite (update_stock_hit _ _ _ p) by done. apply lookup_insert_eq.
    + assert (k ≠ k') as Hne.
      { intros ->. apply Hnin. apply list_elem_of_fmap. by exists (k', q). }
      apply IH; [done|done| |done]. by rewrite update_stock_lookup_ne.
Qed.

Lemma fits_integer_0 : fits_integer 0.
Proof. unfold fits_integer, INTEGER_MIN, INTEGER_MAX. lia. Qed.

Lemma unit_of_work_one db x :
  changes_row db x = true → item_row x = None → unit_of_work [x] db = [x].
Proof.
  intros Hc Hi. unfold unit_of_work. rewrite filter_cons, decide_True by done.
  rewrite filter_nil. change (omap item_row [x]) with (from_option (λ y, [y]) [] (item_row x)).
  by rewrite Hi.
Qed.

Lemma unit_of_work_nil db : unit_of_work [] db = [].
Proof. reflexivity. Qed.

Lemma unit_of_work_unchanged db x :
  changes_row db x = false → item_row x = None → unit_of_work [x] db = [].
Proof.
  intros Hc Hi. unfold unit_of_work. rewrite filter_cons, decide_False by (by rewrite Hc).
  rewrite filter_nil. change (omap item_row [x]) with (from_option (λ y, [y]) [] (item_row x)).
  by rewrite Hi.
Qed.

(** The flush of one pending object. *)
Lemma flush_one_run x st lg :
  changes_row st x = true → item_row x = None → accepts x st = true →
  session_flush (mkSession st [x] lg) = (Ok tt, mkSession (run_stmt x st) [] (lg ++ [x])).
Proof.
  intros Hc Hi Ha. unfold session_flush. cbn [store pending].
  rewrite unit_of_work_one by done. cbn [send_all]. unfold bind, execute.
  cbn [store]. by rewrite Ha.
Qed.

Lemma flush_one_refused x st lg :
  changes_row st x = true → item_row x = None → accepts x st = false →
  session_flush (mkSession st [x] lg) = (Raise DataError, mkSession st [x] (lg ++ [x])).
Proof.
  intros Hc Hi Ha. unfold session_flush. cbn [store pending].
  rewrite unit_of_work_one by done. cbn [send_all]. unfold bind, execute.
  cbn [store]. by rewrite Ha.
Qed.

Lemma flush_one_unchanged x st lg :
  changes_row st x = false → item_row x = None →
  session_flush (mkSession st [x] lg) = (Ok tt, mkSession st [] lg).
Proof.
  intros Hc Hi. unfold session_flush. cbn [store pending].
  by rewrite unit_of_work_unchanged.
Qed.

Lemma session_get_run pid st pd lg :
  fits_integer pid →
  Catalog.session_get pid (mkSession st pd lg)
  = (Ok (products st !! pid), mkSession st pd (lg ++ [SelectProduct pid])).
Proof.
  intros Hpid. unfold Catalog.session_get, bind, execute, peek, ret.
  cbn [store accepts]. by rewrite bool_decide_eq_true_2.
Qed.

Lemma session_get_refused pid st pd lg :
  ¬ fits_integer pid →
  Catalog.session_get pid (mkSession st pd lg)
  = (Raise DataError, mkSession st pd (lg ++ [SelectProduct pid])).
Proof.
  intros Hpid. unfold Catalog.session_get, bind, execute, peek, ret.
  cbn [store accepts]. by rewrite bool_decide_eq_false_2.
Qed.

Lemma new_order_run user st lg :
  fits_string USER_ID_WIDTH user → fits_integer (next_order_id st) →
  new_order user (mkSession st [] lg) =
  (Ok (next_order_id st),
   mkSession (run_stmt (InsertOrder user 0) st) [] (lg ++ [InsertOrder user 0])).
Proof.
  intros Hu Ho. unfold new_order, bind, peek, session_add, session_flush.
  cbn [store pending log app]. rewrite unit_of_work_one by done. cbn [send_all].
  unfold bind, execute. cbn [store accepts].
  rewrite bool_decide_eq_true_2 by (split; [done|split; [apply fits_integer_0|done]]).
  reflexivity.
Qed.

Lemma new_order_refused user st lg :
  ¬ (fits_string USER_ID_WIDTH user ∧ fits_integer (next_order_id st)) →
  new_order user (mkSession st [] lg) =
  (Raise DataError, mkSession st [InsertOrder user 0] (lg ++ [InsertOrder user 0])).
Proof.
  intros Hno. unfold new_order, bind, peek, session_add, session_flush.
  cbn [store pending log app]. rewrite unit_of_work_one by done. cbn [send_all].
  unfold bind, execute. cbn [store accepts].
  rewrite bool_decide_eq_false_2 by (intros (? & _ & ?); by apply Hno).
  reflexivity.
Qed.

Lemma snapshot_items_run oid prices combined total st pd lg :
  Forall (λ kv, is_Some (prices !! kv.1)) combined →
  snapshot_items oid prices combined total (mkSession st pd lg) =
  (Ok (total + order_total prices combined),
   mkSession st (pd ++ item_stmts oid prices combined) lg).
Proof.
  revert total pd. induction combined as [|[k v] rest IH]; intros total pd Hall.
  - simpl. by rewrite Z.add_0_r, app_nil_r.
  - apply Forall_cons in Hall as [[price Hprice] Hall]. cbn [fst] in Hprice.
    cbn [snapshot_items]. rewrite Hprice.
    unfold bind at 1. unfold session_add. cbn [store pending log].
    rewrite IH by done. cbn [order_total foldr item_stmts map fst snd].
    unfold price_of at 1 3. rewrite Hprice. cbn [default].
    rewrite <- app_assoc. unfold Datatypes.id.
    fold (order_total prices rest). fold (item_stmts oid prices rest).
    cbn [app]. do 2 f_equal. lia.
Qed.

Lemma filter_item_stmts db oid prices combined :
  filter (λ st, changes_row db st = true) (item_stmts oid prices combined) = [].
Proof. induction combined as [|kv rest IH]; [done|]. cbn [item_stmts map]. by rewrite filter_cons. Qed.

Lemma omap_item_stmts oid prices combined :
  omap item_row (item_stmts oid prices combined) = new_rows oid prices combined.
Proof.
  induction combined as [|kv rest IH]; [done|].
  change (omap item_row (item_stmts oid prices (kv :: rest)))
    with ((oid, kv.1, kv.2, price_of prices kv.1)
          :: omap item_row (item_stmts oid prices rest)).
  by rewrite IH.
Qed.

Lemma insert_rows_new first oid prices combined :
  insert_rows first (new_rows oid prices combined) = item_rows first oid prices combined.
Proof.
  revert first. induction combined as [|kv rest IH]; intros first; [done|].
  cbn [new_rows map insert_rows item_rows]. f_equal. apply IH.
Qed.

Lemma new_rows_length oid prices combined :
  length (new_rows oid prices combined) = length combined.
Proof. unfold new_rows. by rewrite length_map. Qed.

(** The plan of the second flush of [create_order]. *)
Lemma unit_of_work_order db oid prices combined total o :
  combined ≠ [] →
  List.find (λ o, bool_decide (id o = oid)) (orders db) = Some o →
  total_cents o = 0 →
  unit_of_work (item_stmts oid prices combined ++ [UpdateOrderTotal oid total]) db
  = total_stmts oid total ++ [InsertOrderItems (new_rows oid prices combined)].
Proof.
  intros Hne Hfind H0. unfold unit_of_work.
  rewrite filter_app, filter_item_stmts, omap_app, omap_item_stmts.
  cbn [omap item_row app]. rewrite app_nil_r.
  f_equal.
  - rewrite filter_cons. cbn [changes_row]. rewrite Hfind, H0. unfold total_stmts.
    destruct (decide (total = 0)) as [->|Hne0].
    + by rewrite bool_decide_eq_false_2 by (by intros ?).
    + by rewrite bool_decide_eq_true_2 by (by intros ?).
  - destruct combined; [done|]. done.
Qed.
End Steps.

(** ** A successful order, step by step *)

Section Placed.
Import Orders.

Lemma set_total_fresh oid total os :
  Forall (λ o, id o < oid) os → map (set_total oid total) os = os.
Proof.
  induction 1 as [|o os Ho _ IH]; [done|]. cbn [map]. rewrite IH.
  unfold set_total. rewrite decide_False by lia. done.
Qed.

Lemma find_fresh oid (o : Order) os :
  id o = oid → Forall (λ o, id o < oid) os →
  List.find (λ o, bool_decide (id o = oid)) (os ++ [o]) = Some o.
Proof.
  intros Ho. induction 1 as [|o' os Ho' _ IH]; cbn [app List.find].
  - by rewrite bool_decide_eq_true_2.
  - rewrite bool_decide_eq_false_2 by lia. done.
Qed.

Lemma filter_items_fresh oid its :
  Forall (λ i, order_id i < oid) its → filter (λ i, order_id i = oid) its = [].
Proof.
  induction 1 as [|i its Hi _ IH]; [done|].
  rewrite filter_cons, decide_False by lia. done.
Qed.

Lemma filter_item_rows first oid prices combined :
  filter (λ i, order_id i = oid) (item_rows first oid prices combined)
  = item_rows first oid prices combined.
Proof.
  revert first. induction combined as [|kv rest IH]; intros first; [done|].
  cbn [item_rows]. rewrite filter_cons, decide_True by done. by rewrite IH.
Qed.

Lemma item_rows_out first oid prices combined :
  map item_out (item_rows first oid prices combined) = items_out prices combined.
Proof.
  revert first. induction combined as [|kv rest IH]; intros first; [done|].
  cbn [item_rows map items_out]. by rewrite IH.
Qed.

Lemma combined_in_stock items ps :
  Forall (λ k, in_stock ps k (requested items k)) (request_ids items) →
  Forall (λ kv, in_stock ps kv.1 kv.2) (combine_items items).
Proof.
  intros Hall. rewrite combine_items_spec. by apply Forall_fmap.
Qed.

(** The second flush of [create_order], when the store takes its
    statements. *)
Lemma second_flush_run oid user prices combined total st lg :
  combined ≠ [] →
  Forall (λ o, id o < oid) (orders st) →
  fits_integer total →
  Forall row_fits (new_rows oid prices combined) →
  fits_integer (next_item_id st) →
  fits_integer (next_item_id st + Z.of_nat (length (new_rows oid prices combined)) - 1) →
  session_flush
    (mkSession
       (mkDB (schemas st) (products st) (next_product_id st)
             (orders st ++ [mkOrder oid user 0]) (oid + 1) (order_items st) (next_item_id st))
       (item_stmts oid prices combined ++ [UpdateOrderTotal oid total]) lg)
  = (Ok tt,
     mkSession
       (mkDB (schemas st) (products st) (next_product_id st)
             (orders st ++ [mkOrder oid user total]) (oid + 1)
             (order_items st ++ item_rows (next_item_id st) oid prices combined)
             (next_item_id st + Z.of_nat (length combined)))
       [] (lg ++ total_stmts oid total ++ [InsertOrderItems (new_rows oid prices combined)])).
Proof.
  intros Hne Hos Ht Hrows Hi1 Hi2. unfold session_flush. cbn [store pending].
  rewrite (unit_of_work_order _ _ _ _ _ (mkOrder oid user 0)); [|done| |done].
  2:{ cbn [orders]. by apply find_fresh. }
  unfold total_stmts. destruct (decide (total = 0)) as [->|Hne0].
  - cbn [app send_all]. unfold bind, execute. cbn [store accepts next_item_id].
    rewrite bool_decide_eq_true_2 by done.
    unfold send, ret. cbn [store pending log run_stmt schemas products next_product_id
      orders next_order_id order_items next_item_id].
    by rewrite insert_rows_new, new_rows_length.
  - cbn [app send_all]. unfold bind at 1. unfold execute at 1. cbn [store accepts].
    rewrite bool_decide_eq_true_2 by done.
    unfold bind, execute, send. cbn [store pending log accepts run_stmt schemas products
      next_product_id orders next_order_id order_items next_item_id].
    rewrite bool_decide_eq_true_2 by done.
    unfold ret. cbn [store pending log run_stmt schemas products next_product_id
      orders next_order_id order_items next_item_id].
    rewrite insert_rows_new, new_rows_length, map_app. cbn [map].
    rewrite (set_total_fresh _ _ _ Hos).
    unfold set_total. cbn [id user_id]. rewrite decide_True by done.
    by rewrite <- app_assoc.
Qed.

(** The second flush of [create_order], when the store refuses one of its
    statements. *)
Lemma second_flush_refused oid user prices combined total st lg :
  combined ≠ [] →
  Forall (λ o, id o < oid) (orders st) →
  ¬ (fits_integer total
     ∧ Forall row_fits (new_rows oid prices combined)
     ∧ fits_integer (next_item_id st)
     ∧ fits_integer (next_item_id st + Z.of_nat (length (new_rows oid prices combined)) - 1)) →
  ∃ s', session_flush
          (mkSession
             (mkDB (schemas st) (products st) (next_product_id st)
                   (orders st ++ [mkOrder oid user 0]) (oid + 1) (order_items st)
                   (next_item_id st))
             (item_stmts oid prices combined ++ [UpdateOrderTotal oid total]) lg)
        = (Raise DataError, s')
        ∧ log s' = lg ++ total_stmts oid total
                   ++ (if decide (fits_integer total)
                       then [InsertOrderItems (new_rows oid prices combined)]
                       else []).
Proof.
  intros Hne Hos Hno. unfold session_flush. cbn [store pending].
  rewrite (unit_of_work_order _ _ _ _ _ (mkOrder oid user 0)); [|done| |done].
  2:{ cbn [orders]. by apply find_fresh. }
  unfold total_stmts. destruct (decide (total = 0)) as [->|Hne0].
  - cbn [app send_all]. unfold bind, execute. cbn [store accepts next_item_id].
    rewrite bool_decide_eq_false_2.
    + eexists. split; [done|]. cbn [log]. by rewrite decide_True by apply fits_integer_0.
    + intros H. apply Hno. split; [apply fits_integer_0|done].
  - cbn [app send_all]. unfold bind at 1. unfold execute at 1. cbn [store accepts].
    destruct (decide (fits_integer total)) as [Ht|Ht].
    + rewrite bool_decide_eq_true_2 by done.
      unfold bind, execute, send. cbn [store pending log accepts run_stmt schemas products
        next_product_id orders next_order_id order_items next_item_id].
      rewrite bool_decide_eq_false_2.
      * eexists. split; [done|]. cbn [log]. by rewrite <- app_assoc.
      * intros H. apply Hno. by split.
    + rewrite bool_decide_eq_false_2 by done. eexists. split; [done|]. done.
Qed.

Lemma create_order_placed user items st lg :
  items ≠ [] →
  Forall (λ o, id o < next_order_id st) (orders st) →
  Forall (λ i, order_id i < next_order_id st) (order_items st) →
  Forall (λ k, in_stock (products st) k (requested items k)) (request_ids items) →
  rows_fit user items st →
  create_order items user (mkSession st [] lg) =
  (Ok (placed_out user items st),
   mkSession (placed_db user items st) [] (lg ++ placed_log user items st)).
Proof.
  intros Hne Hos His Hstock ([Hu Ho] & Ht & Hrows & Hi1 & Hi2). unfold create_order.
  destruct items as [|it0 items0] eqn:Eitems; [done|]. rewrite <- Eitems in *.
  clear Eitems it0 items0.
  pose proof (combine_items_NoDup items) as Hnd.
  pose proof (combine_items_keys items) as Hkeys.
  pose proof (combined_in_stock _ _ Hstock) as Hcs.
  assert (Forall (λ k, is_Some (products st !! k)) (combine_items items).*1) as Hex.
  { rewrite Hkeys. eapply Forall_impl; [exact Hstock|].
    intros k (p & Hp & _). by exists p. }
  assert ((combine_items items).*1 ≠ []) as Hids.
  { rewrite Hkeys. by rewrite request_ids_nil. }
  assert (combine_items items ≠ []) as Hcne.
  { intros Hnil. apply Hids. by rewrite Hnil. }
  erewrite bind_ok; [|by apply fetch_prices_run].
  apply select_prices_size in Hex as Hsz; [|done].
  rewrite decide_False by (by intros ?).
  erewrite bind_ok; [|by apply reserve_stock_ok].
  erewrite bind_ok; [|by apply new_order_run].
  cbn [next_order_id set_products].
  set (combined := combine_items items) in *.
  set (prices := select_prices combined.*1 (products st)) in *.
  set (oid := next_order_id st) in *.
  assert (Forall (λ kv : Z * Z, is_Some (prices !! kv.1)) combined) as Hpr.
  { rewrite Forall_forall. intros kv Hkv.
    destruct (select_prices_full combined.*1 (products st) kv.1) as (p & _ & Hp);
      [done|done| |by eexists].
    apply list_elem_of_fmap. by exists kv. }
  erewrite bind_ok; [|by apply snapshot_items_run].
  rewrite Z.add_0_l. cbn [app].
  set (total := order_total prices combined) in *.
  unfold bind at 1. unfold session_add. cbn [store pending log].
  unfold run_stmt, set_products. cbn [schemas products next_product_id orders next_order_id
    order_items next_item_id]. fold oid.
  erewrite bind_ok.
  2:{ apply (second_flush_run oid user prices combined total
               (set_products (reserve_all combined (products st)) st)); done. }
  unfold bind at 1. unfold session_refresh, bind, execute, peek, send.
  cbn [store pending log run_stmt orders accepts set_products].
  rewrite (find_fresh oid (mkOrder oid user total)) by done.
  unfold ret, load_items, bind, execute, peek, send.
  cbn [store pending log run_stmt order_items id user_id total_cents accepts].
  unfold set_products. cbn [schemas products next_product_id orders next_order_id
    order_items next_item_id].
  rewrite filter_app, (filter_items_fresh _ _ His), filter_item_rows. cbn [app].
  unfold ret. cbv beta iota. rewrite item_rows_out.
  unfold placed_out, placed_db, placed_log.
  fold combined. fold prices. fold oid. fold total.
  rewrite <- !app_assoc. reflexivity.
Qed.

Lemma create_order_refused user items st lg :
  items ≠ [] →
  Forall (λ o, id o < next_order_id st) (orders st) →
  Forall (λ k, in_stock (products st) k (requested items k)) (request_ids items) →
  ¬ rows_fit user items st →
  ∃ s', create_order items user (mkSession st [] lg) = (Raise DataError, s')
        ∧ log s' = lg ++ refused_log user items st.
Proof.
  intros Hne Hos Hstock Hno. unfold create_order.
  destruct items as [|it0 items0] eqn:Eitems; [done|]. rewrite <- Eitems in *.
  clear Eitems it0 items0.
  pose proof (combine_items_NoDup items) as Hnd.
  pose proof (combine_items_keys items) as Hkeys.
  pose proof (combined_in_stock _ _ Hstock) as Hcs.
  assert (Forall (λ k, is_Some (products st !! k)) (combine_items items).*1) as Hex.
  { rewrite Hkeys. eapply Forall_impl; [exact Hstock|].
    intros k (p & Hp & _). by exists p. }
  assert ((combine_items items).*1 ≠ []) as Hids.
  { rewrite Hkeys. by rewrite request_ids_nil. }
  assert (combine_items items ≠ []) as Hcne.
  { intros Hnil. apply Hids. by rewrite Hnil. }
  erewrite bind_ok; [|by apply fetch_prices_run].
  apply select_prices_size in Hex as Hsz; [|done].
  rewrite decide_False by (by intros ?).
  erewrite bind_ok; [|by apply reserve_stock_ok].
  unfold rows_fit in Hno.
  destruct (decide (fits_string USER_ID_WIDTH user ∧ fits_integer (next_order_id st)))
    as [[Hu Ho]|Hbad].
  2:{ erewrite bind_raise; [|by apply new_order_refused].
      eexists. split; [done|]. cbn [log]. unfold refused_log. cbv zeta.
      rewrite decide_False by done. by rewrite <- !app_assoc. }
  erewrite bind_ok; [|by apply new_order_run].
  cbn [next_order_id set_products].
  set (combined := combine_items items) in *.
  set (prices := select_prices combined.*1 (products st)) in *.
  set (oid := next_order_id st) in *.
  assert (Forall (λ kv : Z * Z, is_Some (prices !! kv.1)) combined) as Hpr.
  { rewrite Forall_forall. intros kv Hkv.
    destruct (select_prices_full combined.*1 (products st) kv.1) as (p & _ & Hp);
      [done|done| |by eexists].
    apply list_elem_of_fmap. by exists kv. }
  erewrite bind_ok; [|by apply snapshot_items_run].
  rewrite Z.add_0_l. cbn [app].
  set (total := order_total prices combined) in *.
  unfold bind at 1. unfold session_add. cbn [store pending log].
  unfold run_stmt, set_products. cbn [schemas products next_product_id orders next_order_id
    order_items next_item_id]. fold oid.
  destruct (second_flush_refused oid user prices combined total
              (set_products (reserve_all combined (products st)) st)
              ((lg ++ [SelectPrices combined.*1]) ++ reserve_log combined ++ [InsertOrder user 0]))
    as (s' & Hs' & Hlog); [done|done| |].
  { intros (? & ? & ? & ?). apply Hno. done. }
  unfold set_products in Hs'. cbn [schemas products next_product_id orders next_order_id
    order_items next_item_id] in Hs'.
  erewrite bind_raise; [|rewrite <- app_assoc; exact Hs'].
  exists s'. split; [done|]. rewrite Hlog. unfold refused_log. cbv zeta.
  fold combined. fold prices. fold oid. fold total.
  rewrite (decide_True (P := fits_string USER_ID_WIDTH user ∧ fits_integer oid)) by done.
  by rewrite <- !app_assoc.
Qed.
End Placed.

(** ** The request [POST /orders], case by case *)

Section PostOrders.
Import Orders.

Lemma wf_orders_below db : db_wf db → Forall (λ o, id o < next_order_id db) (orders db).
Proof. by intros (_ & H & _). Qed.

Lemma wf_items_below db :
  db_wf db → Forall (λ i, order_id i < next_order_id db) (order_items db).
Proof.
  intros (_ & Hos & _ & Hfk). rewrite Forall_forall in Hos. rewrite Forall_forall in Hfk.
  rewrite Forall_forall. intros i Hi. specialize (Hfk i Hi). apply list_elem_of_fmap in Hfk as (o & -> & Ho).
  by apply Hos.
Qed.

Lemma post_orders_empty user db :
  post_orders user [] db
  = mkResponse (Raise ValidationError) db [CreateSchemaIfNotExists DB_SCHEMA].
Proof. reflexivity. Qed.

Lemma close_session_ok {A} db (a : A) st lg :
  close_session db (Ok a, mkSession st [] lg) = mkResponse (Ok a) st lg.
Proof. reflexivity. Qed.

Lemma close_session_raise {A} db e s' :
  close_session (A:=A) db (Raise e, s') = mkResponse (Raise e) db (log s').
Proof. reflexivity. Qed.

Lemma post_orders_placed user items db :
  db_wf db → items ≠ [] →
  Forall (λ k, in_stock (products db) k (requested items k)) (request_ids items) →
  rows_fit user items db →
  post_orders user items db
  = mkResponse (Ok (placed_out user items (store (opened db))))
               (placed_db user items (store (opened db)))
               (CreateSchemaIfNotExists DB_SCHEMA :: placed_log user items (store (opened db))).
Proof.
  intros Hwf Hne Hstock Hfit. unfold post_orders, get_session.
  fold (opened db). unfold opened at 1, send, SessionLocal. cbn [store pending log app].
  rewrite create_order_placed; [done|done|..].
  - by apply wf_orders_below.
  - by apply wf_items_below.
  - done.
  - exact Hfit.
Qed.

Lemma post_orders_refused user items db :
  db_wf db → items ≠ [] →
  Forall (λ k, in_stock (products db) k (requested items k)) (request_ids items) →
  ¬ rows_fit user items db →
  post_orders user items db
  = mkResponse (Raise DataError) db
      (CreateSchemaIfNotExists DB_SCHEMA :: refused_log user items (store (opened db))).
Proof.
  intros Hwf Hne Hstock Hfit. unfold post_orders, get_session.
  unfold opened, send, SessionLocal. cbn [store pending log app].
  destruct (create_order_refused user items (run_stmt (CreateSchemaIfNotExists DB_SCHEMA) db)
              [CreateSchemaIfNotExists DB_SCHEMA]) as (s' & -> & Hlog);
    [done| |done|exact Hfit|].
  { by apply wf_orders_below. }
  rewrite close_session_raise. by rewrite Hlog.
Qed.

Lemma post_orders_unknown user items db :
  items ≠ [] →
  ¬ Forall (λ k, is_Some (products db !! k)) (request_ids items) →
  post_orders user items db
  = mkResponse (Raise (UnknownProductError (missing_ids items (products db)))) db
      [CreateSchemaIfNotExists DB_SCHEMA; SelectPrices (request_ids items)].
Proof.
  intros Hne Hex. unfold post_orders, get_session, create_order.
  destruct items as [|it0 items0] eqn:Eitems; [done|]. rewrite <- Eitems in *.
  clear Eitems it0 items0.
  unfold opened, send, SessionLocal. cbn [store pending log app].
  assert ((combine_items items).*1 ≠ []) as Hids.
  { rewrite combine_items_keys. by rewrite request_ids_nil. }
  erewrite bind_ok; [|by apply fetch_prices_run].
  cbn [run_stmt products].
  rewrite decide_True.
  - unfold raise, missing_ids. by rewrite combine_items_keys.
  - intros Hsz. apply Hex. rewrite <- combine_items_keys.
    apply select_prices_size; [apply combine_items_NoDup|done].
Qed.

Lemma post_orders_short user items db l1 pid l2 :
  request_ids items = l1 ++ pid :: l2 →
  Forall (λ k, is_Some (products db !! k)) (request_ids items) →
  Forall (λ k, in_stock (products db) k (requested items k)) l1 →
  ¬ in_stock (products db) pid (requested items pid) →
  post_orders user items db
  = mkResponse (Raise (InsufficientStockError pid)) db
      ([CreateSchemaIfNotExists DB_SCHEMA; SelectPrices (request_ids items)]
       ++ map (λ k, UpdateStock k (requested items k)) (l1 ++ [pid])).
Proof.
  intros Hsplit Hex Hl1 Hshort. unfold post_orders, get_session, create_order.
  destruct items as [|it0 items0] eqn:Eitems; [by destruct l1|]. rewrite <- Eitems in *.
  clear Eitems it0 items0.
  unfold opened, send, SessionLocal. cbn [store pending log app].
  set (st0 := run_stmt (CreateSchemaIfNotExists DB_SCHEMA) db).
  assert ((combine_items items).*1 ≠ []) as Hids.
  { rewrite combine_items_keys, Hsplit. by destruct l1. }
  erewrite bind_ok; [|by apply fetch_prices_run].
  change (products st0) with (products db).
  rewrite decide_False.
  2:{ intros Hsz. apply Hsz. apply select_prices_size; [apply combine_items_NoDup|].
      by rewrite combine_items_keys. }
  pose proof (combine_items_NoDup items) as Hnd.
  set (f := λ k : Z, (k, requested items k)).
  assert (combine_items items = map f l1 ++ (pid, requested items pid) :: map f l2) as Hc.
  { by rewrite combine_items_spec, Hsplit, map_app. }
  rewrite Hc in Hnd.
  destruct (reserve_stock_short (map f l1) pid (requested items pid) (map f l2) st0
              ([CreateSchemaIfNotExists DB_SCHEMA] ++ [SelectPrices (combine_items items).*1]))
    as (s' & Hrun & Hlog); [exact Hnd| |exact Hshort|].
  { by apply Forall_fmap. }
  rewrite <- Hc in Hrun. erewrite bind_raise; [|exact Hrun].
  rewrite close_session_raise.
  rewrite Hlog. rewrite combine_items_keys. f_equal.
  rewrite <- app_assoc. cbn [app]. do 2 f_equal.
  unfold reserve_log. rewrite !map_app, !map_map. done.
Qed.
Lemma not_valid_nil : ¬ OrderCreate_valid [].
Proof. intros [H _]. cbn in H. lia. Qed.

(** A body that the schema refuses, from a caller with a user: the
    handler is not called. *)
Lemma post_orders_route_refused commits user items db :
  user ≠ "" → ¬ OrderCreate_valid items →
  post_orders_route commits (Some user) items db = body_refused commits db.
Proof.
  intros Hu Hv. unfold post_orders_route, require_user.
  by rewrite decide_False, decide_False.
Qed.

(** A body that the schema accepts, from a caller with a user: the route
    is the handler inside [get_session]. *)
Lemma post_orders_route_valid commits user items db :
  user ≠ "" → OrderCreate_valid items →
  post_orders_route commits (Some user) items db = post_orders user items db.
Proof.
  intros Hu Hv. unfold post_orders_route, require_user.
  by rewrite decide_False, decide_True.
Qed.

(** Whatever the route answers, the store afterwards is the store before,
    the store with the schema of the service, or the store after the
    handler. *)
Lemma post_orders_route_after commits x_user items db :
  db_after (post_orders_route commits x_user items db) = db
  ∨ db_after (post_orders_route commits x_user items db)
    = run_stmt (CreateSchemaIfNotExists DB_SCHEMA) db
  ∨ ∃ user, db_after (post_orders_route commits x_user items db)
            = db_after (post_orders user items db).
Proof.
  unfold post_orders_route. destruct (require_user x_user) as [u|e]; [|by left].
  case_decide; [right; right; by exists u|].
  unfold body_refused. cbn [db_after]. destruct commits; [right; by left|by left].
Qed.
End PostOrders.

Section PostOrdersCases.
Import Orders.

Lemma first_failure {A} (P : A → Prop) `{!∀ x, Decision (P x)} (l : list A) :
  ¬ Forall P l → ∃ l1 x l2, l = l1 ++ x :: l2 ∧ Forall P l1 ∧ ¬ P x.
Proof.
  induction l as [|x l IH]; intros Hno.
  - destruct Hno. constructor.
  - destruct (decide (P x)) as [Hx|Hx].
    + destruct IH as (l1 & y & l2 & -> & Hl1 & Hy).
      { intros Hall. apply Hno. by constructor. }
      exists (x :: l1), y, l2. split; [done|]. split; [by constructor|done].
    + exists [], x, l. split; [done|]. split; [constructor|done].
Qed.

Lemma not_in_stock_short ps pid q :
  is_Some (ps !! pid) → ¬ in_stock ps pid q ↔ short_of ps pid q.
Proof.
  intros [p Hp]. unfold in_stock, short_of. split.
  - intros Hno. exists p. split; [done|].
    destruct (decide (q <= stock p)); [|lia]. destruct Hno. by exists p.
  - intros (p' & Hp' & Hlt) (p'' & Hp'' & Hle). simplify_eq. lia.
Qed.

(** Every request ends in exactly one of five ways. *)
Lemma post_orders_cases user items db :
  db_wf db →
  (items = []
   ∧ post_orders user items db
     = mkResponse (Raise ValidationError) db [CreateSchemaIfNotExists DB_SCHEMA])
  ∨ (¬ Forall (λ k, is_Some (products db !! k)) (request_ids items)
     ∧ post_orders user items db
       = mkResponse (Raise (UnknownProductError (missing_ids items (products db)))) db
           [CreateSchemaIfNotExists DB_SCHEMA; SelectPrices (request_ids items)])
  ∨ (∃ l1 pid l2,
       request_ids items = l1 ++ pid :: l2
       ∧ Forall (λ k, is_Some (products db !! k)) (request_ids items)
       ∧ Forall (λ k, in_stock (products db) k (requested items k)) l1
       ∧ ¬ in_stock (products db) pid (requested items pid)
       ∧ post_orders user items db
         = mkResponse (Raise (InsufficientStockError pid)) db
             ([CreateSchemaIfNotExists DB_SCHEMA; SelectPrices (request_ids items)]
              ++ map (λ k, UpdateStock k (requested items k)) (l1 ++ [pid])))
  ∨ (items ≠ []
     ∧ Forall (λ k, in_stock (products db) k (requested items k)) (request_ids items)
     ∧ ¬ rows_fit user items db
     ∧ post_orders user items db
       = mkResponse (Raise DataError) db
           (CreateSchemaIfNotExists DB_SCHEMA :: refused_log user items (store (opened db))))
  ∨ (items ≠ []
     ∧ Forall (λ k, in_stock (products db) k (requested items k)) (request_ids items)
     ∧ rows_fit user items db
     ∧ post_orders user items db
       = mkResponse (Ok (placed_out user items (store (opened db))))
                    (placed_db user items (store (opened db)))
                    (CreateSchemaIfNotExists DB_SCHEMA
                     :: placed_log user items (store (opened db)))).
Proof.
  intros Hwf. destruct (decide (items = [])) as [->|Hne]; [by left|]. right.
  destruct (decide (Forall (λ k, is_Some (products db !! k)) (request_ids items)))
    as [Hex|Hex]; [right|left; split; [done|]; by apply post_orders_unknown].
  destruct (decide (Forall (λ k, in_stock (products db) k (requested items k))
                      (request_ids items))) as [Hall|Hno].
  - right. destruct (decide (rows_fit user items db)) as [Hfit|Hfit].
    + right. repeat (split; [done|]). by apply post_orders_placed.
    + left. repeat (split; [done|]). by apply post_orders_refused.
  - left. apply first_failure in Hno as (l1 & pid & l2 & Hsplit & Hl1 & Hpid); [|apply _].
    exists l1, pid, l2. repeat (split; [done|]).
    by apply (post_orders_short user items db l1 pid l2).
Qed.

(** A request fails and leaves the store as it was, or places its order. *)
Lemma post_orders_outcome user items db :
  db_wf db →
  (∃ e, result (post_orders user items db) = Raise e
        ∧ db_after (post_orders user items db) = db)
  ∨ (items ≠ []
     ∧ Forall (λ k, in_stock (products db) k (requested items k)) (request_ids items)
     ∧ rows_fit user items db
     ∧ post_orders user items db
       = mkResponse (Ok (placed_out user items (store (opened db))))
                    (placed_db user items (store (opened db)))
                    (CreateSchemaIfNotExists DB_SCHEMA
                     :: placed_log user items (store (opened db)))).
Proof.
  intros Hwf.
  destruct (post_orders_cases user items db Hwf)
    as [[_ ->]|[[_ ->]|[(l1 & pid & l2 & _ & _ & _ & _ & ->)|[(_ & _ & _ & ->)|H]]]];
    [left; by eexists..|by right].
Qed.
End PostOrdersCases.

(** ** Every handler of the orders service is traced *)

Section Traced.
Import Orders.

Lemma replay_app l1 l2 db : replay (l1 ++ l2) db = replay l2 (replay l1 db).
Proof. unfold replay. apply fold_left_app. Qed.

Lemma traced_ret {A} (a : A) : traced (ret a).
Proof.
  intros s r s' Hp [= <- <-]. exists []. by rewrite app_nil_r.
Qed.

Lemma traced_raise {A} e : traced (raise (A := A) e).
Proof.
  intros s r s' Hp [= <- <-]. exists []. by rewrite app_nil_r.
Qed.

Lemma traced_peek {A} (f : DB → A) : traced (peek f).
Proof.
  intros s r s' Hp [= <- <-]. exists []. by rewrite app_nil_r.
Qed.

Lemma traced_bind {A B} (m : M A) (k : A → M B) :
  traced m → (∀ a, traced (k a)) → traced (bind m k).
Proof.
  intros Hm Hk s r s' Hp. unfold bind.
  destruct (m s) as [[a|e] s1] eqn:Hms.
  - intros Hks. destruct (Hm _ _ _ Hp Hms) as (l1 & Hl1 & Hs1 & Hok1 & Hp1).
    destruct (Hk a _ _ _ Hp1 Hks) as (l2 & Hl2 & Hs2 & Hok2 & Hp2).
    exists (l1 ++ l2). rewrite Hl2, Hl1, app_assoc.
    split; [done|]. split; [|split; [by apply Forall_app|done]].
    intros Hr. rewrite (Hs2 Hr), (Hs1 I), replay_app. done.
  - intros [= <- <-]. destruct (Hm _ _ _ Hp Hms) as (l1 & Hl1 & Hs1 & Hok1 & Hp1).
    exists l1. split; [done|]. split; [by intros []|done].
Qed.

Lemma traced_execute st : orders_stmt st → traced (execute st).
Proof.
  intros Hst s r s' Hp. unfold execute.
  destruct (accepts st (store s)); intros [= <- <-]; exists [st]; cbn.
  - by repeat constructor.
  - split; [done|]. split; [by intros []|]. by repeat constructor.
Qed.

Lemma traced_session_add st : orders_stmt st → traced (session_add st).
Proof.
  intros Hst s r s' Hp [= <- <-]. exists []. cbn. rewrite app_nil_r.
  split; [done|]. split; [done|]. split; [constructor|].
  apply Forall_app. by repeat constructor.
Qed.

Lemma unit_of_work_orders_stmt objs db :
  Forall orders_stmt objs → Forall orders_stmt (unit_of_work objs db).
Proof.
  intros Hall. unfold unit_of_work. apply Forall_app. split.
  - rewrite Forall_forall in Hall. rewrite Forall_forall. intros x Hx.
    apply list_elem_of_filter in Hx as [_ Hx]. by apply Hall.
  - destruct (omap item_row objs); by repeat constructor.
Qed.

Lemma traced_send_all plan : Forall orders_stmt plan → traced (send_all plan).
Proof.
  induction 1 as [|st plan Hst _ IH]; [apply traced_ret|].
  cbn [send_all]. apply traced_bind; [by apply traced_execute|]. intros _. exact IH.
Qed.

Lemma traced_session_flush : traced session_flush.
Proof.
  intros s r s' Hp. unfold session_flush.
  destruct (send_all _ s) as [[[]|e] s1] eqn:Hrun; intros [= <- <-];
    destruct (traced_send_all _ (unit_of_work_orders_stmt _ (store s) Hp) _ _ _ Hp Hrun)
      as (l & Hl & Hs & Hok & Hp1); exists l; cbn [store log pending].
  - split; [done|]. split; [done|]. split; [done|constructor].
  - split; [done|]. split; [by intros []|done].
Qed.

Lemma traced_fetch_prices ids : traced (fetch_prices ids).
Proof.
  destruct ids; [apply traced_ret|]. unfold fetch_prices.
  apply traced_bind; [apply traced_peek|]. intros ps.
  apply traced_bind; [by apply traced_execute|]. intros _. apply traced_ret.
Qed.

Lemma traced_reserve_stock combined : traced (reserve_stock combined).
Proof.
  induction combined as [|[pid q] rest IH]; [apply traced_ret|].
  cbn [reserve_stock]. apply traced_bind.
  - unfold execute_update_stock. apply traced_bind; [apply traced_peek|]. intros ps.
    apply traced_bind; [by apply traced_execute|]. intros _. apply traced_ret.
  - intros rowcount. case_decide; [apply traced_raise|done].
Qed.

Lemma traced_new_order user : traced (new_order user).
Proof.
  unfold new_order. apply traced_bind; [apply traced_peek|]. intros oid.
  apply traced_bind; [by apply traced_session_add|]. intros _.
  apply traced_bind; [apply traced_session_flush|]. intros _. apply traced_ret.
Qed.

Lemma traced_snapshot_items oid prices combined total :
  traced (snapshot_items oid prices combined total).
Proof.
  revert total. induction combined as [|[pid q] rest IH]; intros total;
    [apply traced_ret|].
  cbn [snapshot_items]. destruct (prices !! pid) as [price|]; [|apply traced_raise].
  apply traced_bind; [by apply traced_session_add|]. intros _. apply IH.
Qed.

Lemma traced_session_refresh oid : traced (session_refresh oid).
Proof.
  unfold session_refresh. apply traced_bind; [by apply traced_execute|]. intros _.
  apply traced_bind; [apply traced_peek|]. intros os.
  destruct (List.find _ os); [apply traced_ret|apply traced_raise].
Qed.

Lemma traced_load_items oid : traced (load_items oid).
Proof.
  unfold load_items. apply traced_bind; [by apply traced_execute|]. intros _.
  apply traced_bind; [apply traced_peek|]. intros its. apply traced_ret.
Qed.

Lemma traced_create_order items user : traced (create_order items user).
Proof.
  unfold create_order. destruct items as [|it items]; [apply traced_raise|].
  apply traced_bind; [apply traced_fetch_prices|]. intros prices.
  case_decide; [apply traced_raise|].
  apply traced_bind; [apply traced_reserve_stock|]. intros _.
  apply traced_bind; [apply traced_new_order|]. intros oid.
  apply traced_bind; [apply traced_snapshot_items|]. intros total.
  apply traced_bind; [by apply traced_session_add|]. intros _.
  apply traced_bind; [apply traced_session_flush|]. intros _.
  apply traced_bind; [apply traced_session_refresh|]. intros order.
  apply traced_bind; [apply traced_load_items|]. intros its. apply traced_ret.
Qed.

(** [get_session] runs the handler and then the flush of the commit. *)
Lemma close_session_bind {A} (handler : M A) db s :
  close_session db (handler s)
  = match (let* a := handler in run session_flush in ret a) s with
    | (Ok a, s'') => mkResponse (Ok a) (store s'') (log s'')
    | (Raise e, s'') => mkResponse (Raise e) db (log s'')
    end.
Proof.
  unfold close_session, bind, ret. destruct (handler s) as [[a|e] s']; [|done].
  by destruct (session_flush s') as [[[]|e] s''].
Qed.

(** A request that fails leaves the store as it was. *)
Lemma close_session_raised {A} db (r : Result A * Session) e :
  result (close_session db r) = Raise e → db_after (close_session db r) = db.
Proof.
  unfold close_session. destruct r as [[a|e'] s']; [|done].
  by destruct (session_flush s') as [[[]|e''] s''].
Qed.

(** A request replays its statements on commit and leaves the store as
    it was on rollback. *)
Lemma get_session_traced {A} (handler : M A) db :
  traced handler →
  Forall orders_stmt (statements (get_session handler db))
  ∧ match result (get_session handler db) with
    | Ok _ => db_after (get_session handler db)
              = replay (statements (get_session handler db)) db
    | Raise _ => db_after (get_session handler db) = db
    end.
Proof.
  intros Hh. unfold get_session. rewrite close_session_bind.
  assert (traced (let* a := handler in run session_flush in ret a)) as Hall.
  { apply traced_bind; [done|]. intros a.
    apply traced_bind; [apply traced_session_flush|]. intros _. apply traced_ret. }
  destruct ((let* a := handler in run session_flush in ret a) _) as [[a|e] s'] eqn:Hrun.
  - destruct (λ H, Hall _ _ _ H Hrun) as (l & Hl & Hs & Hok & Hp); [constructor|].
    cbn [result db_after statements].
    rewrite Hl, (Hs I). cbn [log store send SessionLocal app].
    split.
    + by constructor.
    + change (CreateSchemaIfNotExists DB_SCHEMA :: l)
        with ([CreateSchemaIfNotExists DB_SCHEMA] ++ l).
      by rewrite !replay_app.
  - destruct (λ H, Hall _ _ _ H Hrun) as (l & Hl & Hs & Hok & Hp); [constructor|].
    cbn [result db_after statements]. rewrite Hl. cbn [log send SessionLocal app].
    split; [by constructor|done].
Qed.

Lemma orders_stmt_cases st :
  orders_stmt st → is_reservation st ∨ keeps_products st.
Proof.
  destruct st; cbn; try done; intros _;
    first [ left; by eexists _, _ | right; by intros db ].
Qed.

Lemma same_catalog_refl ps : same_catalog ps ps.
Proof. intros k. by destruct (ps !! k). Qed.

Lemma same_catalog_trans ps1 ps2 ps3 :
  same_catalog ps1 ps2 → same_catalog ps2 ps3 → same_catalog ps1 ps3.
Proof.
  intros H12 H23 k. specialize (H12 k). specialize (H23 k).
  destruct (ps1 !! k), (ps2 !! k), (ps3 !! k); try done.
  destruct H12, H23. split; congruence.
Qed.

Lemma same_catalog_update_stock pid q ps : same_catalog ps (update_stock pid q ps).
Proof.
  intros k. rewrite update_stock_lookup. destruct (ps !! k) as [p|]; [|done].
  cbn. by destruct (reserve_where pid q k p).
Qed.

Lemma stock_nonneg_update_stock pid q ps :
  stock_nonneg ps → stock_nonneg (update_stock pid q ps).
Proof.
  intros Hps k p'. rewrite update_stock_lookup.
  destruct (ps !! k) as [p|] eqn:Hk; [|done]. cbn. intros [= <-].
  specialize (Hps k p Hk). unfold reserve_where.
  destruct (bool_decide_reflect (k = pid)); cbn; [|done].
  destruct (bool_decide_reflect (stock p >= q)); cbn; [lia|done].
Qed.

Lemma orders_stmt_same_catalog st db :
  orders_stmt st → same_catalog (products db) (products (run_stmt st db)).
Proof.
  intros Hst. destruct (orders_stmt_cases st Hst) as [(pid & q & ->)|Hk].
  - apply same_catalog_update_stock.
  - rewrite Hk. apply same_catalog_refl.
Qed.

Lemma orders_stmt_stock_nonneg st db :
  orders_stmt st → stock_nonneg (products db) → stock_nonneg (products (run_stmt st db)).
Proof.
  intros Hst. destruct (orders_stmt_cases st Hst) as [(pid & q & ->)|Hk].
  - apply stock_nonneg_update_stock.
  - by rewrite Hk.
Qed.

Lemma replay_same_catalog l db :
  Forall orders_stmt l → same_catalog (products db) (products (replay l db)).
Proof.
  intros Hl. revert db. induction Hl as [|st l Hst _ IH]; intros db.
  - apply same_catalog_refl.
  - cbn. eapply same_catalog_trans; [by apply orders_stmt_same_catalog|apply IH].
Qed.

Lemma replay_stock_nonneg l db :
  Forall orders_stmt l → stock_nonneg (products db) → stock_nonneg (products (replay l db)).
Proof.
  intros Hl. revert db. induction Hl as [|st l Hst _ IH]; intros db Hdb; [done|].
  cbn. apply IH. by apply orders_stmt_stock_nonneg.
Qed.
End Traced.

(** ** The request [GET /orders/me] *)

Section Listing.
Import Orders.

Lemma orders_out_run os st pd lg :
  orders_out os (mkSession st pd lg) =
  (Ok (map (order_out (order_items st)) os),
   mkSession st pd (lg ++ map (λ o, SelectOrderItems (id o)) os)).
Proof.
  revert lg. induction os as [|o os IH]; intros lg.
  - cbn. by rewrite app_nil_r.
  - cbn [orders_out]. unfold load_items, execute, peek, ret, send, bind.
    cbn [store pending log run_stmt accepts]. rewrite IH.
    cbn [map]. rewrite <- app_assoc. done.
Qed.

Lemma list_my_orders_run user st pd lg :
  list_my_orders user (mkSession st pd lg) =
  (Ok (map (order_out (order_items st)) (listed user st)),
   mkSession st pd
     (lg ++ SelectOrdersOfUser user :: map (λ o, SelectOrderItems (id o)) (listed user st))).
Proof.
  unfold list_my_orders, select_orders_of_user, execute, peek, ret, send, bind.
  cbn [store pending log run_stmt accepts]. fold (listed user st).
  rewrite orders_out_run, <- app_assoc. done.
Qed.
End Listing.

Section ListingOrder.
Import Orders.

#[local] Instance id_desc_trans : Transitive id_desc.
Proof. intros a b c. unfold id_desc. lia. Qed.

#[local] Instance id_desc_total : Total id_desc.
Proof. intros a b. unfold id_desc. lia. Qed.

Lemma listed_perm user db : listed user db ≡ₚ filter (λ o, user_id o = user) (orders db).
Proof. unfold listed. apply merge_sort_Permutation. Qed.

Lemma elem_of_listed user db o : o ∈ listed user db ↔ o ∈ orders db ∧ user_id o = user.
Proof. rewrite listed_perm, list_elem_of_filter. naive_solver. Qed.

Lemma NoDup_ids_listed user db : NoDup (map id (orders db)) → NoDup (map id (listed user db)).
Proof.
  intros Hnd. rewrite listed_perm.
  induction (orders db) as [|o os IH]; [constructor|].
  cbn [map] in Hnd. apply NoDup_cons in Hnd as [Hnin Hnd].
  rewrite filter_cons. case_decide; [|by apply IH].
  cbn [map]. apply NoDup_cons. split; [|by apply IH].
  intros Hin. apply Hnin. apply list_elem_of_fmap in Hin as (o' & Hid & Ho').
  apply list_elem_of_filter in Ho' as [_ Ho']. apply list_elem_of_fmap. by exists o'.
Qed.

Lemma strictly_desc (l : list Order) :
  StronglySorted id_desc l → NoDup (map id l) → StronglySorted (λ a b, id b < id a) l.
Proof.
  induction 1 as [|o l Hl IH Ho]; intros Hnd; [constructor|].
  cbn [map] in Hnd. apply NoDup_cons in Hnd as [Hnin Hnd].
  constructor; [by apply IH|].
  rewrite Forall_forall in Ho |- *. intros o' Ho'. specialize (Ho o' Ho').
  unfold id_desc in Ho. assert (id o ≠ id o'); [|lia].
  intros Heq. apply Hnin. rewrite Heq. apply list_elem_of_fmap. by exists o'.
Qed.

Lemma listed_sorted user db :
  NoDup (map id (orders db)) → StronglySorted (λ a b, id b < id a) (listed user db).
Proof.
  intros Hnd. apply strictly_desc; [|by apply NoDup_ids_listed].
  unfold listed. apply StronglySorted_merge_sort; apply _.
Qed.

Lemma order_out_sorted its (l : list Order) :
  StronglySorted (λ a b, id b < id a) l → StronglySorted newer (map (order_out its) l).
Proof.
  induction 1 as [|o l Hl IH Ho]; [constructor|].
  cbn [map]. constructor; [done|]. by apply Forall_fmap.
Qed.
End ListingOrder.

(** ** Catalog requests *)

Section CatalogRuns.

Lemma catalog_run_list db : catalog_run ListProducts db = db.
Proof. reflexivity. Qed.

(** [create_product], as a response. *)
Lemma catalog_create_run payload db :
  Catalog.get_session (Catalog.create_product payload) db
  = if decide (payload_fits payload ∧ fits_integer (next_product_id db))
    then mkResponse (Ok (next_product_id db, product_of payload))
           (run_stmt (InsertProduct (pin_name payload) (pin_price_cents payload)
                        (pin_stock payload)) db)
           [InsertProduct (pin_name payload) (pin_price_cents payload) (pin_stock payload);
            SelectProduct (next_product_id db)]
    else mkResponse (Raise DataError) db
           [InsertProduct (pin_name payload) (pin_price_cents payload) (pin_stock payload)].
Proof.
  unfold Catalog.get_session, Catalog.create_product, SessionLocal.
  unfold bind at 1. unfold peek at 1. cbn [store].
  unfold bind at 1. unfold session_add at 1. cbn [store pending log app].
  destruct (decide (payload_fits payload ∧ fits_integer (next_product_id db)))
    as [[(Hn & Hpr & Hst) Hid]|Hno].
  - erewrite bind_ok.
    2:{ apply flush_one_run; [done|done|]. cbn [accepts]. by rewrite bool_decide_eq_true_2. }
    erewrite bind_ok; [|by apply session_get_run].
    cbn [run_stmt products]. rewrite lookup_insert_eq. reflexivity.
  - erewrite bind_raise.
    2:{ apply flush_one_refused; [done|done|]. cbn [accepts].
        rewrite bool_decide_eq_false_2; [done|]. intros (? & ? & ? & ?). apply Hno.
        unfold payload_fits. done. }
    reflexivity.
Qed.

(** [update_product], as a response. *)
Lemma catalog_update_run pid payload db :
  Catalog.get_session (Catalog.update_product pid payload) db
  = if decide (fits_integer pid)
    then match products db !! pid with
         | None => mkResponse (Raise (HTTPException 404 "not found")) db [SelectProduct pid]
         | Some p =>
             if decide (p = product_of payload)
             then mkResponse (Ok (pid, p)) db [SelectProduct pid; SelectProduct pid]
             else if decide (payload_fits payload)
             then mkResponse (Ok (pid, product_of payload))
                    (run_stmt (UpdateProduct pid (pin_name payload) (pin_price_cents payload)
                                 (pin_stock payload)) db)
                    [SelectProduct pid;
                     UpdateProduct pid (pin_name payload) (pin_price_cents payload)
                       (pin_stock payload);
                     SelectProduct pid]
             else mkResponse (Raise DataError) db
                    [SelectProduct pid;
                     UpdateProduct pid (pin_name payload) (pin_price_cents payload)
                       (pin_stock payload)]
         end
    else mkResponse (Raise DataError) db [SelectProduct pid].
Proof.
  unfold Catalog.get_session, Catalog.update_product, SessionLocal.
  destruct (decide (fits_integer pid)) as [Hpid|Hpid].
  2:{ erewrite bind_raise; [|by apply session_get_refused]. reflexivity. }
  erewrite bind_ok; [|by apply session_get_run].
  destruct (products db !! pid) as [p|] eqn:Hp; [|reflexivity].
  unfold bind at 1. unfold session_add at 1. cbn [store pending log app].
  destruct (decide (p = product_of payload)) as [Heq|Hne].
  - erewrite bind_ok.
    2:{ apply flush_one_unchanged; [|done]. cbn [changes_row]. rewrite Hp.
        apply bool_decide_eq_false_2. intros Hx. by apply Hx. }
    erewrite bind_ok; [|by apply session_get_run]. rewrite Hp. reflexivity.
  - assert (changes_row db (UpdateProduct pid (pin_name payload) (pin_price_cents payload)
                              (pin_stock payload)) = true) as Hch.
    { cbn [changes_row]. rewrite Hp. by apply bool_decide_eq_true_2. }
    destruct (decide (payload_fits payload)) as [Hfit|Hfit].
    + erewrite bind_ok.
      2:{ apply flush_one_run; [done|done|]. cbn [accepts]. by rewrite bool_decide_eq_true_2. }
      erewrite bind_ok; [|by apply session_get_run].
      cbn [run_stmt products]. rewrite lookup_alter_eq, Hp. reflexivity.
    + erewrite bind_raise.
      2:{ apply flush_one_refused; [done|done|]. cbn [accepts].
          by rewrite bool_decide_eq_false_2. }
      reflexivity.
Qed.

(** [delete_product], as a response. *)
Lemma catalog_delete_run pid db :
  Catalog.get_session (Catalog.delete_product pid) db
  = if decide (fits_integer pid)
    then match products db !! pid with
         | None => mkResponse (Raise (HTTPException 404 "not found")) db [SelectProduct pid]
         | Some _ => mkResponse (Ok tt) (run_stmt (DeleteProduct pid) db)
                       [SelectProduct pid; DeleteProduct pid]
         end
    else mkResponse (Raise DataError) db [SelectProduct pid].
Proof.
  unfold Catalog.get_session, Catalog.delete_product, SessionLocal.
  destruct (decide (fits_integer pid)) as [Hpid|Hpid].
  2:{ erewrite bind_raise; [|by apply session_get_refused]. reflexivity. }
  erewrite bind_ok; [|by apply session_get_run].
  destruct (products db !! pid) as [p|] eqn:Hp; [|reflexivity].
  unfold session_add, close_session. cbn [store pending log app].
  rewrite flush_one_run; [reflexivity|done|done|].
  cbn [accepts]. by rewrite bool_decide_eq_true_2.
Qed.

(** [get_product], as a response. *)
Lemma catalog_get_run pid db :
  Catalog.get_session (Catalog.get_product pid) db
  = if decide (fits_integer pid)
    then match products db !! pid with
         | None => mkResponse (Raise (HTTPException 404 "not found")) db [SelectProduct pid]
         | Some p => mkResponse (Ok (pid, p)) db [SelectProduct pid]
         end
    else mkResponse (Raise DataError) db [SelectProduct pid].
Proof.
  unfold Catalog.get_session, Catalog.get_product, SessionLocal.
  destruct (decide (fits_integer pid)) as [Hpid|Hpid].
  2:{ erewrite bind_raise; [|by apply session_get_refused]. reflexivity. }
  erewrite bind_ok; [|by apply session_get_run].
  by destruct (products db !! pid) as [p|] eqn:Hp.
Qed.

Lemma update_same pid payload db p :
  products db !! pid = Some p → p = product_of payload →
  run_stmt (UpdateProduct pid (pin_name payload) (pin_price_cents payload)
              (pin_stock payload)) db = db.
Proof.
  intros Hp ->. destruct db as [sc ps np os no its ni]. cbn in *. f_equal.
  apply map_eq. intros k. rewrite lookup_alter. case_decide; [subst k|done].
  by rewrite Hp.
Qed.

(** The store after a catalog request: the statement of the request, or
    the store as it was. *)
Lemma catalog_run_create payload db :
  catalog_run (CreateProduct payload) db
  = if decide (payload_fits payload ∧ fits_integer (next_product_id db))
    then run_stmt (InsertProduct (pin_name payload) (pin_price_cents payload)
                     (pin_stock payload)) db
    else db.
Proof. unfold catalog_run. rewrite catalog_create_run. by case_decide. Qed.

Lemma catalog_run_put pid payload db :
  catalog_run (PutProduct pid payload) db
  = match products db !! pid with
    | Some _ =>
        if decide (fits_integer pid ∧ payload_fits payload)
        then run_stmt (UpdateProduct pid (pin_name payload) (pin_price_cents payload)
                         (pin_stock payload)) db
        else db
    | None => db
    end
  ∨ catalog_run (PutProduct pid payload) db = db.
Proof.
  unfold catalog_run. rewrite catalog_update_run.
  destruct (decide (fits_integer pid)) as [Hpid|Hpid]; [|by right].
  destruct (products db !! pid) as [p|] eqn:Hp; [|by right].
  destruct (decide (p = product_of payload)) as [Heq|Hne]; [by right|].
  left. destruct (decide (payload_fits payload)) as [Hfit|Hfit].
  - by rewrite decide_True.
  - rewrite decide_False; [done|]. by intros [_ ?].
Qed.

Lemma catalog_run_remove pid db :
  catalog_run (RemoveProduct pid) db
  = match products db !! pid with
    | Some _ => if decide (fits_integer pid) then run_stmt (DeleteProduct pid) db else db
    | None => db
    end.
Proof.
  unfold catalog_run. rewrite catalog_delete_run.
  destruct (decide (fits_integer pid)); by destruct (products db !! pid).
Qed.

(** A catalog request leaves the order tables and their sequences as
    they are. *)
Lemma catalog_run_orders op db :
  orders (catalog_run op db) = orders db
  ∧ order_items (catalog_run op db) = order_items db
  ∧ next_order_id (catalog_run op db) = next_order_id db
  ∧ next_item_id (catalog_run op db) = next_item_id db.
Proof.
  destruct op.
  - by rewrite catalog_run_list.
  - rewrite catalog_run_create. by case_decide.
  - destruct (catalog_run_put pid payload db) as [->| ->]; [|done].
    destruct (products db !! pid); [|done]. by case_decide.
  - rewrite catalog_run_remove. destruct (products db !! pid); [|done]. by case_decide.
Qed.
End CatalogRuns.

(** ** Invariants of the reachable stores *)

Section Invariants.
Import Orders.

Lemma same_catalog_keys ps ps' k :
  same_catalog ps ps' → is_Some (ps' !! k) → is_Some (ps !! k).
Proof.
  intros Hs [p' Hp']. specialize (Hs k). rewrite Hp' in Hs.
  destruct (ps !! k); [by eexists|done].
Qed.

Lemma same_catalog_reserve_all combined ps : same_catalog ps (reserve_all combined ps).
Proof.
  revert ps. induction combined as [|[k q] rest IH]; intros ps.
  - apply same_catalog_refl.
  - cbn. eapply same_catalog_trans; [apply same_catalog_update_stock|apply IH].
Qed.

Lemma wf_products_same db ps n :
  map_Forall (λ k _, k < n) (products db) → same_catalog (products db) ps →
  map_Forall (λ (k : Z) (_ : Product), k < n) ps.
Proof.
  intros Hwf Hs k p' Hk.
  destruct (same_catalog_keys _ _ k Hs) as [p Hp]; [by eexists|].
  by apply (Hwf k p).
Qed.

Lemma item_rows_order_id first oid prices combined :
  Forall (λ i, order_id i = oid) (item_rows first oid prices combined).
Proof.
  revert first. induction combined as [|kv rest IH]; intros first; [constructor|].
  cbn [item_rows]. by constructor.
Qed.

Lemma wf_create_schema n db : db_wf db → db_wf (run_stmt (CreateSchemaIfNotExists n) db).
Proof. done. Qed.

Lemma wf_update_stock pid q db : db_wf db → db_wf (run_stmt (UpdateStock pid q) db).
Proof.
  intros (Hp & Ho & Hnd & Hfk). split; [|done]. cbn.
  eapply wf_products_same; [exact Hp|]. apply same_catalog_update_stock.
Qed.

Lemma wf_placed user items db : db_wf db → db_wf (placed_db user items (store (opened db))).
Proof.
  intros (Hp & Ho & Hnd & Hfk). unfold placed_db, opened, send, SessionLocal, db_wf.
  cbn [store run_stmt schemas products next_product_id orders next_order_id order_items
       next_item_id].
  split; [|split; [|split]].
  - eapply wf_products_same; [exact Hp|]. apply same_catalog_reserve_all.
  - apply Forall_app. split.
    + eapply Forall_impl; [exact Ho|]. cbn. intros; lia.
    + repeat constructor. cbn. lia.
  - rewrite map_app. apply NoDup_app. split; [done|]. split; [|apply NoDup_singleton].
    intros x Hx Hx'. cbn in Hx'. apply list_elem_of_singleton in Hx'. subst x.
    apply list_elem_of_fmap in Hx as (o & Hid & Hin).
    rewrite Forall_forall in Ho. specialize (Ho o Hin). lia.
  - rewrite map_app. apply Forall_app. split.
    + eapply Forall_impl; [exact Hfk|]. cbn. intros i Hi. apply elem_of_app. by left.
    + eapply Forall_impl; [apply item_rows_order_id|]. cbn. intros i ->.
      apply elem_of_app. right. apply list_elem_of_here.
Qed.

Lemma wf_post_orders user items db :
  db_wf db → db_wf (db_after (post_orders user items db)).
Proof.
  intros Hwf.
  destruct (post_orders_outcome user items db Hwf) as [(e & _ & ->)|(_ & _ & _ & ->)];
    [done|by apply wf_placed].
Qed.

Lemma get_orders_me_run user db :
  get_orders_me user db
  = mkResponse (Ok (map (order_out (order_items db)) (listed user db)))
      (run_stmt (CreateSchemaIfNotExists DB_SCHEMA) db)
      (CreateSchemaIfNotExists DB_SCHEMA :: SelectOrdersOfUser user
       :: map (λ o, SelectOrderItems (id o)) (listed user db)).
Proof.
  unfold get_orders_me, get_session, send, SessionLocal. cbn [store pending log app].
  rewrite list_my_orders_run. reflexivity.
Qed.

Lemma wf_catalog_run op db : db_wf db → db_wf (catalog_run op db).
Proof.
  intros Hwf. pose proof Hwf as (Hp & Ho & Hnd & Hfk). destruct op.
  - by rewrite catalog_run_list.
  - rewrite catalog_run_create. case_decide; [|done]. split; [|done]. cbn.
    apply map_Forall_insert_2; [lia|].
    eapply map_Forall_impl; [exact Hp|]. cbn. intros; lia.
  - destruct (catalog_run_put pid payload db) as [->| ->]; [|done].
    destruct (products db !! pid) eqn:Hpid; [|done]. case_decide; [|done].
    split; [|done]. cbn. intros k p'. rewrite lookup_alter.
    case_decide; [subst k|].
    + rewrite Hpid. intros _. by apply (Hp pid p).
    + apply Hp.
  - rewrite catalog_run_remove. destruct (products db !! pid) eqn:Hpid; [|done].
    case_decide; [|done]. split; [|done]. cbn. by apply map_Forall_delete.
Qed.

Lemma wf_step db db' : step db db' → db_wf db → db_wf db'.
Proof.
  destruct 1 as [op db Hop|user items db|user db|pid q db|np no ni db Hnp Hno Hni];
    intros Hwf.
  - by apply wf_catalog_run.
  - by apply wf_post_orders.
  - by rewrite get_orders_me_run.
  - by apply wf_update_stock.
  - destruct Hwf as (Hp & Ho & Hnd & Hfk). split; [|split; [|done]]; cbn.
    + eapply map_Forall_impl; [exact Hp|]. cbn. intros; lia.
    + eapply Forall_impl; [exact Ho|]. cbn. intros; lia.
Qed.

Lemma nonneg_post_orders user items db :
  stock_nonneg (products db) → stock_nonneg (products (db_after (post_orders user items db))).
Proof.
  intros Hnn. destruct (get_session_traced (create_order items user) db) as [Hok Hdb].
  { apply traced_create_order. }
  fold (post_orders user items db) in Hok, Hdb.
  destruct (result (post_orders user items db)); rewrite Hdb; [|done].
  by apply replay_stock_nonneg.
Qed.

Lemma nonneg_catalog_run op db :
  catalog_op_valid op → stock_nonneg (products db) →
  stock_nonneg (products (catalog_run op db)).
Proof.
  intros Hv Hnn. destruct op; cbn in Hv.
  - by rewrite catalog_run_list.
  - rewrite catalog_run_create. case_decide; [|done].
    cbn. intros k p. rewrite lookup_insert.
    case_decide; [|apply Hnn]. intros [= <-]. cbn. apply Hv.
  - destruct (catalog_run_put pid payload db) as [->| ->]; [|done].
    destruct (products db !! pid) eqn:Hpid; [|done]. case_decide; [|done].
    cbn. intros k p'. rewrite lookup_alter. case_decide; [subst k|apply Hnn].
    rewrite Hpid. intros [= <-]. cbn. apply Hv.
  - rewrite catalog_run_remove. destruct (products db !! pid) eqn:Hpid; [|done].
    case_decide; [|done].
    cbn. intros k p'. rewrite lookup_delete. case_decide; [done|apply Hnn].
Qed.

Lemma nonneg_step db db' :
  step db db' → stock_nonneg (products db) → stock_nonneg (products db').
Proof.
  destruct 1 as [op db Hop|user items db|user db|pid q db|np no ni db Hnp Hno Hni];
    intros Hnn.
  - by apply nonneg_catalog_run.
  - by apply nonneg_post_orders.
  - by rewrite get_orders_me_run.
  - by apply stock_nonneg_update_stock.
  - done.
Qed.

Lemma reachable_inv db : reachable db → db_wf db ∧ stock_nonneg (products db).
Proof.
  unfold reachable. revert db.
  apply (rtc_ind_r (λ db, db_wf db ∧ stock_nonneg (products db))).
  2:{ intros mid db Hmid Hlast [Hwf Hnn]. split.
      - by eapply wf_step.
      - by eapply nonneg_step. }
  - split.
    + apply (bool_decide_unpack _). vm_compute. exact I.
    + intros k p Hk. cbn in Hk. by rewrite lookup_empty in Hk.
Qed.
End Invariants.

(** ** Requests that pass the schema *)

Section Schema.

Lemma requested_nonneg items k :
  Forall OrderItemIn_valid items → 0 <= requested items k.
Proof.
  induction 1 as [|it items [_ Hq] _ IH]; cbn [requested]; [done|].
  case_decide; lia.
Qed.

Lemma requested_positive items k :
  Forall OrderItemIn_valid items → k ∈ map in_product_id items → 1 <= requested items k.
Proof.
  induction 1 as [|it items [Hp Hq] Hall IH]; cbn [requested map]; intros Hk.
  - by apply elem_of_nil in Hk.
  - pose proof (requested_nonneg items k Hall). case_decide; [lia|].
    apply elem_of_cons in Hk as [->|Hk]; [done|]. specialize (IH Hk). lia.
Qed.

(** A body that passes [OrderCreate] is not empty, and every merged entry
    has a product ID and a quantity of at least one. *)
Lemma valid_request_merged items :
  OrderCreate_valid items →
  items ≠ [] ∧ Forall (λ kv, 1 <= kv.1 ∧ 1 <= kv.2) (Orders.combine_items items).
Proof.
  intros [Hlen Hall]. split; [destruct items; [cbn in Hlen; lia|done]|].
  rewrite combine_items_spec. apply Forall_fmap, Forall_forall. intros k Hk. cbn.
  unfold request_ids in Hk. rewrite elem_of_distinct in Hk.
  split; [|by apply requested_positive].
  apply list_elem_of_fmap in Hk as (it & -> & Hit).
  rewrite Forall_forall in Hall. by destruct (Hall it Hit).
Qed.

(** The example shop is reachable: two products created through the
    catalog. *)
Lemma shop_reachable : reachable shop.
Proof.
  unfold reachable.
  eapply rtc_l; [apply (step_catalog (CreateProduct (mkProductIn "tea" 250 10)))|].
  { cbn. unfold ProductIn_valid. cbn. lia. }
  eapply rtc_l; [apply (step_catalog (CreateProduct (mkProductIn "mug" 900 3)))|].
  { cbn. unfold ProductIn_valid. cbn. lia. }
  replace (catalog_run _ (catalog_run _ initial_db)) with shop; [apply rtc_refl|].
  vm_compute. reflexivity.
Qed.
End Schema.

(** * The claims *)

Section Claims.
Import Orders.

Lemma elem_of_request_ids items k : k ∈ request_ids items ↔ k ∈ map in_product_id items.
Proof. apply elem_of_distinct. Qed.

Lemma Forall_request_ids (P : Z → Prop) items :
  Forall (λ it, P (in_product_id it)) items ↔ Forall P (request_ids items).
Proof.
  rewrite !Forall_forall. split.
  - intros H k Hk. apply elem_of_request_ids, list_elem_of_fmap in Hk as (it & -> & Hit).
    by apply H.
  - intros H it Hit. apply H, elem_of_request_ids, list_elem_of_fmap. by exists it.
Qed.

Lemma lines_total_items_out prices combined :
  lines_total (items_out prices combined) = order_total prices combined.
Proof.
  induction combined as [|kv rest IH]; [done|].
  cbn [items_out map lines_total foldr order_total out_qty out_price_cents].
  fold (items_out prices rest). fold (lines_total (items_out prices rest)).
  fold (order_total prices rest). rewrite IH. lia.
Qed.

Lemma order_total_catalog items ps :
  order_total (select_prices (request_ids items) ps)
    (map (λ k, (k, requested items k)) (request_ids items))
  = catalog_total ps items.
Proof.
  unfold catalog_total, order_total.
  assert (∀ k, k ∈ request_ids items →
               price_of (select_prices (request_ids items) ps) k = price_at ps k) as Hprice.
  { intros k Hk. unfold price_of, price_at.
    by rewrite select_prices_lookup, decide_True. }
  revert Hprice. generalize (select_prices (request_ids items) ps).
  induction (request_ids items) as [|k ids IH]; intros prices Hprice; [done|].
  cbn [map foldr fst snd]. rewrite Hprice by apply list_elem_of_here.
  rewrite IH; [lia|]. intros k' Hk'. apply Hprice. by apply list_elem_of_further.
Qed.

(** The store takes the rows of an order exactly when it takes every
    statement that [create_order] sends for them. *)
Lemma order_fits_rows db user items : order_fits db user items ↔ rows_fit user items db.
Proof.
  unfold order_fits, rows_fit. cbv zeta.
  rewrite new_rows_length, combine_items_keys.
  assert (length (combine_items items) = length (request_ids items)) as ->.
  { by rewrite combine_items_spec, length_map. }
  assert (order_total (select_prices (request_ids items) (products db)) (combine_items items)
          = catalog_total (products db) items) as ->.
  { rewrite combine_items_spec. apply order_total_catalog. }
  assert (fits_integer (next_order_id db) →
          Forall row_fits (new_rows (next_order_id db)
                             (select_prices (request_ids items) (products db))
                             (combine_items items))
          ↔ Forall (λ k, fits_integer k ∧ fits_integer (requested items k)
                         ∧ fits_integer (price_at (products db) k)) (request_ids items))
    as Hrows.
  { intros Ho. rewrite combine_items_spec. unfold new_rows. rewrite map_map.
    rewrite Forall_fmap. rewrite !Forall_forall.
    assert (∀ k, k ∈ request_ids items →
                 price_of (select_prices (request_ids items) (products db)) k
                 = price_at (products db) k) as Hprice.
    { intros k Hk. unfold price_of, price_at. by rewrite select_prices_lookup, decide_True. }
    split.
    - intros H k Hk. specialize (H k Hk). unfold row_fits in H. cbn in H.
      rewrite (Hprice k Hk) in H. tauto.
    - intros H k Hk. specialize (H k Hk). unfold row_fits. cbn.
      rewrite (Hprice k Hk). tauto. }
  split.
  - intros (Hu & Ho & Ht & Hr & Hi1 & Hi2). rewrite (Hrows Ho). done.
  - intros ([Hu Ho] & Ht & Hr & Hi1 & Hi2). rewrite (Hrows Ho) in Hr. done.
Qed.

(** C1, as the code has it. For every non-empty request whose products
    all exist and hold at least the quantity the request asks of them in
    total, and whose rows the store takes (the user fits [String(100)],
    the total, the product IDs, the merged quantities, the prices and the
    generated keys fit a 32-bit [Integer]), [create_order] succeeds; every
    requested product's stock goes down by exactly that total quantity
    (and no other product changes); the returned [total_cents] is the sum
    over the distinct products of quantity times the catalog price at the
    time of the call, and it equals the sum of [qty * price_cents] over
    the returned items; the order row and its item rows are stored with
    the same values. This is the answer of the handler inside
    [get_session], and of the route for a caller with a user and a body
    that passes the schema. *)
Theorem create_order_success (db : DB) (user : string) (items : list OrderItemIn) :
  db_wf db →
  items ≠ [] →
  Forall (λ it, in_stock (products db) (in_product_id it)
                  (requested items (in_product_id it))) items →
  order_fits db user items →
  ∃ out : OrderOut,
    result (post_orders user items db) = Ok out
    ∧ (∀ pid p, pid ∈ map in_product_id items → products db !! pid = Some p →
         products (db_after (post_orders user items db)) !! pid
         = Some (mkProduct (name p) (price_cents p) (stock p - requested items pid)))
    ∧ (∀ pid, pid ∉ map in_product_id items →
         products (db_after (post_orders user items db)) !! pid = products db !! pid)
    ∧ out_total_cents out = catalog_total (products db) items
    ∧ out_total_cents out = lines_total (out_items out)
    ∧ orders (db_after (post_orders user items db))
      = orders db ++ [mkOrder (out_id out) user (out_total_cents out)]
    ∧ map item_out (filter (λ i, order_id i = out_id out)
                      (order_items (db_after (post_orders user items db))))
      = out_items out
    ∧ (∀ commits, user ≠ "" → OrderCreate_valid items →
         post_orders_route commits (Some user) items db = post_orders user items db).
Proof.
  intros Hwf Hne Hstock Hfit. apply order_fits_rows in Hfit.
  apply (Forall_request_ids (λ k, in_stock (products db) k (requested items k))) in Hstock.
  rewrite (post_orders_placed user items db Hwf Hne Hstock Hfit).
  eexists. split; [reflexivity|].
  cbn [db_after placed_db placed_out opened send SessionLocal store run_stmt products
       orders order_items next_order_id next_item_id out_total_cents out_items out_id].
  split; [|split; [|split; [|split; [|split; [|split]]]]].
  7:{ intros commits Hu Hv. rewrite (post_orders_route_valid commits user items db Hu Hv).
      by apply post_orders_placed. }
  - intros pid p Hpid Hp. rewrite Forall_forall in Hstock.
    apply elem_of_request_ids in Hpid.
    destruct (Hstock pid Hpid) as (p' & Hp' & Hle). simplify_eq.
    apply (reserve_all_lookup_in _ _ pid (requested items pid) p);
      [apply combine_items_NoDup| |done|done].
    rewrite combine_items_spec. apply list_elem_of_fmap. by exists pid.
  - intros pid Hpid. apply reserve_all_lookup_notin.
    by rewrite combine_items_keys, elem_of_request_ids.
  - rewrite combine_items_keys, combine_items_spec. apply order_total_catalog.
  - by rewrite lines_total_items_out.
  - done.
  - rewrite filter_app, (filter_items_fresh _ _ (wf_items_below db Hwf)).
    cbn [app]. by rewrite filter_item_rows, item_rows_out.
Qed.

Lemma create_order_success_witness :
  ∃ out : OrderOut,
    result (post_orders "ann" [mkItemIn 1 2; mkItemIn 2 1; mkItemIn 1 3] shop) = Ok out
    ∧ out_total_cents out = 2150.
Proof.
  destruct (create_order_success shop "ann" [mkItemIn 1 2; mkItemIn 2 1; mkItemIn 1 3])
    as (out & Hres & _ & _ & Htot & _).
  - apply (bool_decide_unpack _). vm_compute. exact I.
  - discriminate.
  - apply (bool_decide_unpack _). vm_compute. exact I.
  - apply (bool_decide_unpack _). vm_compute. exact I.
  - exists out. split; [exact Hres|]. rewrite Htot. vm_compute. reflexivity.
Defined.

(** C1 as the specification has it fails. In a reachable store the product
    3 costs 1500000000 and has 10 units; the request for two of them is
    non-empty, passes the schema, and its product exists with enough
    stock; the total 3000000000 does not fit [orders.total_cents], the
    flush is refused, and the request ends in [DataError] with the stock
    as it was and no order stored. A user of 101 characters ends the same
    way. *)
Lemma create_order_claim_fails :
  reachable pricey_shop
  ∧ db_wf pricey_shop
  ∧ OrderCreate_valid [mkItemIn 3 2]
  ∧ Forall (λ it, in_stock (products pricey_shop) (in_product_id it)
                    (requested [mkItemIn 3 2] (in_product_id it))) [mkItemIn 3 2]
  ∧ result (post_orders "ann" [mkItemIn 3 2] pricey_shop) = Raise DataError
  ∧ (∀ out, result (post_orders "ann" [mkItemIn 3 2] pricey_shop) ≠ Ok out)
  ∧ products (db_after (post_orders "ann" [mkItemIn 3 2] pricey_shop)) !! 3 = Some gem
  ∧ orders (db_after (post_orders "ann" [mkItemIn 3 2] pricey_shop)) = []
  ∧ String.length
      "aaaaaaaaaaaaaaaaaaaaaaaaaaaaaaaaaaaaaaaaaaaaaaaaaaaaaaaaaaaaaaaaaaaaaaaaaaaaaaaaaaaaaaaaaaaaaaaaaaaaa"
    = 101%nat
  ∧ result
      (post_orders
         "aaaaaaaaaaaaaaaaaaaaaaaaaaaaaaaaaaaaaaaaaaaaaaaaaaaaaaaaaaaaaaaaaaaaaaaaaaaaaaaaaaaaaaaaaaaaaaaaaaaaa"
         [mkItemIn 1 1] pricey_shop)
    = Raise DataError.
Proof.
  split; [|split; [|split; [|split; [|split; [|split; [|split; [|split; [|split]]]]]]]].
  - unfold reachable.
    eapply rtc_l; [apply (step_catalog (CreateProduct (mkProductIn "tea" 250 10)))|].
    { cbn. unfold ProductIn_valid. cbn. lia. }
    eapply rtc_l; [apply (step_catalog (CreateProduct (mkProductIn "mug" 900 3)))|].
    { cbn. unfold ProductIn_valid. cbn. lia. }
    eapply rtc_l; [apply (step_catalog (CreateProduct (mkProductIn "gem" 1500000000 10)))|].
    { cbn. unfold ProductIn_valid. cbn. lia. }
    replace (catalog_run _ (catalog_run _ (catalog_run _ initial_db))) with pricey_shop;
      [apply rtc_refl|].
    vm_compute. reflexivity.
  - apply (bool_decide_unpack _). vm_compute. exact I.
  - apply (bool_decide_unpack _). vm_compute. exact I.
  - apply (bool_decide_unpack _). vm_compute. exact I.
  - vm_compute. reflexivity.
  - intros out. vm_compute. discriminate.
  - vm_compute. reflexivity.
  - vm_compute. reflexivity.
  - vm_compute. reflexivity.
  - vm_compute. reflexivity.
Qed.

Lemma InsufficientStockError_inj pid pid' :
  InsufficientStockError pid = InsufficientStockError pid' → pid = pid'.
Proof.
  unfold InsufficientStockError, repr_int. intros [= Heq].
  change (pretty pid = pretty pid') in Heq. by apply pretty_Z_inj in Heq.
Qed.

Lemma exists_request_ids items db :
  Forall (λ it, is_Some (products db !! in_product_id it)) items →
  Forall (λ k, is_Some (products db !! k)) (request_ids items).
Proof. apply (Forall_request_ids (λ k, is_Some (products db !! k))). Qed.

(** C2, as the code has it. For every request whose products all exist
    and in which some product is asked for more than its stock,
    [create_order] fails with [InsufficientStockError] naming a product
    that is short, the first such in first-occurrence order; the
    conditional updates of the products before it were sent and had
    succeeded, and after the failure the store is what it was before the
    request: no decrement survives. *)
Theorem insufficient_stock_rolls_back (db : DB) (user : string) (items : list OrderItemIn) :
  Forall (λ it, is_Some (products db !! in_product_id it)) items →
  Exists (λ it, short_of (products db) (in_product_id it)
                  (requested items (in_product_id it))) items →
  ∃ l1 pid l2,
    request_ids items = l1 ++ pid :: l2
    ∧ Forall (λ k, in_stock (products db) k (requested items k)) l1
    ∧ short_of (products db) pid (requested items pid)
    ∧ result (post_orders user items db) = Raise (InsufficientStockError pid)
    ∧ statements (post_orders user items db)
      = [CreateSchemaIfNotExists DB_SCHEMA; SelectPrices (request_ids items)]
        ++ map (λ k, UpdateStock k (requested items k)) (l1 ++ [pid])
    ∧ db_after (post_orders user items db) = db.
Proof.
  intros Hex Hshort. apply exists_request_ids in Hex.
  assert (¬ Forall (λ k, in_stock (products db) k (requested items k)) (request_ids items))
    as Hno.
  { intros Hall. apply Exists_exists in Hshort as (it & Hit & p & Hp & Hlt).
    rewrite Forall_forall in Hall.
    destruct (Hall (in_product_id it)) as (p' & Hp' & Hle).
    - apply elem_of_request_ids, list_elem_of_fmap. by exists it.
    - simplify_eq. lia. }
  apply first_failure in Hno as (l1 & pid & l2 & Hsplit & Hl1 & Hpid); [|apply _].
  exists l1, pid, l2.
  rewrite (post_orders_short user items db l1 pid l2 Hsplit Hex Hl1 Hpid).
  repeat split; try done.
  apply not_in_stock_short; [|done].
  rewrite Forall_forall in Hex. apply Hex. rewrite Hsplit, elem_of_app.
  right. apply list_elem_of_here.
Qed.

Lemma insufficient_stock_rolls_back_witness :
  ∃ pid,
    result (post_orders "ann" [mkItemIn 1 4; mkItemIn 2 5; mkItemIn 1 3] shop)
      = Raise (InsufficientStockError pid)
    ∧ db_after (post_orders "ann" [mkItemIn 1 4; mkItemIn 2 5; mkItemIn 1 3] shop) = shop.
Proof.
  destruct (insufficient_stock_rolls_back shop "ann"
              [mkItemIn 1 4; mkItemIn 2 5; mkItemIn 1 3])
    as (l1 & pid & l2 & _ & _ & _ & Hres & _ & Hdb).
  - repeat constructor; vm_compute; by eexists.
  - apply Exists_cons_tl, Exists_cons_hd. exists mug. split; [reflexivity|].
    vm_compute. reflexivity.
  - exists pid. by split.
Defined.

(** C2, as stated, fails: a request that asks for more than the stock of
    product 1 and also names the unknown product 7 is rejected for the
    unknown product, not for the stock. *)
Lemma insufficient_stock_claim_fails :
  short_of (products shop) 1 (requested [mkItemIn 7 1; mkItemIn 1 100] 1)
  ∧ result (post_orders "ann" [mkItemIn 7 1; mkItemIn 1 100] shop)
    = Raise (HTTPException 400 "unknown product(s): [7]")
  ∧ ∀ pid, result (post_orders "ann" [mkItemIn 7 1; mkItemIn 1 100] shop)
           ≠ Raise (InsufficientStockError pid).
Proof.
  split; [|split].
  - exists tea. split; [reflexivity|]. vm_compute. reflexivity.
  - vm_compute. reflexivity.
  - intros pid. vm_compute. intros H. inversion H.
Qed.

Lemma Raise_inj {A} (e e' : Exn) : Raise (A := A) e = Raise e' → e = e'.
Proof. by intros [= ->]. Qed.

Lemma not_insufficient_validation pid : ValidationError ≠ InsufficientStockError pid.
Proof.
  unfold ValidationError, InsufficientStockError.
  cbv beta iota delta [String.append]. intros H. inversion H.
Qed.

Lemma not_insufficient_unknown l pid : UnknownProductError l ≠ InsufficientStockError pid.
Proof.
  unfold UnknownProductError, InsufficientStockError.
  cbv beta iota delta [String.append]. intros H. inversion H.
Qed.

(** C10. The error names the first product, in the order of first
    occurrence in the submitted list, whose total requested quantity
    exceeds its stock, whatever the stock of the products after it: when
    the products all exist and [pid] is that product, the request fails
    with [InsufficientStockError] for [pid] and the loop sends no update
    for the products after it; and whenever a request fails with
    [InsufficientStockError] for a product, that product is the first
    short one and is the only one the message names. *)
Theorem first_insufficient_named (db : DB) (user : string) (items : list OrderItemIn) :
  db_wf db →
  (∀ l1 pid l2,
      Forall (λ it, is_Some (products db !! in_product_id it)) items →
      distinct (map in_product_id items) = l1 ++ pid :: l2 →
      Forall (λ k, in_stock (products db) k (requested items k)) l1 →
      short_of (products db) pid (requested items pid) →
      result (post_orders user items db)
        = Raise (HTTPException 400 ("insufficient stock for product " +:+ repr_int pid))
      ∧ statements (post_orders user items db)
        = [CreateSchemaIfNotExists DB_SCHEMA; SelectPrices (l1 ++ pid :: l2)]
          ++ map (λ k, UpdateStock k (requested items k)) (l1 ++ [pid]))
  ∧ (∀ pid,
       result (post_orders user items db) = Raise (InsufficientStockError pid) →
       ∃ l1 l2,
         distinct (map in_product_id items) = l1 ++ pid :: l2
         ∧ Forall (λ k, in_stock (products db) k (requested items k)) l1
         ∧ short_of (products db) pid (requested items pid)
         ∧ ∀ pid', result (post_orders user items db) = Raise (InsufficientStockError pid') →
                   pid' = pid).
Proof.
  intros Hwf. split.
  - intros l1 pid l2 Hex Hsplit Hl1 Hshort. apply exists_request_ids in Hex.
    assert (¬ in_stock (products db) pid (requested items pid)) as Hno.
    { apply not_in_stock_short; [|done]. destruct Hshort as (p & Hp & _). by exists p. }
    rewrite (post_orders_short user items db l1 pid l2 Hsplit Hex Hl1 Hno).
    cbn [result statements]. unfold request_ids. by rewrite Hsplit.
  - intros pid Hres.
    destruct (post_orders_cases user items db Hwf)
      as [[_ Hr]|[[_ Hr]|[(l1 & pid0 & l2 & Hsplit & Hex & Hl1 & Hno & Hr)
                     |[(_ & _ & _ & Hr)|(_ & _ & _ & Hr)]]]].
    4:{ rewrite Hr in Hres. unfold InsufficientStockError in Hres. discriminate Hres. }
    all: rewrite Hr in Hres |- *; cbn [result] in Hres |- *.
    + exfalso. apply (not_insufficient_validation pid). by apply Raise_inj in Hres.
    + exfalso. eapply (not_insufficient_unknown _ pid). by apply Raise_inj in Hres.
    + assert (pid0 = pid) as ->.
      { apply InsufficientStockError_inj. by apply Raise_inj in Hres. }
      exists l1, l2. split; [done|]. split; [done|]. split.
      * apply not_in_stock_short; [|done]. rewrite Forall_forall in Hex. apply Hex.
        rewrite Hsplit, elem_of_app. right. apply list_elem_of_here.
      * intros pid' Heq. apply InsufficientStockError_inj. by apply Raise_inj in Heq.
    + discriminate Hres.
Qed.

Lemma first_insufficient_named_witness :
  result (post_orders "ann" [mkItemIn 2 4; mkItemIn 1 20; mkItemIn 2 1] shop)
  = Raise (HTTPException 400 "insufficient stock for product 2").
Proof.
  destruct (first_insufficient_named shop "ann" [mkItemIn 2 4; mkItemIn 1 20; mkItemIn 2 1])
    as [Hnamed _].
  - apply (bool_decide_unpack _). vm_compute. exact I.
  - destruct (Hnamed [] 2 [1]) as [Hres _].
    + repeat constructor; vm_compute; by eexists.
    + vm_compute. reflexivity.
    + constructor.
    + exists mug. split; [reflexivity|]. vm_compute. reflexivity.
    + exact Hres.
Defined.

(** C4. For every request that names a product the catalog does not
    hold, [create_order] fails with [UnknownProductError]; its message
    lists exactly the requested IDs that are absent, each once, in
    strictly ascending order; the request sends the schema statement and
    the price query and nothing else (no update, no insert), and the
    store is what it was. *)
Theorem unknown_product_rejected (db : DB) (user : string) (items : list OrderItemIn) :
  Exists (λ it, products db !! in_product_id it = None) items →
  result (post_orders user items db)
    = Raise (HTTPException 400
               ("unknown product(s): " +:+ repr_list (missing_ids items (products db))))
  ∧ StronglySorted Z.lt (missing_ids items (products db))
  ∧ (∀ pid, pid ∈ missing_ids items (products db)
            ↔ pid ∈ map in_product_id items ∧ products db !! pid = None)
  ∧ statements (post_orders user items db)
    = [CreateSchemaIfNotExists DB_SCHEMA; SelectPrices (request_ids items)]
  ∧ db_after (post_orders user items db) = db.
Proof.
  intros Hmiss.
  assert (items ≠ []) as Hne.
  { intros ->. by apply Exists_nil in Hmiss. }
  assert (¬ Forall (λ k, is_Some (products db !! k)) (request_ids items)) as Hno.
  { intros Hall. apply Exists_exists in Hmiss as (it & Hit & Hnone).
    rewrite Forall_forall in Hall. destruct (Hall (in_product_id it)) as [p Hp].
    - apply elem_of_request_ids, list_elem_of_fmap. by exists it.
    - congruence. }
  rewrite (post_orders_unknown user items db Hne Hno). cbn [result statements db_after].
  split; [done|]. split; [apply sorted_ascending|]. split; [|done].
  intros pid. unfold missing_ids. rewrite missing_spec, combine_items_keys.
  by rewrite elem_of_request_ids.
Qed.

Lemma unknown_product_rejected_witness :
  result (post_orders "ann" [mkItemIn 9 1; mkItemIn 2 1; mkItemIn 4 3; mkItemIn 9 2] shop)
  = Raise (HTTPException 400 "unknown product(s): [4, 9]").
Proof.
  destruct (unknown_product_rejected shop "ann"
              [mkItemIn 9 1; mkItemIn 2 1; mkItemIn 4 3; mkItemIn 9 2]) as [Hres _].
  - apply Exists_cons_hd. vm_compute. reflexivity.
  - rewrite Hres. vm_compute. reflexivity.
Defined.

(** C8, as the code has it. On the route, a request with an empty item
    list is refused: with 401 and no statement at all when the header
    [X-User] is missing or empty, and otherwise with the validation error
    of the schema [OrderCreate] (422), before [create_order] is called.
    No query is sent and no table and no sequence changes; but the one
    statement [CREATE SCHEMA IF NOT EXISTS] of [get_session] has been sent
    by then, and the store afterwards is the store before or the store
    with that schema, as the framework leaves [get_session] by rollback
    or by commit. Every other body that the schema refuses ends the same
    way. The check of [create_order] itself for an empty list, which
    raises 400 before the session is used, is not reached from the
    route. *)
Theorem empty_order_rejected (commits : bool) (x_user : option string) (user : string)
    (db : DB) :
  (result (post_orders_route commits x_user [] db)
   = Raise (HTTPException 401 "missing X-User")
   ∧ statements (post_orders_route commits x_user [] db) = []
   ∨ result (post_orders_route commits x_user [] db) = Raise RequestValidationError
     ∧ statements (post_orders_route commits x_user [] db)
       = [CreateSchemaIfNotExists DB_SCHEMA])
  ∧ (user ≠ "" →
     result (post_orders_route commits (Some user) [] db) = Raise RequestValidationError
     ∧ statements (post_orders_route commits (Some user) [] db)
       = [CreateSchemaIfNotExists DB_SCHEMA])
  ∧ Forall (λ st, is_select st = false) (statements (post_orders_route commits x_user [] db))
  ∧ products (db_after (post_orders_route commits x_user [] db)) = products db
  ∧ next_product_id (db_after (post_orders_route commits x_user [] db)) = next_product_id db
  ∧ orders (db_after (post_orders_route commits x_user [] db)) = orders db
  ∧ next_order_id (db_after (post_orders_route commits x_user [] db)) = next_order_id db
  ∧ order_items (db_after (post_orders_route commits x_user [] db)) = order_items db
  ∧ next_item_id (db_after (post_orders_route commits x_user [] db)) = next_item_id db
  ∧ (db_after (post_orders_route commits x_user [] db) = db
     ∨ db_after (post_orders_route commits x_user [] db)
       = run_stmt (CreateSchemaIfNotExists DB_SCHEMA) db)
  ∧ (∀ items, ¬ OrderCreate_valid items →
              post_orders_route commits x_user items db
              = post_orders_route commits x_user [] db)
  ∧ (∀ s, create_order [] user s
          = (Raise (HTTPException 400 "items must not be empty"), s)).
Proof.
  split; [|split; [|split]].
  - unfold post_orders_route, require_user. destruct x_user as [u|]; [|by left].
    destruct (decide (u = "")) as [->|Hu]; [by left|]. right.
    by rewrite decide_False by apply not_valid_nil.
  - intros Hu. by rewrite post_orders_route_refused by (done || apply not_valid_nil).
  - unfold post_orders_route, require_user. destruct x_user as [u|]; [|by constructor].
    destruct (decide (u = "")) as [->|Hu]; [by constructor|].
    rewrite decide_False by apply not_valid_nil. by repeat constructor.
  - assert (∀ items, ¬ OrderCreate_valid items →
              post_orders_route commits x_user items db
              = post_orders_route commits x_user [] db) as Hsame.
    { intros items Hv. unfold post_orders_route, require_user.
      destruct x_user as [u|]; [|done]. destruct (decide (u = "")); [done|].
      by rewrite !decide_False by (done || apply not_valid_nil). }
    unfold post_orders_route, require_user in *. destruct x_user as [u|].
    2:{ repeat (split; [done|]). split; [by left|]. by split. }
    destruct (decide (u = "")) as [->|Hu].
    { repeat (split; [done|]). split; [by left|]. by split. }
    rewrite decide_False by apply not_valid_nil.
    unfold body_refused. cbn [db_after]. destruct commits.
    + repeat (split; [done|]). split; [by right|]. split; [|done].
      intros items Hv. by rewrite decide_False.
    + repeat (split; [done|]). split; [by left|]. split; [|done].
      intros items Hv. by rewrite decide_False.
Qed.

(** C8, as stated, fails: the request with an empty item list has sent
    the schema statement by the time it is refused, whether the framework
    then leaves [get_session] by commit or by rollback. *)
Lemma empty_order_claim_fails :
  result (post_orders_route true (Some "ann") [] shop) = Raise RequestValidationError
  ∧ result (post_orders_route false (Some "ann") [] shop) = Raise RequestValidationError
  ∧ statements (post_orders_route true (Some "ann") [] shop)
    = [CreateSchemaIfNotExists "orders"]
  ∧ statements (post_orders_route false (Some "ann") [] shop)
    = [CreateSchemaIfNotExists "orders"]
  ∧ statements (post_orders_route true (Some "ann") [] shop) ≠ []
  ∧ statements (post_orders_route false (Some "ann") [] shop) ≠ [].
Proof. repeat split; (vm_compute; reflexivity) || (vm_compute; discriminate). Qed.

Lemma create_order_ext items items' user :
  (items = [] ↔ items' = []) → combine_items items = combine_items items' →
  create_order items user = create_order items' user.
Proof.
  intros Hnil Hc. unfold create_order. rewrite Hc.
  destruct items, items'; try done; exfalso.
  - by destruct Hnil as [Hnil _]; discriminate Hnil.
  - by destruct Hnil as [_ Hnil]; discriminate Hnil.
Qed.

Lemma filter_ne_notin (x : Z) (l : list Z) : x ∉ l → filter (λ y, y ≠ x) l = l.
Proof.
  induction l as [|y l IH]; [done|]. intros Hx.
  apply not_elem_of_cons in Hx as [Hne Hx].
  rewrite filter_cons, decide_True by done. by rewrite IH.
Qed.

Lemma distinct_NoDup l : NoDup l → distinct l = l.
Proof.
  induction 1 as [|x l Hx Hl IH]; [done|]. cbn [distinct].
  by rewrite IH, filter_ne_notin.
Qed.

Lemma requested_notin (f : Z → Z) ids k :
  k ∉ ids → requested (map (λ k, mkItemIn k (f k)) ids) k = 0.
Proof.
  induction ids as [|x ids IH]; [done|]. intros Hk.
  apply not_elem_of_cons in Hk as [Hne Hk]. cbn [map requested in_product_id in_qty].
  rewrite decide_False by done. by rewrite IH.
Qed.

Lemma requested_point (f : Z → Z) ids k :
  NoDup ids → k ∈ ids → requested (map (λ k, mkItemIn k (f k)) ids) k = f k.
Proof.
  induction 1 as [|x ids Hx Hnd IH]; intros Hk; [by apply elem_of_nil in Hk|].
  cbn [map requested in_product_id in_qty].
  apply elem_of_cons in Hk as [->|Hk].
  - rewrite decide_True by done. rewrite requested_notin by done. lia.
  - rewrite decide_False by (intros ->; done). by rewrite IH.
Qed.

Lemma merged_spec items :
  merged items = map (λ k, mkItemIn k (requested items k)) (request_ids items).
Proof. unfold merged. by rewrite combine_items_spec, map_map. Qed.

Lemma request_ids_merged items : request_ids (merged items) = request_ids items.
Proof.
  unfold request_ids at 1. rewrite merged_spec, map_map. cbn [in_product_id].
  rewrite map_id. apply distinct_NoDup, NoDup_distinct.
Qed.

Lemma combine_items_merged items : combine_items (merged items) = combine_items items.
Proof.
  rewrite (combine_items_spec (merged items)), (combine_items_spec items).
  rewrite request_ids_merged. apply map_ext_in. intros k Hk. f_equal.
  rewrite merged_spec. apply requested_point; [apply NoDup_distinct|].
  by apply list_elem_of_In.
Qed.

Lemma price_of_at ids ps k :
  k ∈ ids → price_of (select_prices ids ps) k = price_at ps k.
Proof. intros Hk. unfold price_of, price_at. by rewrite select_prices_lookup, decide_True. Qed.

Lemma reserve_log_spec items :
  reserve_log (combine_items items)
  = map (λ k, UpdateStock k (requested items k)) (request_ids items).
Proof. unfold reserve_log. by rewrite combine_items_spec, map_map. Qed.

Lemma new_rows_spec oid items ps :
  new_rows oid (select_prices (request_ids items) ps) (combine_items items)
  = map (λ k, (oid, k, requested items k, price_at ps k)) (request_ids items).
Proof.
  unfold new_rows. rewrite combine_items_spec, map_map. apply map_ext_in.
  intros k Hk%list_elem_of_In. cbn. by rewrite price_of_at.
Qed.

Lemma items_out_spec items ps :
  items_out (select_prices (request_ids items) ps) (combine_items items)
  = map (λ k, mkItemOut k (requested items k) (price_at ps k)) (request_ids items).
Proof.
  unfold items_out. rewrite combine_items_spec, map_map. apply map_ext_in.
  intros k Hk%list_elem_of_In. cbn. by rewrite price_of_at.
Qed.

Lemma filter_updates_reservations (f : Z → Z) l :
  filter (λ st, is_update_stock st = true) (map (λ k, UpdateStock k (f k)) l)
  = map (λ k, UpdateStock k (f k)) l.
Proof.
  induction l as [|k l IH]; [done|]. cbn [map].
  rewrite filter_cons, decide_True by done. by rewrite IH.
Qed.

Lemma filter_updates_none l :
  Forall (λ st, is_update_stock st = false) l →
  filter (λ st, is_update_stock st = true) l = [].
Proof.
  induction 1 as [|st l Hst _ IH]; [done|].
  rewrite filter_cons, decide_False by (by rewrite Hst). exact IH.
Qed.

Lemma total_stmts_no_updates oid total :
  Forall (λ st, is_update_stock st = false) (total_stmts oid total).
Proof. unfold total_stmts. case_decide; by repeat constructor. Qed.

(** The reservations of a request: the merged quantities of the first
    products of the request, each product once. *)
Lemma post_orders_reservations user items db :
  db_wf db →
  ∃ ids, ids `prefix_of` request_ids items
         ∧ filter (λ st, is_update_stock st = true) (statements (post_orders user items db))
           = map (λ k, UpdateStock k (requested items k)) ids.
Proof.
  intros Hwf.
  destruct (post_orders_cases user items db Hwf)
    as [[_ ->]|[[_ ->]|[(l1 & pid & l2 & Hsplit & _ & _ & _ & ->)
                   |[(_ & _ & _ & ->)|(_ & _ & _ & ->)]]]]; cbn [statements].
  - exists []. split; [apply prefix_nil|done].
  - exists []. split; [apply prefix_nil|done].
  - exists (l1 ++ [pid]). split.
    + exists l2. by rewrite Hsplit, <- app_assoc.
    + rewrite filter_app, filter_updates_reservations.
      rewrite filter_updates_none by (by repeat constructor). done.
  - exists (request_ids items). split; [done|].
    unfold refused_log. cbv zeta. rewrite reserve_log_spec.
    change (CreateSchemaIfNotExists DB_SCHEMA :: ?a ++ ?b)
      with ((CreateSchemaIfNotExists DB_SCHEMA :: a) ++ b).
    rewrite !filter_app, filter_updates_reservations.
    rewrite (filter_updates_none [_; _]) by (by repeat constructor).
    rewrite (filter_updates_none [_]) by (by repeat constructor).
    rewrite filter_updates_none; [by rewrite app_nil_r|].
    case_decide; [|constructor]. apply Forall_app. split; [apply total_stmts_no_updates|].
    case_decide; by repeat constructor.
  - exists (request_ids items). split; [done|].
    unfold placed_log. cbv zeta. rewrite reserve_log_spec.
    change (CreateSchemaIfNotExists DB_SCHEMA :: ?a ++ ?b)
      with ((CreateSchemaIfNotExists DB_SCHEMA :: a) ++ b).
    rewrite !filter_app, filter_updates_reservations.
    rewrite (filter_updates_none [_; _]) by (by repeat constructor).
    rewrite (filter_updates_none [_]) by (by repeat constructor).
    rewrite (filter_updates_none (total_stmts _ _)) by apply total_stmts_no_updates.
    rewrite filter_updates_none by (by repeat constructor).
    cbn [app]. by rewrite app_nil_r.
Qed.

Lemma merged_valid items : OrderCreate_valid items → OrderCreate_valid (merged items).
Proof.
  intros Hv. destruct (valid_request_merged items Hv) as [Hne Hall].
  unfold merged, OrderCreate_valid. rewrite length_map. split.
  - assert ((combine_items items).*1 ≠ []) as Hids.
    { rewrite combine_items_keys. by rewrite request_ids_nil. }
    destruct (combine_items items); [done|cbn; lia].
  - apply Forall_fmap. eapply Forall_impl; [exact Hall|]. by intros kv [? ?].
Qed.

(** C5. A request behaves exactly as the request with one merged entry
    per product (the distinct products in first-occurrence order, each
    with the sum of its quantities): same outcome, same store, same
    statements, for every user and every store; in particular
    [[{1,2},{1,3}]] behaves as [[{1,5}]], and two requests that merge to
    the same entries cannot be told apart. What the request looks up,
    reserves and stores are the merged entries: the price query names each
    distinct product once; every reservation sent carries the summed
    quantity of its product, one per distinct product in first-occurrence
    order, up to the first that fails; and a successful request returns
    and stores one item per distinct product with the summed quantity and
    the catalog price, inserts exactly these rows, and lowers each stock
    by the summed quantity. On the route, a body that passes the schema
    and its merged body are answered alike. *)
Theorem duplicates_merged (db : DB) (user : string) (items : list OrderItemIn) :
  merged items = map (λ k, mkItemIn k (requested items k)) (distinct (map in_product_id items))
  ∧ post_orders user items db = post_orders user (merged items) db
  ∧ post_orders user [mkItemIn 1 2; mkItemIn 1 3] db = post_orders user [mkItemIn 1 5] db
  ∧ (∀ items', merged items' = merged items →
               post_orders user items' db = post_orders user items db)
  ∧ (db_wf db → items ≠ [] →
     ∃ rest, statements (post_orders user items db)
             = CreateSchemaIfNotExists DB_SCHEMA
               :: SelectPrices (distinct (map in_product_id items)) :: rest)
  ∧ (db_wf db →
     ∃ ids, ids `prefix_of` distinct (map in_product_id items)
            ∧ filter (λ st, is_update_stock st = true) (statements (post_orders user items db))
              = map (λ k, UpdateStock k (requested items k)) ids)
  ∧ (db_wf db → ∀ out, result (post_orders user items db) = Ok out →
     out_items out
     = map (λ k, mkItemOut k (requested items k) (price_at (products db) k))
         (distinct (map in_product_id items))
     ∧ filter (λ st, is_update_stock st = true) (statements (post_orders user items db))
       = map (λ k, UpdateStock k (requested items k)) (distinct (map in_product_id items))
     ∧ InsertOrderItems
         (map (λ k, (out_id out, k, requested items k, price_at (products db) k))
            (distinct (map in_product_id items)))
       ∈ statements (post_orders user items db)
     ∧ filter (λ i, order_id i = out_id out)
         (order_items (db_after (post_orders user items db)))
       = insert_rows (next_item_id db)
           (map (λ k, (out_id out, k, requested items k, price_at (products db) k))
              (distinct (map in_product_id items)))
     ∧ (∀ k p, k ∈ distinct (map in_product_id items) → products db !! k = Some p →
               products (db_after (post_orders user items db)) !! k
               = Some (mkProduct (name p) (price_cents p) (stock p - requested items k))))
  ∧ (∀ commits x_user, OrderCreate_valid items →
       post_orders_route commits x_user items db
       = post_orders_route commits x_user (merged items) db).
Proof.
  assert (∀ u, post_orders u items db = post_orders u (merged items) db) as Hmerged.
  { intros u. unfold post_orders. f_equal. apply create_order_ext.
    + rewrite merged_spec. rewrite <- (request_ids_nil items).
      fold (request_ids items). by destruct (request_ids items).
    + by rewrite combine_items_merged. }
  split; [apply merged_spec|]. split; [|split; [|split; [|split; [|split; [|split]]]]].
  7:{ intros commits x_user Hv. unfold post_orders_route.
      destruct (require_user x_user) as [u|e]; [|done].
      rewrite !decide_True by (done || by apply merged_valid).
      apply Hmerged. }
  - apply Hmerged.
  - reflexivity.
  - intros items' Hm. unfold post_orders. f_equal.
    assert (combine_items items' = combine_items items) as Hc.
    { by rewrite <- (combine_items_merged items'), Hm, combine_items_merged. }
    apply create_order_ext; [|done].
    rewrite <- (request_ids_nil items), <- (request_ids_nil items').
    by rewrite <- !combine_items_keys, Hc.
  - intros Hwf Hne. fold (request_ids items).
    destruct (post_orders_cases user items db Hwf)
      as [[He _]|[[_ ->]|[(l1 & pid & l2 & _ & _ & _ & _ & ->)
                     |[(_ & _ & _ & ->)|(_ & _ & _ & ->)]]]]; cbn [statements].
    + done.
    + by eexists.
    + by eexists.
    + unfold refused_log. cbv zeta. rewrite combine_items_keys. by eexists.
    + unfold placed_log. cbv zeta. rewrite combine_items_keys. by eexists.
  - intros Hwf. by apply post_orders_reservations.
  - intros Hwf out Hres. fold (request_ids items).
    destruct (post_orders_outcome user items db Hwf)
      as [(e & Hr & _)|(Hne & Hstock & _ & Hr)].
    { rewrite Hr in Hres. discriminate Hres. }
    rewrite Hr in Hres |- *.
    cbn [result db_after statements] in Hres |- *. injection Hres as <-.
    unfold placed_out, placed_db, placed_log. cbv zeta.
    cbn [out_items out_id opened send SessionLocal store run_stmt products next_order_id
         next_item_id order_items].
    rewrite !combine_items_keys, items_out_spec, new_rows_spec, reserve_log_spec.
    split; [done|]. split; [|split; [|split]].
    + change (CreateSchemaIfNotExists DB_SCHEMA :: ?a ++ ?b)
        with ((CreateSchemaIfNotExists DB_SCHEMA :: a) ++ b).
      rewrite !filter_app, filter_updates_reservations.
      rewrite (filter_updates_none [_; _]) by (by repeat constructor).
      rewrite (filter_updates_none [_]) by (by repeat constructor).
      rewrite (filter_updates_none (total_stmts _ _)) by apply total_stmts_no_updates.
      rewrite filter_updates_none by (by repeat constructor).
    cbn [app]. by rewrite app_nil_r.
    + apply list_elem_of_further. rewrite !elem_of_app. right. right. right. right.
      apply list_elem_of_here.
    + rewrite filter_app, (filter_items_fresh _ _ (wf_items_below db Hwf)).
      cbn [app]. rewrite filter_item_rows, <- insert_rows_new.
      by rewrite <- combine_items_keys at 1; rewrite combine_items_keys, new_rows_spec.
    + intros k p Hk Hp. rewrite Forall_forall in Hstock.
      destruct (Hstock k Hk) as (p' & Hp' & Hle). simplify_eq.
      apply (reserve_all_lookup_in _ _ k (requested items k) p);
        [apply combine_items_NoDup| |done|done].
      rewrite combine_items_spec. apply list_elem_of_fmap. by exists k.
Qed.

(** C5 at a request with a repeated product: one item of five units is
    returned and the stock of the product goes from ten to five. *)
Lemma duplicates_merged_witness :
  (∀ out, result (post_orders "ann" [mkItemIn 1 2; mkItemIn 1 3] shop) = Ok out →
          out_items out = [mkItemOut 1 5 250])
  ∧ result (post_orders "ann" [mkItemIn 1 2; mkItemIn 1 3] shop)
    = Ok (mkOrderOut 1 "ann" 1250 [mkItemOut 1 5 250]).
Proof.
  destruct (duplicates_merged shop "ann" [mkItemIn 1 2; mkItemIn 1 3])
    as (_ & _ & _ & _ & _ & _ & Hok & _).
  assert (db_wf shop) as Hwf by (apply (bool_decide_unpack _); vm_compute; exact I).
  split.
  - intros out Hres. destruct (Hok Hwf out Hres) as (Hit & _).
    rewrite Hit. vm_compute. reflexivity.
  - vm_compute. reflexivity.
Defined.

(** C9. Whatever the request and the store, [POST /orders] leaves every
    row of [products] in place with its ID, name and price; every
    statement it sends is either the guarded reservation update or a
    statement that leaves [products] as it is; and the store afterwards
    is the replay of those statements (commit) or the store before
    (rollback). *)
Theorem only_reservation_writes_catalog (db : DB) (user : string) (items : list OrderItemIn) :
  same_catalog (products db) (products (db_after (post_orders user items db)))
  ∧ Forall (λ st, is_reservation st ∨ keeps_products st)
      (statements (post_orders user items db))
  ∧ (db_after (post_orders user items db) = replay (statements (post_orders user items db)) db
     ∨ db_after (post_orders user items db) = db).
Proof.
  destruct (get_session_traced (create_order items user) db) as [Hok Hdb].
  { apply traced_create_order. }
  fold (post_orders user items db) in Hok, Hdb.
  split; [|split].
  - destruct (result (post_orders user items db)); rewrite Hdb.
    + by apply replay_same_catalog.
    + apply same_catalog_refl.
  - eapply Forall_impl; [exact Hok|]. apply orders_stmt_cases.
  - destruct (result (post_orders user items db)); auto.
Qed.


#[local] Instance newer_row_antisymm : AntiSymm (=) (λ a b : Order, id b < id a).
Proof. intros a b H1 H2. lia. Qed.

Lemma listed_newest user db db' o :
  orders db' = orders db ++ [o] → user_id o = user →
  Forall (λ o', id o' < id o) (orders db) → NoDup (map id (orders db)) →
  listed user db' = o :: listed user db.
Proof.
  intros Horders Huser Hbelow Hnd.
  apply (StronglySorted_unique (λ a b : Order, id b < id a)).
  - apply listed_sorted. rewrite Horders, map_app. apply NoDup_app.
    split; [done|]. split; [|apply NoDup_singleton].
    intros x Hx Hx'. cbn in Hx'. apply list_elem_of_singleton in Hx'. subst x.
    apply list_elem_of_fmap in Hx as (o' & Hid & Hin).
    rewrite Forall_forall in Hbelow. specialize (Hbelow o' Hin). lia.
  - constructor; [by apply listed_sorted|].
    rewrite Forall_forall. intros o' Ho'. apply elem_of_listed in Ho' as [Ho' _].
    rewrite Forall_forall in Hbelow. by apply Hbelow.
  - rewrite !listed_perm, Horders, filter_app, filter_cons, decide_True by done.
    rewrite filter_nil. symmetry. apply Permutation_cons_append.
Qed.

Lemma catalog_steps_orders db db' :
  rtc catalog_step db db' →
  orders db' = orders db ∧ order_items db' = order_items db.
Proof.
  induction 1 as [db|db mid db' [op ->] _ [IHo IHi]]; [done|].
  destruct (catalog_run_orders op db) as (Ho & Hi & _). by rewrite IHo, IHi.
Qed.

(** C6. For every user, [GET /orders/me] returns one entry per order row
    of that user and no entry of another user; the entries come in
    strictly descending order of ID; each entry carries the stored
    [total_cents] of its row and the items that reference the row;
    [list_my_orders] sends only [SELECT] statements and leaves its
    session's store as it is, and the request leaves the tables and
    sequences as they are. *)
Theorem list_orders_for_user (db : DB) (user : string) :
  db_wf db →
  ∃ outs : list OrderOut,
    result (get_orders_me user db) = Ok outs
    ∧ outs ≡ₚ map (λ o, mkOrderOut (id o) (user_id o) (total_cents o)
                          (map item_out (filter (λ i, order_id i = id o) (order_items db))))
                (filter (λ o, user_id o = user) (orders db))
    ∧ Forall (λ out, out_user_id out = user) outs
    ∧ StronglySorted (λ a b, out_id b < out_id a) outs
    ∧ (∀ s, ∃ outs' sel,
          list_my_orders user s = (Ok outs', mkSession (store s) (pending s) (log s ++ sel))
          ∧ Forall (λ st, is_select st = true) sel)
    ∧ products (db_after (get_orders_me user db)) = products db
    ∧ orders (db_after (get_orders_me user db)) = orders db
    ∧ order_items (db_after (get_orders_me user db)) = order_items db
    ∧ next_order_id (db_after (get_orders_me user db)) = next_order_id db
    ∧ next_item_id (db_after (get_orders_me user db)) = next_item_id db.
Proof.
  intros (_ & _ & Hnd & _). rewrite get_orders_me_run.
  exists (map (order_out (order_items db)) (listed user db)).
  split; [done|]. split; [|split; [|split; [|split]]].
  - apply Permutation_map. apply listed_perm.
  - apply Forall_fmap, Forall_forall. intros o Ho. by apply elem_of_listed in Ho as [_ Ho].
  - apply order_out_sorted. by apply listed_sorted.
  - intros [st pd lg]. rewrite list_my_orders_run. eexists _, _. split; [done|].
    constructor; [done|]. by apply Forall_fmap, Forall_true.
  - done.
Qed.

Lemma list_orders_for_user_witness :
  result (get_orders_me "ann" busy_shop)
  = Ok [mkOrderOut 3 "ann" 1150 [mkItemOut 1 1 250; mkItemOut 2 1 900];
        mkOrderOut 2 "ann" 500 [mkItemOut 1 2 250]].
Proof.
  destruct (list_orders_for_user busy_shop "ann") as (outs & Hres & _).
  - apply (bool_decide_unpack _). vm_compute. exact I.
  - vm_compute. reflexivity.
Defined.

Lemma filter_item_rows_other first oid oid' prices combined :
  oid' ≠ oid →
  filter (λ i, order_id i = oid') (item_rows first oid prices combined) = [].
Proof.
  intros Hne. revert first. induction combined as [|kv rest IH]; intros first; [done|].
  cbn [item_rows]. rewrite filter_cons, decide_False by (cbn; congruence). apply IH.
Qed.

Lemma placed_listing user items db :
  db_wf db →
  map (order_out (order_items (placed_db user items (store (opened db)))))
      (listed user (placed_db user items (store (opened db))))
  = placed_out user items (store (opened db))
    :: map (order_out (order_items db)) (listed user db).
Proof.
  intros Hwf. pose proof Hwf as (_ & Hbelow & Hnd & _).
  set (st := store (opened db)). set (db1 := placed_db user items st).
  set (prices := select_prices (combine_items items).*1 (products st)).
  set (total := order_total prices (combine_items items)).
  rewrite (listed_newest user db db1 (mkOrder (next_order_id db) user total)); try done.
  cbn [map]. f_equal.
  - unfold order_out, placed_out. cbn [id user_id total_cents]. f_equal.
    subst db1. unfold placed_db. cbn [order_items].
    change (order_items st) with (order_items db).
    change (next_order_id st) with (next_order_id db).
    rewrite filter_app, (filter_items_fresh _ _ (wf_items_below db Hwf)). cbn [app].
    by rewrite filter_item_rows, item_rows_out.
  - apply map_ext_in. intros o Ho. apply list_elem_of_In, elem_of_listed in Ho as [Ho _].
    unfold order_out. do 2 f_equal.
    subst db1. unfold placed_db. cbn [order_items].
    change (order_items st) with (order_items db).
    change (next_order_id st) with (next_order_id db).
    rewrite filter_app. rewrite <- (app_nil_r (filter _ (order_items db))) at 2. f_equal.
    rewrite Forall_forall in Hbelow. specialize (Hbelow o Ho).
    apply filter_item_rows_other. lia.
Qed.

(** C7. After an order has been created, any sequence of catalog
    requests (price changes included) leaves the [orders] and
    [order_items] tables as they were; the order's row still holds the
    total that was returned, its item rows still hold the returned
    prices, and the next listing for that user starts with exactly the
    order that [create_order] returned. *)
Theorem price_snapshot_frozen (db db' : DB) (user : string) (items : list OrderItemIn)
    (out : OrderOut) :
  db_wf db →
  result (post_orders user items db) = Ok out →
  rtc catalog_step (db_after (post_orders user items db)) db' →
  orders db' = orders (db_after (post_orders user items db))
  ∧ order_items db' = order_items (db_after (post_orders user items db))
  ∧ mkOrder (out_id out) user (out_total_cents out) ∈ orders db'
  ∧ map item_out (filter (λ i, order_id i = out_id out) (order_items db')) = out_items out
  ∧ ∃ rest, result (get_orders_me user db') = Ok (out :: rest).
Proof.
  intros Hwf Hres Hsteps.
  apply catalog_steps_orders in Hsteps as [Ho Hi].
  split; [done|]. split; [done|].
  destruct (post_orders_outcome user items db Hwf)
    as [(e & Hr & _)|(Hne & Hstock & _ & Hr)].
  { rewrite Hr in Hres. discriminate Hres. }
  rewrite Hr in Hres, Ho, Hi.
  cbn [result db_after] in Hres, Ho, Hi. injection Hres as <-.
  split; [|split].
  - rewrite Ho. unfold placed_db, placed_out. cbn [orders out_id out_total_cents].
    apply elem_of_app. right. apply list_elem_of_here.
  - rewrite Hi. unfold placed_db, placed_out, opened, send, SessionLocal.
    cbn [store run_stmt order_items next_order_id next_item_id out_id out_items].
    rewrite filter_app.
    rewrite (filter_items_fresh _ _ (wf_items_below db Hwf)). cbn [app].
    by rewrite filter_item_rows, item_rows_out.
  - rewrite get_orders_me_run. cbn [result]. eexists.
    unfold listed. rewrite Ho, Hi.
    fold (listed user (placed_db user items (store (opened db)))).
    by rewrite placed_listing.
Qed.

Lemma price_snapshot_frozen_witness :
  ∃ rest,
    result (get_orders_me "ann"
              (catalog_run (PutProduct 1 (mkProductIn "tea" 999 4))
                 (db_after (post_orders "ann" [mkItemIn 1 2] busy_shop))))
    = Ok (mkOrderOut 4 "ann" 500 [mkItemOut 1 2 250] :: rest).
Proof.
  destruct (price_snapshot_frozen busy_shop
              (catalog_run (PutProduct 1 (mkProductIn "tea" 999 4))
                 (db_after (post_orders "ann" [mkItemIn 1 2] busy_shop)))
              "ann" [mkItemIn 1 2] (mkOrderOut 4 "ann" 500 [mkItemOut 1 2 250]))
    as (_ & _ & _ & _ & Hlist).
  - apply (bool_decide_unpack _). vm_compute. exact I.
  - vm_compute. reflexivity.
  - apply rtc_once. by eexists.
  - exact Hlist.
Defined.
End Claims.

(** * More properties of the code *)

Section Accessor.
Import Orders.

Lemma db_eta db :
  mkDB (schemas db) (products db) (next_product_id db) (orders db) (next_order_id db)
       (order_items db) (next_item_id db) = db.
Proof. by destruct db. Qed.

Lemma execute_update_stock_run pid q s :
  execute_update_stock pid q s
  = (Ok (update_stock_rowcount pid q (products (store s))), send (UpdateStock pid q) s).
Proof. reflexivity. Qed.

Lemma reserve_stock_cons pid q rest s :
  reserve_stock ((pid, q) :: rest) s
  = if decide (in_stock (products (store s)) pid q)
    then reserve_stock rest (send (UpdateStock pid q) s)
    else (Raise (InsufficientStockError pid), send (UpdateStock pid q) s).
Proof.
  cbn [reserve_stock]. unfold bind at 1. rewrite execute_update_stock_run.
  destruct (decide (in_stock (products (store s)) pid q)) as [Hin|Hno].
  - rewrite (rowcount_hit _ _ _ Hin). by rewrite decide_False by (by intros ?).
  - rewrite (rowcount_miss _ _ _ Hno). by rewrite decide_True.
Qed.

Lemma reserve_set_sum p a b :
  mkProduct (name (reserve_set a p)) (price_cents (reserve_set a p))
            (stock (reserve_set a p) - b)
  = mkProduct (name p) (price_cents p) (stock p - (a + b)).
Proof. cbn. f_equal. lia. Qed.

(** X1. [fetch_prices] answers with exactly the listed IDs that the
    catalog holds, each with its current price, and omits the others; it
    sends one [SELECT] and nothing at all for an empty list; the
    session's store and its pending objects are as before. *)
Theorem fetch_prices_spec (ids : list Z) (s : Session) :
  ∃ prices : gmap Z Z,
    fetch_prices ids s
    = (Ok prices,
       mkSession (store s) (pending s)
                 (log s ++ match ids with [] => [] | _ => [SelectPrices ids] end))
    ∧ (∀ k, prices !! k
            = if decide (k ∈ ids) then price_cents <$> products (store s) !! k else None)
    ∧ (∀ k price, prices !! k = Some price →
                  k ∈ ids ∧ ∃ p, products (store s) !! k = Some p ∧ price_cents p = price).
Proof.
  destruct ids as [|i ids].
  - exists ∅. split; [|split].
    + cbn. rewrite app_nil_r. by destruct s.
    + intros k. rewrite lookup_empty. rewrite decide_False; [done|]. apply not_elem_of_nil.
    + intros k price. by rewrite lookup_empty.
  - exists (select_prices (i :: ids) (products (store s))). split; [done|]. split.
    + intros k. apply select_prices_lookup.
    + intros k price. rewrite select_prices_lookup. case_decide; [|done].
      intros Hk. split; [done|]. destruct (products (store s) !! k) as [p|]; [|done].
      exists p. split; [done|]. by injection Hk.
Qed.

(** X2. When [reserve_stock] returns, for any item list (repeated
    products included), every product's stock has gone down by the sum of
    the quantities listed for it, names and prices are as before, no row
    has appeared or gone, every listed product exists, and one update per
    item was sent in the order of the list. *)
Theorem reserve_stock_conserves (items : list (Z * Z)) (s s' : Session) :
  reserve_stock items s = (Ok tt, s') →
  (∀ k, products (store s') !! k
        = (λ p, mkProduct (name p) (price_cents p) (stock p - reserved_qty items k))
            <$> products (store s) !! k)
  ∧ Forall (λ kv, is_Some (products (store s) !! kv.1)) items
  ∧ log s' = log s ++ map (λ kv, UpdateStock kv.1 kv.2) items
  ∧ pending s' = pending s
  ∧ orders (store s') = orders (store s)
  ∧ order_items (store s') = order_items (store s).
Proof.
  revert s. induction items as [|[pid q] rest IH]; intros s Hrun.
  - injection Hrun as <-. cbn [reserved_qty map]. rewrite app_nil_r.
    split; [|by repeat split].
    intros k. destruct (products (store s) !! k) as [[n pr st]|]; [|done].
    cbn. by rewrite Z.sub_0_r.
  - rewrite reserve_stock_cons in Hrun.
    destruct (decide (in_stock (products (store s)) pid q)) as [(p & Hp & Hle)|]; [|done].
    destruct (IH _ Hrun) as (Hlook & Hex & Hlog & Hpend & Ho & Hi). clear IH.
    cbn [send store log pending run_stmt products orders order_items] in Hlook, Hex, Hlog, Hpend, Ho, Hi.
    rewrite (update_stock_hit _ _ _ p Hp Hle) in Hlook, Hex.
    split; [|split; [|split; [|by repeat split]]].
    + intros k. rewrite Hlook. cbn [reserved_qty]. destruct (decide (pid = k)) as [<-|Hne].
      * rewrite lookup_insert_eq, Hp. cbn [fmap option_fmap option_map]. f_equal.
        apply reserve_set_sum.
      * rewrite lookup_insert_ne by done. by rewrite Z.add_0_l.
    + constructor; [by exists p|]. eapply Forall_impl; [exact Hex|]. cbn.
      intros [k v]. cbn. rewrite lookup_insert. case_decide; [subst; by exists p|done].
    + rewrite Hlog. cbn [map]. by rewrite <- app_assoc.
Qed.

Lemma reserve_stock_conserves_witness :
  ∃ s', reserve_stock [(1, 2); (2, 1); (1, 3)] (SessionLocal shop) = (Ok tt, s')
        ∧ products (store s') !! 1 = Some (mkProduct "tea" 250 5).
Proof.
  eexists. split; [vm_compute; reflexivity|].
  destruct (reserve_stock_conserves [(1, 2); (2, 1); (1, 3)] (SessionLocal shop) _ eq_refl)
    as [Hlook _].
  rewrite Hlook. vm_compute. reflexivity.
Defined.

(** X3. When [reserve_stock] raises, what it raises is the 400 that names
    the product of the first item that did not find enough stock in what
    the items before it had left; the updates of those items stay applied
    in the session, the failing update changed nothing, and no update was
    sent for the items after it. *)
Theorem reserve_stock_stops (items : list (Z * Z)) (s s' : Session) (e : Exn) :
  reserve_stock items s = (Raise e, s') →
  ∃ l1 pid q l2 s1,
    items = l1 ++ (pid, q) :: l2
    ∧ reserve_stock l1 s = (Ok tt, s1)
    ∧ ¬ in_stock (products (store s1)) pid q
    ∧ e = HTTPException 400 ("insufficient stock for product " +:+ repr_int pid)
    ∧ store s' = store s1
    ∧ log s' = log s ++ map (λ kv, UpdateStock kv.1 kv.2) (l1 ++ [(pid, q)])
    ∧ pending s' = pending s.
Proof.
  revert s. induction items as [|[pid q] rest IH]; intros s Hrun; [done|].
  rewrite reserve_stock_cons in Hrun.
  destruct (decide (in_stock (products (store s)) pid q)) as [Hin|Hno].
  - destruct (IH _ Hrun) as (l1 & pid' & q' & l2 & s1 & -> & Hl1 & Hno & -> & Hst & Hlog & Hp).
    exists ((pid, q) :: l1), pid', q', l2, s1. split; [done|]. split.
    { cbn [app]. rewrite reserve_stock_cons. by rewrite decide_True. }
    repeat (split; [done|]). split; [|done].
    rewrite Hlog. cbn [send log app map]. by rewrite <- app_assoc.
  - injection Hrun as <- <-. exists [], pid, q, rest, s.
    split; [done|]. split; [done|]. split; [done|]. split; [done|].
    cbn [send store log pending run_stmt]. rewrite (update_stock_miss _ _ _ Hno).
    by rewrite db_eta.
Qed.

Lemma reserve_stock_stops_witness :
  ∃ s1 s', reserve_stock [(1, 2); (2, 4); (1, 3)] (SessionLocal shop)
           = (Raise (HTTPException 400 "insufficient stock for product 2"), s')
           ∧ store s' = store s1
           ∧ products (store s1) !! 1 = Some (mkProduct "tea" 250 8).
Proof.
  destruct (reserve_stock_stops [(1, 2); (2, 4); (1, 3)] (SessionLocal shop)
              (snd (reserve_stock [(1, 2); (2, 4); (1, 3)] (SessionLocal shop)))
              (HTTPException 400 "insufficient stock for product 2"))
    as (l1 & pid & q & l2 & s1 & Hsplit & Hl1 & _ & _ & Hst & _).
  - vm_compute. reflexivity.
  - exists s1. eexists. split; [vm_compute; reflexivity|].
    split; [exact Hst|]. rewrite <- Hst. vm_compute. reflexivity.
Defined.
End Accessor.

Section CatalogRoundTrips.
Import Orders.

Lemma alter_insert (pid : Z) (new : Product) (ps : gmap Z Product) :
  is_Some (ps !! pid) → alter (λ _, new) pid ps = <[pid := new]> ps.
Proof.
  intros [p Hp]. apply map_eq. intros k. rewrite lookup_alter, lookup_insert.
  case_decide; [subst k; by rewrite Hp|done].
Qed.

(** X4. [create_product] with a body that passes its schema and that the
    store takes (no NUL in the name, price and stock within a 32-bit
    [Integer], a key left in the sequence) stores the body under an ID that no product had, returns
    that ID with the stored values, and [get_product] on that ID then
    returns the same; every other product is as before, the order tables
    are untouched, and the key constraints still hold. With a body that
    passes the schema and that the store does not take, the request ends
    in [DataError] and the tables are as they were. *)
Theorem create_then_get (payload : ProductIn) (db : DB) :
  db_wf db →
  ProductIn_valid payload →
  (payload_fits payload ∧ fits_integer (next_product_id db) →
   ∃ pid,
     result (Catalog.get_session (Catalog.create_product payload) db)
     = Ok (pid, mkProduct (pin_name payload) (pin_price_cents payload) (pin_stock payload))
     ∧ products db !! pid = None
     ∧ result (Catalog.get_session (Catalog.get_product pid)
                 (db_after (Catalog.get_session (Catalog.create_product payload) db)))
       = Ok (pid, mkProduct (pin_name payload) (pin_price_cents payload) (pin_stock payload))
     ∧ (∀ k, k ≠ pid →
             products (db_after (Catalog.get_session (Catalog.create_product payload) db)) !! k
             = products db !! k)
     ∧ orders (db_after (Catalog.get_session (Catalog.create_product payload) db)) = orders db
     ∧ order_items (db_after (Catalog.get_session (Catalog.create_product payload) db))
       = order_items db
     ∧ db_wf (db_after (Catalog.get_session (Catalog.create_product payload) db)))
  ∧ (¬ (payload_fits payload ∧ fits_integer (next_product_id db)) →
     result (Catalog.get_session (Catalog.create_product payload) db) = Raise DataError
     ∧ products (db_after (Catalog.get_session (Catalog.create_product payload) db))
       = products db
     ∧ orders (db_after (Catalog.get_session (Catalog.create_product payload) db))
       = orders db
     ∧ order_items (db_after (Catalog.get_session (Catalog.create_product payload) db))
       = order_items db).
Proof.
  intros Hwf _. split.
  - intros Hfit. exists (next_product_id db).
    pose proof (wf_catalog_run (CreateProduct payload) db Hwf) as Hwf1.
    unfold catalog_run in Hwf1. revert Hwf1.
    rewrite catalog_create_run, decide_True by done. intros Hwf1.
    cbn [result db_after] in *.
    split; [done|]. split; [|split; [|split; [|split; [done|split; [done|done]]]]].
    + destruct Hwf as [Hp _].
      destruct (products db !! next_product_id db) as [p|] eqn:Hk; [|done].
      specialize (Hp _ _ Hk). cbn in Hp. lia.
    + rewrite catalog_get_run, decide_True by apply Hfit.
      cbn [run_stmt products]. by rewrite lookup_insert_eq.
    + intros k Hne. cbn [run_stmt products]. by rewrite lookup_insert_ne.
  - intros Hno. by rewrite catalog_create_run, decide_False.
Qed.

Lemma create_then_get_witness :
  result (Catalog.get_session (Catalog.get_product 3)
            (db_after (Catalog.get_session
                         (Catalog.create_product (mkProductIn "pot" 1200 2)) shop)))
  = Ok (3, mkProduct "pot" 1200 2).
Proof.
  destruct (create_then_get (mkProductIn "pot" 1200 2) shop) as [Hok _].
  - apply (bool_decide_unpack _). vm_compute. exact I.
  - apply (bool_decide_unpack _). vm_compute. exact I.
  - destruct Hok as (pid & Hres & _ & Hget & _).
    + apply (bool_decide_unpack _). vm_compute. exact I.
    + assert (pid = 3) as -> by (vm_compute in Hres; by injection Hres).
      exact Hget.
Defined.

(** X5. For a body that passes its schema: [update_product] on an ID
    outside the range of the key ends in [DataError] at its [SELECT]; on
    an ID of that range that is not in the
    catalog it answers 404; in both cases it sends only its [SELECT] and
    leaves the store as it was. On an existing ID, with a body that the
    store takes, it replaces name, price and stock by the body's under the
    same ID, returns them, [get_product] then reads them back, and every
    other product and both order tables are as before; with a body that
    the store does not take (and that therefore differs from the stored
    row) it ends in [DataError] and leaves the store as it was. *)
Theorem update_product_spec (pid : Z) (payload : ProductIn) (db : DB) :
  ProductIn_valid payload →
  (¬ fits_integer pid →
   Catalog.get_session (Catalog.update_product pid payload) db
   = mkResponse (Raise DataError) db [SelectProduct pid])
  ∧ (fits_integer pid →
     match products db !! pid with
     | None =>
         Catalog.get_session (Catalog.update_product pid payload) db
         = mkResponse (Raise (HTTPException 404 "not found")) db [SelectProduct pid]
     | Some p =>
         (payload_fits payload →
          result (Catalog.get_session (Catalog.update_product pid payload) db)
          = Ok (pid, mkProduct (pin_name payload) (pin_price_cents payload) (pin_stock payload))
          ∧ products (db_after (Catalog.get_session (Catalog.update_product pid payload) db))
            = <[pid := mkProduct (pin_name payload) (pin_price_cents payload)
                         (pin_stock payload)]> (products db)
          ∧ result (Catalog.get_session (Catalog.get_product pid)
                      (db_after (Catalog.get_session (Catalog.update_product pid payload) db)))
            = Ok (pid, mkProduct (pin_name payload) (pin_price_cents payload)
                         (pin_stock payload))
          ∧ orders (db_after (Catalog.get_session (Catalog.update_product pid payload) db))
            = orders db
          ∧ order_items (db_after (Catalog.get_session (Catalog.update_product pid payload) db))
            = order_items db)
         ∧ (¬ payload_fits payload →
            p ≠ mkProduct (pin_name payload) (pin_price_cents payload) (pin_stock payload) →
            result (Catalog.get_session (Catalog.update_product pid payload) db)
            = Raise DataError
            ∧ db_after (Catalog.get_session (Catalog.update_product pid payload) db) = db)
     end).
Proof.
  intros _. rewrite catalog_update_run. split.
  - intros Hpid. by rewrite decide_False.
  - intros Hpid. rewrite decide_True by done.
    destruct (products db !! pid) as [p|] eqn:Hp; [|done].
    fold (product_of payload). split.
    + intros Hfit. destruct (decide (p = product_of payload)) as [Heq|Hne].
      * cbn [result db_after]. subst p. rewrite catalog_get_run, decide_True, Hp by done.
        split; [done|]. split; [|done].
        apply map_eq. intros k. rewrite lookup_insert. case_decide; [by subst k|done].
      * rewrite decide_True by done.
        cbn [result db_after run_stmt products orders order_items].
        split; [done|]. split; [by apply alter_insert|]. split; [|done].
        rewrite catalog_get_run, decide_True by done.
        cbn [products]. by rewrite lookup_alter_eq, Hp.
    + intros Hfit Hne. rewrite decide_False by done. by rewrite decide_False.
Qed.

(** X5 at the example shop: the price of tea is raised; a price past the
    range of the column is refused and the row stays. *)
Lemma update_product_spec_witness :
  result (Catalog.get_session (Catalog.update_product 1 (mkProductIn "tea" 300 10)) shop)
  = Ok (1, mkProduct "tea" 300 10)
  ∧ result (Catalog.get_session
              (Catalog.update_product 1 (mkProductIn "tea" 3000000000 10)) shop)
    = Raise DataError
  ∧ db_after (Catalog.get_session
                (Catalog.update_product 1 (mkProductIn "tea" 3000000000 10)) shop)
    = shop.
Proof.
  assert (fits_integer 1) as H1 by (apply (bool_decide_unpack _); vm_compute; exact I).
  assert (products shop !! 1 = Some tea) as Htea by (vm_compute; reflexivity).
  split.
  - destruct (update_product_spec 1 (mkProductIn "tea" 300 10) shop) as [_ Hin].
    + apply (bool_decide_unpack _). vm_compute. exact I.
    + specialize (Hin H1). rewrite Htea in Hin. destruct Hin as [Hok _].
      destruct Hok as [Hres _]; [|exact Hres].
      apply (bool_decide_unpack _). vm_compute. exact I.
  - destruct (update_product_spec 1 (mkProductIn "tea" 3000000000 10) shop) as [_ Hin].
    + apply (bool_decide_unpack _). vm_compute. exact I.
    + specialize (Hin H1). rewrite Htea in Hin. destruct Hin as [_ Hno].
      apply Hno.
      * intros Hfit. apply (bool_decide_pack _) in Hfit. vm_compute in Hfit. exact Hfit.
      * discriminate.
Defined.

(** X6. [delete_product] on an ID outside the range of the key ends in
    [DataError]; on an ID of that range that is not in the catalog it
    answers 404; in both cases the store is as it was. On an existing ID
    it removes exactly that product: [get_product] then answers 404, the
    other products are as before, the order and item rows stay (items that
    name the product included), and an order for the product is refused as
    unknown. *)
Theorem delete_product_spec (pid : Z) (db : DB) :
  (¬ fits_integer pid →
   Catalog.get_session (Catalog.delete_product pid) db
   = mkResponse (Raise DataError) db [SelectProduct pid])
  ∧ (fits_integer pid →
     match products db !! pid with
     | None =>
         Catalog.get_session (Catalog.delete_product pid) db
         = mkResponse (Raise (HTTPException 404 "not found")) db [SelectProduct pid]
     | Some _ =>
         result (Catalog.get_session (Catalog.delete_product pid) db) = Ok tt
         ∧ products (db_after (Catalog.get_session (Catalog.delete_product pid) db))
           = delete pid (products db)
         ∧ result (Catalog.get_session (Catalog.get_product pid)
                     (db_after (Catalog.get_session (Catalog.delete_product pid) db)))
           = Raise (HTTPException 404 "not found")
         ∧ orders (db_after (Catalog.get_session (Catalog.delete_product pid) db)) = orders db
         ∧ order_items (db_after (Catalog.get_session (Catalog.delete_product pid) db))
           = order_items db
         ∧ ∀ user q,
             result (post_orders user [mkItemIn pid q]
                       (db_after (Catalog.get_session (Catalog.delete_product pid) db)))
             = Raise (HTTPException 400 ("unknown product(s): " +:+ repr_list [pid]))
     end).
Proof.
  rewrite catalog_delete_run. split.
  { intros Hpid. by rewrite decide_False. }
  intros Hpid. rewrite decide_True by done.
  destruct (products db !! pid) as [p|] eqn:Hp; [|done].
  cbn [result db_after run_stmt products orders order_items].
  split; [done|]. split; [done|]. split; [|split; [done|split; [done|]]].
  - rewrite catalog_get_run, decide_True by done. cbn [result products].
    by rewrite lookup_delete_eq.
  - intros user q. rewrite post_orders_unknown; [|done|].
    + cbn [result]. unfold UnknownProductError. do 3 f_equal.
      unfold missing_ids. cbn [combine_items fold_left combine_step dict_get dict_set
                                 in_product_id in_qty fmap list_fmap fst products].
      unfold sorted.
      replace (list_to_set [pid] ∖ dom (select_prices [pid] (delete pid (products db))))
        with ({[ pid ]} : gset Z); [by rewrite elements_singleton|].
      apply set_eq. intros k. rewrite elem_of_difference, elem_of_list_to_set,
        select_prices_dom, elem_of_intersection, elem_of_dom, list_elem_of_singleton.
      rewrite elem_of_singleton. split; [|naive_solver].
      intros ->. split; [done|]. cbn. rewrite lookup_delete_eq. by intros [[? ?] _].
    + unfold request_ids. cbn [map in_product_id distinct filter list_filter].
      intros Hall. apply Forall_cons in Hall as [[p' Hp'] _].
      cbn in Hp'. by rewrite lookup_delete_eq in Hp'.
Qed.
End CatalogRoundTrips.

Section AcrossServices.
Import Orders.

Lemma combine_items_single pid q : combine_items [mkItemIn pid q] = [(pid, q)].
Proof. reflexivity. Qed.

Lemma requested_single pid q : requested [mkItemIn pid q] pid = q.
Proof. cbn. rewrite decide_True by done. lia. Qed.

(** X7. After [update_product] has changed a product, the next order for
    it is priced at the new price and checked against the new stock: with
    an ID that the store takes and a body that passes the schema and that
    the store takes, an order of [q] units, with [q]
    at most the new stock, whose rows the store takes (the user fits
    [String(100)]; the quantity, [new price * q] and the next keys fit a
    32-bit [Integer]), succeeds with the new price as its snapshot and
    [new price * q] as its total, and leaves [new stock - q] units. *)
Theorem later_order_sees_update (db : DB) (pid q : Z) (payload : ProductIn) (user : string) :
  db_wf db →
  is_Some (products db !! pid) →
  q <= pin_stock payload →
  fits_integer pid →
  ProductIn_valid payload →
  payload_fits payload →
  fits_string USER_ID_WIDTH user →
  fits_integer q →
  fits_integer (pin_price_cents payload * q) →
  fits_integer (next_order_id db) →
  fits_integer (next_item_id db) →
  result (post_orders user [mkItemIn pid q]
            (db_after (Catalog.get_session (Catalog.update_product pid payload) db)))
  = Ok (mkOrderOut (next_order_id db) user (pin_price_cents payload * q)
          [mkItemOut pid q (pin_price_cents payload)])
  ∧ products (db_after
                (post_orders user [mkItemIn pid q]
                   (db_after (Catalog.get_session (Catalog.update_product pid payload) db))))
      !! pid
    = Some (mkProduct (pin_name payload) (pin_price_cents payload) (pin_stock payload - q)).
Proof.
  intros Hwf [p Hp] Hq Hpid _ Hfit Hu Hfq Hft Hfo Hfi.
  pose proof (wf_catalog_run (PutProduct pid payload) db Hwf) as Hwf1.
  destruct (catalog_run_orders (PutProduct pid payload) db) as (_ & _ & Hno & Hni).
  unfold catalog_run in Hwf1, Hno, Hni.
  set (new := mkProduct (pin_name payload) (pin_price_cents payload) (pin_stock payload)).
  set (db1 := db_after (Catalog.get_session (Catalog.update_product pid payload) db)) in *.
  assert (products db1 !! pid = Some new) as Hnew.
  { subst db1. rewrite catalog_update_run, decide_True, Hp by done.
    destruct (decide (p = product_of payload)) as [->|Hne]; [done|].
    rewrite decide_True by done. cbn [db_after run_stmt products].
    by rewrite lookup_alter_eq, Hp. }
  assert (in_stock (products db1) pid q) as Hin by (by exists new).
  assert (price_of (select_prices [pid] (products db1)) pid = pin_price_cents payload) as Hprice.
  { unfold price_of. rewrite select_prices_lookup, decide_True by apply list_elem_of_here.
    by rewrite Hnew. }
  rewrite (post_orders_placed user [mkItemIn pid q] db1 Hwf1); [|done| |].
  2:{ unfold request_ids. cbn [map in_product_id distinct filter list_filter].
      constructor; [|constructor]. by rewrite requested_single. }
  2:{ unfold rows_fit. rewrite combine_items_single. cbv zeta.
      cbn [fmap list_fmap fst snd order_total foldr new_rows map length].
      rewrite Hprice, Hno, Hni. destruct Hfit as (_ & Hfp & _).
      split; [done|]. split; [by rewrite Z.add_0_r|]. split.
      - constructor; [|constructor]. unfold row_fits. cbn [fst snd]. done.
      - split; [done|]. by replace (next_item_id db + Z.of_nat 1 - 1) with (next_item_id db) by lia. }
  cbn [result db_after]. unfold placed_out, placed_db.
  rewrite combine_items_single.
  cbn [fmap list_fmap fst snd opened send SessionLocal store run_stmt products next_order_id
       order_total items_out foldr map reserve_all fold_left].
  rewrite Hprice, Hno. split.
  - do 2 f_equal. lia.
  - rewrite (update_stock_hit _ _ _ new Hnew Hq). by rewrite lookup_insert_eq.
Qed.

Lemma later_order_sees_update_witness :
  result (post_orders "ann" [mkItemIn 1 4]
            (db_after (Catalog.get_session
                         (Catalog.update_product 1 (mkProductIn "tea" 300 4)) busy_shop)))
  = Ok (mkOrderOut 4 "ann" 1200 [mkItemOut 1 4 300]).
Proof.
  destruct (later_order_sees_update busy_shop 1 4 (mkProductIn "tea" 300 4) "ann")
    as [Hres _].
  - apply (bool_decide_unpack _). vm_compute. exact I.
  - by exists tea.
  - vm_compute. discriminate.
  - apply (bool_decide_unpack _). vm_compute. exact I.
  - apply (bool_decide_unpack _). vm_compute. exact I.
  - apply (bool_decide_unpack _). vm_compute. exact I.
  - apply (bool_decide_unpack _). vm_compute. exact I.
  - apply (bool_decide_unpack _). vm_compute. exact I.
  - apply (bool_decide_unpack _). vm_compute. exact I.
  - apply (bool_decide_unpack _). vm_compute. exact I.
  - apply (bool_decide_unpack _). vm_compute. exact I.
  - exact Hres.
Defined.
End AcrossServices.

Section StoredOrders.
Import Orders.

Lemma rows_total_item_rows first oid prices combined :
  rows_total (item_rows first oid prices combined) = order_total prices combined.
Proof.
  revert first. induction combined as [|kv rest IH]; intros first; [done|].
  cbn [item_rows rows_total foldr order_total qty item_price_cents].
  fold (rows_total (item_rows (first + 1) oid prices rest)).
  fold (order_total prices rest). rewrite IH. lia.
Qed.

Lemma lines_total_item_out rows : lines_total (map item_out rows) = rows_total rows.
Proof.
  induction rows as [|i rows IH]; [done|].
  cbn [map lines_total rows_total foldr item_out out_qty out_price_cents].
  fold (lines_total (map item_out rows)). fold (rows_total rows). by rewrite IH.
Qed.

Lemma totals_placed user items db :
  db_wf db → totals_consistent db →
  totals_consistent (placed_db user items (store (opened db))).
Proof.
  intros Hwf Htot. pose proof (wf_orders_below db Hwf) as Hbelow.
  unfold totals_consistent, placed_db, opened, send, SessionLocal.
  cbn [store run_stmt orders order_items next_order_id next_item_id products].
  apply Forall_app. split.
  - unfold totals_consistent in Htot. rewrite Forall_forall in Htot, Hbelow |- *.
    intros o Ho. rewrite filter_app, filter_item_rows_other, app_nil_r.
    + by apply Htot.
    + specialize (Hbelow o Ho). cbn in Hbelow. lia.
  - constructor; [|constructor]. cbn [id total_cents].
    rewrite filter_app, (filter_items_fresh _ _ (wf_items_below db Hwf)). cbn [app].
    by rewrite filter_item_rows, rows_total_item_rows.
Qed.

Lemma totals_step db db' :
  step db db' → db_wf db → totals_consistent db → totals_consistent db'.
Proof.
  destruct 1 as [op db Hop|user items db|user db|pid q db|np no ni db Hnp Hno Hni];
    intros Hwf Htot.
  - destruct (catalog_run_orders op db) as (Ho & Hi & _).
    unfold totals_consistent. by rewrite Ho, Hi.
  - destruct (post_orders_outcome user items db Hwf) as [(e & _ & ->)|(_ & _ & _ & ->)];
      [done|].
    by apply totals_placed.
  - by rewrite get_orders_me_run.
  - done.
  - done.
Qed.

Lemma same_catalog_price_nonneg ps ps' :
  same_catalog ps ps' → price_nonneg ps → price_nonneg ps'.
Proof.
  intros Hs Hnn k p' Hk. specialize (Hs k). rewrite Hk in Hs.
  destruct (ps !! k) as [p|] eqn:Hp; [|done]. destruct Hs as [_ ->]. by apply (Hnn k).
Qed.

Lemma price_step db db' :
  step db db' → price_nonneg (products db) → price_nonneg (products db').
Proof.
  destruct 1 as [op db Hop|user items db|user db|pid q db|np no ni db Hnp Hno Hni];
    intros Hnn.
  5:{ done. }
  - destruct op; cbn in Hop.
    + by rewrite catalog_run_list.
    + rewrite catalog_run_create. case_decide; [|done].
      cbn. intros k p. rewrite lookup_insert.
      case_decide; [|apply Hnn]. intros [= <-]. cbn. apply Hop.
    + destruct (catalog_run_put pid payload db) as [->| ->]; [|done].
      destruct (products db !! pid) eqn:Hpid; [|done]. case_decide; [|done].
      cbn. intros k p'. rewrite lookup_alter. case_decide; [subst k|apply Hnn].
      rewrite Hpid. intros [= <-]. cbn. apply Hop.
    + rewrite catalog_run_remove. destruct (products db !! pid) eqn:Hpid; [|done].
      case_decide; [|done].
      cbn. intros k p'. rewrite lookup_delete. case_decide; [done|apply Hnn].
  - destruct (get_session_traced (create_order items user) db) as [Hok Hdb].
    { apply traced_create_order. }
    fold (post_orders user items db) in Hok, Hdb.
    destruct (result (post_orders user items db)); rewrite Hdb; [|done].
    eapply same_catalog_price_nonneg; [|exact Hnn]. by apply replay_same_catalog.
  - by rewrite get_orders_me_run.
  - eapply same_catalog_price_nonneg; [|exact Hnn]. apply same_catalog_update_stock.
Qed.

Lemma reachable_orders db :
  reachable db → totals_consistent db ∧ price_nonneg (products db).
Proof.
  unfold reachable. revert db.
  apply (rtc_ind_r (λ db, totals_consistent db ∧ price_nonneg (products db))).
  - split; [constructor|]. intros k p Hk. cbn in Hk. by rewrite lookup_empty in Hk.
  - intros mid db Hmid Hlast [Htot Hnn]. split.
    + eapply totals_step; [done| |done]. by apply reachable_inv.
    + by eapply price_step.
Qed.

(** X8. In every store that the two services can reach, every order row
    holds as [total_cents] the sum of [qty * price_cents] over the item
    rows that reference it, and every entry of every listing shows a
    total equal to the sum over its own items. *)
Theorem stored_totals_consistent (db : DB) :
  reachable db →
  Forall (λ o, total_cents o
               = rows_total (filter (λ i, order_id i = id o) (order_items db))) (orders db)
  ∧ ∀ user outs,
      result (get_orders_me user db) = Ok outs →
      Forall (λ out, out_total_cents out = lines_total (out_items out)) outs.
Proof.
  intros Hr. destruct (reachable_orders db Hr) as [Htot _]. split; [exact Htot|].
  intros user outs. rewrite get_orders_me_run. cbn [result]. intros Hres.
  injection Hres as <-.
  apply Forall_fmap, Forall_forall. intros o Ho. cbn.
  apply elem_of_listed in Ho as [Ho _]. unfold totals_consistent in Htot.
  rewrite Forall_forall in Htot. rewrite (Htot o Ho). by rewrite lines_total_item_out.
Qed.

Lemma stored_totals_consistent_witness :
  ∃ outs,
    result (get_orders_me "ann" (db_after (post_orders "ann" [mkItemIn 1 2; mkItemIn 2 1] shop)))
    = Ok outs
    ∧ Forall (λ out, out_total_cents out = lines_total (out_items out)) outs.
Proof.
  eexists. split; [vm_compute; reflexivity|].
  destruct (stored_totals_consistent
              (db_after (post_orders "ann" [mkItemIn 1 2; mkItemIn 2 1] shop))) as [_ Hlist].
  - eapply rtc_r; [apply shop_reachable|]. apply step_post_orders.
  - apply (Hlist "ann"). vm_compute. reflexivity.
Defined.

(** X9. An order placed by one user never shows in, and never changes,
    the listing of another user: whatever the outcome of the request, the
    other user's listing is the same before and after. *)
Theorem other_listings_untouched (db : DB) (u v : string) (items : list OrderItemIn) :
  db_wf db →
  u ≠ v →
  result (get_orders_me v (db_after (post_orders u items db)))
  = result (get_orders_me v db).
Proof.
  intros Hwf Hne. pose proof (wf_orders_below db Hwf) as Hbelow.
  destruct (post_orders_outcome u items db Hwf) as [(e & _ & ->)|(_ & _ & _ & ->)]; [done|].
  cbn [db_after]. rewrite !get_orders_me_run. cbn [result]. f_equal.
  unfold listed, placed_db, opened, send, SessionLocal.
  cbn [store run_stmt orders order_items next_order_id next_item_id products].
  rewrite filter_app, filter_cons, decide_False by done. rewrite filter_nil, app_nil_r.
  fold (listed v db). apply map_ext_in. intros o Ho.
  apply list_elem_of_In, elem_of_listed in Ho as [Ho _].
  unfold order_out. do 2 f_equal.
  rewrite filter_app, filter_item_rows_other, app_nil_r; [done|].
  rewrite Forall_forall in Hbelow. specialize (Hbelow o Ho). cbn in Hbelow. lia.
Qed.

Lemma other_listings_untouched_witness :
  result (get_orders_me "bob" (db_after (post_orders "ann" [mkItemIn 1 2] busy_shop)))
  = Ok [mkOrderOut 1 "bob" 900 [mkItemOut 2 1 900]].
Proof.
  rewrite (other_listings_untouched busy_shop "ann" "bob" [mkItemIn 1 2]).
  - vm_compute. reflexivity.
  - apply (bool_decide_unpack _). vm_compute. exact I.
  - discriminate.
Defined.

Lemma order_total_nonneg prices combined :
  (∀ k price, prices !! k = Some price → 0 <= price) →
  Forall (λ kv : Z * Z, 1 <= kv.2) combined →
  0 <= order_total prices combined.
Proof.
  intros Hpr. induction 1 as [|kv rest Hkv _ IH]; [done|].
  cbn [order_total foldr]. fold (order_total prices rest).
  assert (0 <= price_of prices kv.1); [|nia].
  unfold price_of. destruct (prices !! kv.1) as [price|] eqn:Hk; [|done]. by apply (Hpr kv.1).
Qed.

(** X10. In every reachable store, an order whose body passes the schema
    ([product_id >= 1], [qty >= 1], at least one item) and that succeeds
    has a non-negative total, and each of its items has a product ID and
    a quantity of at least one and a non-negative price. *)
Theorem valid_order_amounts (db : DB) (user : string) (items : list OrderItemIn)
    (out : OrderOut) :
  reachable db →
  OrderCreate_valid items →
  result (post_orders user items db) = Ok out →
  0 <= out_total_cents out
  ∧ Forall (λ i, 1 <= out_product_id i ∧ 1 <= out_qty i ∧ 0 <= out_price_cents i)
      (out_items out).
Proof.
  intros Hr Hvalid Hres.
  destruct (reachable_inv db Hr) as [Hwf _]. destruct (reachable_orders db Hr) as [_ Hnn].
  destruct (valid_request_merged items Hvalid) as [_ Hm].
  destruct (post_orders_outcome user items db Hwf) as [(e & Hc & _)|(_ & _ & _ & Hc)];
    rewrite Hc in Hres; [discriminate Hres|].
  cbn [result] in Hres. injection Hres as <-.
  unfold placed_out. cbn [out_total_cents out_items].
  set (prices := select_prices _ _).
  assert (∀ k price, prices !! k = Some price → 0 <= price) as Hpr.
  { intros k price. subst prices. rewrite select_prices_lookup. case_decide; [|done].
    cbn [opened send SessionLocal store run_stmt products].
    destruct (products db !! k) as [p|] eqn:Hk; [|done]. intros [= <-]. by apply (Hnn k). }
  split.
  - apply order_total_nonneg; [done|]. eapply Forall_impl; [exact Hm|]. by intros kv [_ ?].
  - unfold items_out. apply Forall_fmap. eapply Forall_impl; [exact Hm|].
    intros kv [H1 H2]. cbn. repeat split; [done|done|].
    unfold price_of. destruct (prices !! kv.1) as [price|] eqn:Hk; [|done]. by apply (Hpr kv.1).
Qed.

Lemma valid_order_amounts_witness :
  ∃ out, result (post_orders "ann" [mkItemIn 1 2; mkItemIn 1 1] shop) = Ok out
         ∧ 0 <= out_total_cents out.
Proof.
  eexists. split; [vm_compute; reflexivity|].
  eapply (valid_order_amounts shop "ann" [mkItemIn 1 2; mkItemIn 1 1]).
  - apply shop_reachable.
  - split; [cbn; lia|]. repeat constructor; cbn; lia.
  - vm_compute. reflexivity.
Defined.

Lemma requested_perm items items' k :
  items ≡ₚ items' → requested items k = requested items' k.
Proof.
  induction 1 as [|it l l' _ IH|a b l|l1 l2 l3 _ IH1 _ IH2]; cbn [requested];
    [done|by rewrite IH|lia|congruence].
Qed.

Lemma request_ids_perm items items' :
  items ≡ₚ items' → request_ids items ≡ₚ request_ids items'.
Proof.
  intros Hp. apply NoDup_Permutation; [apply NoDup_distinct..|].
  intros k. unfold request_ids. rewrite !elem_of_distinct. by rewrite Hp.
Qed.

Lemma select_prices_perm ids ids' ps :
  ids ≡ₚ ids' → select_prices ids ps = select_prices ids' ps.
Proof.
  intros Hp. apply map_eq. intros k. rewrite !select_prices_lookup.
  destruct (decide (k ∈ ids)) as [Hin|Hnin].
  - rewrite decide_True; [done|]. by rewrite <- Hp.
  - rewrite decide_False; [done|]. by rewrite <- Hp.
Qed.

Lemma order_total_perm prices combined combined' :
  combined ≡ₚ combined' → order_total prices combined = order_total prices combined'.
Proof.
  unfold order_total.
  induction 1 as [|kv l l' _ IH|a b l|l1 l2 l3 _ IH1 _ IH2]; cbn [foldr];
    [done|by rewrite IH|lia|congruence].
Qed.

Lemma combine_items_perm items items' :
  items ≡ₚ items' → combine_items items ≡ₚ combine_items items'.
Proof.
  intros Hp. rewrite !combine_items_spec.
  rewrite (map_ext _ (λ k, (k, requested items' k))).
  - apply Permutation_map. by apply request_ids_perm.
  - intros k. by rewrite (requested_perm items items' k Hp).
Qed.

Lemma catalog_total_perm ps items items' :
  items ≡ₚ items' → catalog_total ps items = catalog_total ps items'.
Proof.
  intros Hp. rewrite <- !order_total_catalog, <- !combine_items_spec.
  rewrite (select_prices_perm _ _ ps (request_ids_perm items items' Hp)).
  apply order_total_perm. by apply combine_items_perm.
Qed.

Lemma order_fits_perm db user items items' :
  items ≡ₚ items' → order_fits db user items → order_fits db user items'.
Proof.
  intros Hp (Hu & Ho & Ht & Hr & Hi1 & Hi2). unfold order_fits.
  rewrite <- (catalog_total_perm _ _ _ Hp).
  rewrite <- (Permutation_length (request_ids_perm items items' Hp)).
  repeat (split; [done|]). split; [|done].
  rewrite Forall_forall in Hr. rewrite Forall_forall. intros k Hk.
  rewrite <- (request_ids_perm items items' Hp) in Hk.
  rewrite <- (requested_perm items items' k Hp). by apply Hr.
Qed.

(** X11. The order of the items of a request matters only for the order
    of the answer: a request and any reordering of it, when stock
    suffices and the store takes the rows of the order, both succeed, get
    the same order ID and the same total, the same items up to their
    order, and leave the same stock. *)
Theorem reordered_request (db : DB) (user : string) (items items' : list OrderItemIn) :
  db_wf db →
  items ≡ₚ items' →
  items ≠ [] →
  Forall (λ it, in_stock (products db) (in_product_id it)
                  (requested items (in_product_id it))) items →
  order_fits db user items →
  ∃ out out',
    result (post_orders user items db) = Ok out
    ∧ result (post_orders user items' db) = Ok out'
    ∧ out_id out' = out_id out
    ∧ out_total_cents out' = out_total_cents out
    ∧ out_items out' ≡ₚ out_items out
    ∧ products (db_after (post_orders user items' db))
      = products (db_after (post_orders user items db)).
Proof.
  intros Hwf Hperm Hne Hstock Hfit.
  pose proof (order_fits_perm _ _ _ _ Hperm Hfit) as Hfit'.
  apply order_fits_rows in Hfit. apply order_fits_rows in Hfit'.
  apply (Forall_request_ids (λ k, in_stock (products db) k (requested items k))) in Hstock.
  assert (items' ≠ []) as Hne'.
  { intros ->. by apply Permutation_nil_r in Hperm. }
  assert (Forall (λ k, in_stock (products db) k (requested items' k)) (request_ids items'))
    as Hstock'.
  { rewrite <- (request_ids_perm items items' Hperm).
    eapply Forall_impl; [exact Hstock|]. intros k. cbn.
    by rewrite (requested_perm items items' k Hperm). }
  rewrite (post_orders_placed user items db Hwf Hne Hstock Hfit).
  rewrite (post_orders_placed user items' db Hwf Hne' Hstock' Hfit').
  eexists _, _. split; [done|]. split; [done|].
  cbn [db_after placed_db placed_out out_id out_total_cents out_items products].
  pose proof (combine_items_perm items items' Hperm) as Hc.
  assert (select_prices (combine_items items').*1 (products (store (opened db)))
          = select_prices (combine_items items).*1 (products (store (opened db)))) as Hpr.
  { apply select_prices_perm. by rewrite Hc. }
  rewrite Hpr. split; [done|]. split; [by apply order_total_perm|].
  split; [unfold items_out; by apply Permutation_map|].
  cbn [opened send SessionLocal store run_stmt products].
  apply map_eq. intros k.
  destruct (decide (k ∈ request_ids items)) as [Hin|Hnin].
  - rewrite Forall_forall in Hstock. destruct (Hstock k Hin) as (p & Hp & Hle).
    rewrite (reserve_all_lookup_in _ _ k (requested items k) p);
      [|apply combine_items_NoDup| |done|done].
    + rewrite (reserve_all_lookup_in _ _ k (requested items k) p);
        [done|apply combine_items_NoDup| |done|done].
      rewrite combine_items_spec. apply list_elem_of_fmap. by exists k.
    + rewrite combine_items_spec. apply list_elem_of_fmap. exists k.
      split; [by rewrite (requested_perm items items' k Hperm)|].
      by rewrite <- (request_ids_perm items items' Hperm).
  - rewrite !reserve_all_lookup_notin; [done|by rewrite combine_items_keys|].
    rewrite combine_items_keys. by rewrite <- (request_ids_perm items items' Hperm).
Qed.

Lemma reordered_request_witness :
  ∃ out out',
    result (post_orders "ann" [mkItemIn 1 2; mkItemIn 2 1; mkItemIn 1 3] shop) = Ok out
    ∧ result (post_orders "ann" [mkItemIn 2 1; mkItemIn 1 3; mkItemIn 1 2] shop) = Ok out'
    ∧ out_total_cents out' = out_total_cents out.
Proof.
  destruct (reordered_request shop "ann" [mkItemIn 1 2; mkItemIn 2 1; mkItemIn 1 3]
              [mkItemIn 2 1; mkItemIn 1 3; mkItemIn 1 2])
    as (out & out' & H1 & H2 & _ & Htot & _).
  - apply (bool_decide_unpack _). vm_compute. exact I.
  - apply (Permutation_cons_append [mkItemIn 2 1; mkItemIn 1 3] (mkItemIn 1 2)).
  - discriminate.
  - apply (bool_decide_unpack _). vm_compute. exact I.
  - apply (bool_decide_unpack _). vm_compute. exact I.
  - by exists out, out'.
Defined.
End StoredOrders.

Section CountersOfCreateOrder.
Import Orders.

Lemma bind_ext {A B} (m : M A) (k k' : A → M B) s :
  (∀ a s', k a s' = k' a s') → bind m k s = bind m k' s.
Proof. intros Hk. unfold bind. by destruct (m s) as [[a|e] s']. Qed.

Lemma bind_assoc {A B C} (m : M A) (k : A → M B) (h : B → M C) s :
  bind (bind m k) h s = bind m (λ a, bind (k a) h) s.
Proof. unfold bind. by destruct (m s) as [[a|e] s']. Qed.

Lemma create_order_unfold items user s :
  create_order items user s
  = match items with
    | [] => raise (HTTPException 400 "items must not be empty")
    | _ =>
        bind (fetch_prices (combine_items items).*1)
          (λ prices,
             if decide (size prices ≠ length (combine_items items).*1)
             then raise (HTTPException 400
                           ("unknown product(s): " +:+
                            repr_list (sorted (list_to_set (combine_items items).*1
                                               ∖ dom prices))))
             else bind (reserve_stock (combine_items items))
                    (λ _, bind (persist_order user prices (combine_items items))
                            (λ r, bind (load_items r.1)
                                    (λ its, ret (mkOrderOut (id r.2) (user_id r.2)
                                                   (total_cents r.2) (map item_out its))))))
    end s.
Proof.
  unfold create_order. destruct items as [|it items]; [done|].
  apply bind_ext. intros prices s1. case_decide; [done|].
  apply bind_ext. intros _ s2.
  symmetry. unfold persist_order.
  rewrite bind_assoc. apply bind_ext. intros oid s3.
  rewrite bind_assoc. apply bind_ext. intros total s4.
  rewrite bind_assoc. apply bind_ext. intros _ s5.
  rewrite bind_assoc. apply bind_ext. intros _ s6.
  rewrite bind_assoc. apply bind_ext. intros order s7.
  reflexivity.
Qed.

Lemma load_items_run oid s :
  load_items oid s
  = (Ok (filter (λ i, order_id i = oid) (order_items (store s))),
     mkSession (store s) (pending s) (log s ++ [SelectOrderItems oid])).
Proof. reflexivity. Qed.

Lemma create_order_counted_erase items user c s :
  (create_order_counted items user c s).1 = create_order items user s.
Proof.
  rewrite create_order_unfold. unfold create_order_counted. cbv zeta.
  destruct items as [|it items]; [done|].
  unfold bind, raise. destruct (fetch_prices _ s) as [[prices|e] s1]; [|done].
  case_decide; [done|].
  destruct (reserve_stock _ s1) as [[[]|e] s2].
  - destruct (persist_order _ _ _ s2) as [[[oid order]|e] s3]; [|done].
    cbn [fst snd]. by destruct (load_items oid s3) as [[its|e] s4].
  - by destruct e.
Qed.

Lemma post_orders_counted_erase user items c db :
  (post_orders_counted user items c db).1 = post_orders user items db.
Proof.
  unfold post_orders_counted, post_orders, get_session. fold (opened db).
  rewrite <- (create_order_counted_erase items user c (opened db)).
  by destruct (create_order_counted items user c (opened db)) as [[r s'] c'].
Qed.

Lemma counted_refused user items c st lg :
  items ≠ [] →
  Forall (λ o, id o < next_order_id st) (orders st) →
  Forall (λ k, in_stock (products st) k (requested items k)) (request_ids items) →
  ¬ rows_fit user items st →
  (create_order_counted items user c (mkSession st [] lg)).2 = c.
Proof.
  intros Hne Hos Hstock Hfit.
  destruct (create_order_refused user items st lg Hne Hos Hstock Hfit) as (s' & Hrun & _).
  rewrite <- (create_order_counted_erase items user c) in Hrun.
  unfold create_order_counted in Hrun |- *. cbv zeta in Hrun |- *.
  destruct items as [|it0 items0] eqn:Eitems; [done|]. rewrite <- Eitems in *.
  clear Eitems it0 items0.
  destruct (fetch_prices _ _) as [[prices|e] s1]; [|done].
  case_decide; [done|].
  destruct (reserve_stock _ s1) as [[[]|e] s2]; [|by destruct e].
  destruct (persist_order _ _ _ s2) as [[[oid order]|e] s3]; [|done].
  rewrite load_items_run in Hrun. done.
Qed.

Lemma counted_placed user items c st lg :
  items ≠ [] →
  Forall (λ o, id o < next_order_id st) (orders st) →
  Forall (λ i, order_id i < next_order_id st) (order_items st) →
  Forall (λ k, in_stock (products st) k (requested items k)) (request_ids items) →
  rows_fit user items st →
  (create_order_counted items user c (mkSession st [] lg)).2 = inc_created c.
Proof.
  intros Hne Hos His Hstock Hfit.
  pose proof (create_order_placed user items st lg Hne Hos His Hstock Hfit) as Hrun.
  rewrite <- (create_order_counted_erase items user c) in Hrun.
  unfold create_order_counted in Hrun |- *. cbv zeta in Hrun |- *.
  destruct items as [|it0 items0] eqn:Eitems; [done|]. rewrite <- Eitems in *.
  clear Eitems it0 items0.
  destruct (fetch_prices _ _) as [[prices|e] s1]; [|done].
  case_decide; [done|].
  destruct (reserve_stock _ s1) as [[[]|e] s2]; [|by destruct e].
  destruct (persist_order _ _ _ s2) as [[[oid order]|e] s3]; [|done].
  by destruct (load_items oid s3) as [[its|e] s4].
Qed.

Lemma counted_unknown user items c st lg :
  items ≠ [] →
  ¬ Forall (λ k, is_Some (products st !! k)) (request_ids items) →
  (create_order_counted items user c (mkSession st [] lg)).2 = inc_failed "missing_product" c.
Proof.
  intros Hne Hex. unfold create_order_counted. cbv zeta.
  destruct items as [|it0 items0] eqn:Eitems; [done|]. rewrite <- Eitems in *.
  clear Eitems it0 items0.
  rewrite fetch_prices_run.
  2:{ rewrite combine_items_keys. by rewrite request_ids_nil. }
  rewrite decide_True; [done|].
  intros Hsz. apply Hex. rewrite <- combine_items_keys.
  apply select_prices_size; [apply combine_items_NoDup|done].
Qed.

Lemma counted_short user items c st lg :
  Forall (λ k, is_Some (products st !! k)) (request_ids items) →
  ¬ Forall (λ k, in_stock (products st) k (requested items k)) (request_ids items) →
  (create_order_counted items user c (mkSession st [] lg)).2
  = inc_failed "insufficient_stock" c.
Proof.
  intros Hex Hno. unfold create_order_counted. cbv zeta.
  destruct items as [|it0 items0] eqn:Eitems; [by destruct Hno; constructor|].
  rewrite <- Eitems in *. clear Eitems it0 items0.
  rewrite fetch_prices_run.
  2:{ rewrite combine_items_keys, request_ids_nil. intros ->. apply Hno. constructor. }
  rewrite decide_False.
  2:{ intros Hsz. apply Hsz. apply select_prices_size; [apply combine_items_NoDup|].
      by rewrite combine_items_keys. }
  apply first_failure in Hno as (l1 & pid & l2 & Hsplit & Hl1 & Hpid); [|apply _].
  set (f := λ k : Z, (k, requested items k)).
  assert (combine_items items = map f l1 ++ (pid, requested items pid) :: map f l2) as Hc.
  { by rewrite combine_items_spec, Hsplit, map_app. }
  pose proof (combine_items_NoDup items) as Hnd. rewrite Hc in Hnd.
  destruct (reserve_stock_short (map f l1) pid (requested items pid) (map f l2) st
              (lg ++ [SelectPrices (combine_items items).*1]))
    as (s' & Hrun & _); [exact Hnd|by apply Forall_fmap|exact Hpid|].
  rewrite <- Hc in Hrun. by rewrite Hrun.
Qed.

Lemma post_orders_counted_counters user items c db :
  (post_orders_counted user items c db).2 = (create_order_counted items user c (opened db)).2.
Proof.
  unfold post_orders_counted.
  by destruct (create_order_counted items user c (opened db)) as [[r s'] c'].
Qed.

(** X12. The counters of [create_order] follow the outcome of the
    request and are not part of its transaction: the response is the one
    of the request without counters; a success adds one to
    [orders_created_total] only; an unknown product adds one to
    [order_create_failures_total{reason="missing_product"}] only; a short
    stock adds one to the same counter with [reason="insufficient_stock"]
    only; an empty item list is rejected without touching any counter;
    and so is a request whose products are in stock but whose rows the
    store does not take, because the flush raises [DataError] before
    [ORDERS_CREATED.inc()] is reached. *)
Theorem counters_follow_outcome (db : DB) (user : string) (items : list OrderItemIn)
    (c : Counters) :
  db_wf db →
  (post_orders_counted user items c db).1 = post_orders user items db
  ∧ (post_orders_counted user items c db).2
    = match items with
      | [] => c
      | _ =>
          if decide (Forall (λ k, is_Some (products db !! k)) (request_ids items))
          then if decide (Forall (λ k, in_stock (products db) k (requested items k))
                            (request_ids items))
               then if decide (order_fits db user items) then inc_created c else c
               else inc_failed "insufficient_stock" c
          else inc_failed "missing_product" c
      end.
Proof.
  intros Hwf. split; [apply post_orders_counted_erase|].
  rewrite post_orders_counted_counters.
  destruct items as [|it0 items0] eqn:Eitems; [done|]. rewrite <- Eitems in *.
  assert (items ≠ []) as Hne by (by subst items). clear Eitems it0 items0.
  unfold opened, send, SessionLocal. cbn [store pending log app].
  set (st0 := run_stmt (CreateSchemaIfNotExists DB_SCHEMA) db).
  change (products db) with (products st0).
  destruct (decide (Forall (λ k, is_Some (products st0 !! k)) (request_ids items)))
    as [Hex|Hex]; [|by apply counted_unknown].
  destruct (decide (Forall (λ k, in_stock (products st0) k (requested items k))
                      (request_ids items))) as [Hall|Hno]; [|by apply counted_short].
  destruct (decide (order_fits db user items)) as [Hfit|Hfit].
  - apply order_fits_rows in Hfit. apply counted_placed; [done| | |done|done].
    + by apply wf_orders_below.
    + by apply wf_items_below.
  - apply counted_refused; [done| |done|].
    + by apply wf_orders_below.
    + intros Hr. apply Hfit. by apply order_fits_rows.
Qed.

Lemma counters_follow_outcome_witness :
  failed_count "missing_product"
    (post_orders_counted "ann" [mkItemIn 9 1] (mkCounters 0 ∅) shop).2 = 1
  ∧ orders_created (post_orders_counted "ann" [mkItemIn 1 1] (mkCounters 0 ∅) shop).2 = 1
  ∧ (post_orders_counted "ann" [] (mkCounters 0 ∅) shop).2 = mkCounters 0 ∅.
Proof.
  assert (db_wf shop) as Hwf by (apply (bool_decide_unpack _); vm_compute; exact I).
  split; [|split].
  - destruct (counters_follow_outcome shop "ann" [mkItemIn 9 1] (mkCounters 0 ∅) Hwf)
      as [_ ->]. vm_compute. reflexivity.
  - destruct (counters_follow_outcome shop "ann" [mkItemIn 1 1] (mkCounters 0 ∅) Hwf)
      as [_ ->]. vm_compute. reflexivity.
  - destruct (counters_follow_outcome shop "ann" [] (mkCounters 0 ∅) Hwf) as [_ ->].
    reflexivity.
Defined.
End CountersOfCreateOrder.

Section RoutePrefix.

Lemma lstrip_head f s c : head (lstrip f s) = Some c → f c = false.
Proof.
  induction s as [|x s IH]; [done|]. cbn [lstrip].
  destruct (f x) eqn:Hx; [done|]. by intros [= <-].
Qed.

Lemma lstrip_suffix f s : ∃ k, s = k ++ lstrip f s.
Proof.
  induction s as [|x s [k IH]]; [by exists []|]. cbn [lstrip]. destruct (f x).
  - exists (x :: k). cbn. by f_equal.
  - by exists [].
Qed.

Lemma lstrip_id f s : (∀ c, head s = Some c → f c = false) → lstrip f s = s.
Proof. destruct s as [|x s]; [done|]. intros H. cbn. by rewrite (H x). Qed.

Lemma rstrip_last f s c : last (rstrip f s) = Some c → f c = false.
Proof. unfold rstrip. rewrite last_reverse. apply lstrip_head. Qed.

Lemma rstrip_prefix f s : ∃ k, s = rstrip f s ++ k.
Proof.
  unfold rstrip. destruct (lstrip_suffix f (reverse s)) as [k Hk].
  exists (reverse k). rewrite <- reverse_app, <- Hk. by rewrite reverse_involutive.
Qed.

Lemma rstrip_id f s : (∀ c, last s = Some c → f c = false) → rstrip f s = s.
Proof.
  intros H. unfold rstrip. rewrite lstrip_id; [apply reverse_involutive|].
  intros c. rewrite head_reverse. apply H.
Qed.

Lemma rstrip_head f s c : head s = Some c → rstrip f s = [] ∨ head (rstrip f s) = Some c.
Proof.
  intros Hs. destruct (rstrip_prefix f s) as [k Hk].
  destruct (rstrip f s) as [|x r]; [by left|]. right.
  rewrite Hk in Hs. by cbn in Hs |- *.
Qed.

(** X13. The route prefix of the catalog is always one that the router
    accepts: it is empty, or it starts with a slash and does not end with
    one. An unset or blank variable gives the empty prefix; a value that
    already starts with a slash and ends with neither a slash nor white
    space is taken as it is; a value without white space at its ends that
    starts and ends with other characters gets one slash put in front. *)
Theorem api_prefix_normal (env : option (list N)) :
  (API_PREFIX env = []
   ∨ head (API_PREFIX env) = Some slash
     ∧ ∃ c, last (API_PREFIX env) = Some c ∧ c ≠ slash)
  ∧ (strip (default [] env) = [] → API_PREFIX env = [])
  ∧ (∀ p c, env = Some p → head p = Some slash → last p = Some c →
            c ≠ slash → isspace c = false → API_PREFIX env = p)
  ∧ (∀ p a c, env = Some p → head p = Some a → last p = Some c →
              a ≠ slash → isspace a = false → c ≠ slash → isspace c = false →
              API_PREFIX env = slash :: p).
Proof.
  split; [|split; [|split]].
  - unfold API_PREFIX. set (p1 := strip (default [] env)).
    set (p2 := match p1 with [] => p1 | _ => if negb (startswith_slash p1) then slash :: p1 else p1 end).
    assert (p2 = [] ∨ head p2 = Some slash) as [Hp2|Hp2].
    { subst p2. destruct p1 as [|x r]; [by left|]. right.
      cbn [startswith_slash]. destruct (N.eqb_spec x slash) as [->|Hne]; by cbn. }
    + rewrite Hp2. by left.
    + unfold rstrip_slash. destruct (rstrip_head (λ c, (c =? slash)%N) p2 slash Hp2) as [Hnil|Hhd];
        [by left|]. right. split; [done|].
      destruct (last (rstrip (λ c, (c =? slash)%N) p2)) as [c|] eqn:Hlast.
      * exists c. split; [done|]. apply rstrip_last in Hlast. by apply N.eqb_neq.
      * apply last_None in Hlast. by rewrite Hlast in Hhd.
  - unfold API_PREFIX. by intros ->.
  - intros p c -> Hhd Hlast Hc Hsp. unfold API_PREFIX. change (default [] (Some p)) with p.
    assert (strip p = p) as ->.
    { unfold strip. rewrite (lstrip_id isspace p).
      - apply rstrip_id. intros c'. rewrite Hlast. by intros [= <-].
      - intros c'. rewrite Hhd. by intros [= <-]. }
    destruct p as [|x r]; [done|]. cbn in Hhd. injection Hhd as ->.
    cbn [startswith_slash]. rewrite N.eqb_refl. cbn [negb].
    apply rstrip_id. intros c'. rewrite Hlast. intros [= <-]. by apply N.eqb_neq.
  - intros p a c -> Hhd Hlast Ha Hasp Hc Hsp. unfold API_PREFIX. change (default [] (Some p)) with p.
    assert (strip p = p) as ->.
    { unfold strip. rewrite (lstrip_id isspace p).
      - apply rstrip_id. intros c'. rewrite Hlast. by intros [= <-].
      - intros c'. rewrite Hhd. by intros [= <-]. }
    destruct p as [|x r]; [done|]. cbn in Hhd. injection Hhd as ->.
    cbn [startswith_slash]. apply N.eqb_neq in Ha as Ha'. rewrite Ha'. cbn [negb].
    apply rstrip_id. intros c'. rewrite last_cons, Hlast. intros [= <-]. by apply N.eqb_neq.
Qed.
End RoutePrefix.

Section MoreOfOrders.
Import Orders.

(** X14. [list_my_orders] sends one [SELECT] for the user's orders and
    then one per returned order for its items, so a listing of [n] orders
    costs [n + 1] queries after the schema statement of the session; a
    user without orders gets the empty list after the one query. *)
Theorem listing_queries (db : DB) (user : string) :
  statements (get_orders_me user db)
  = CreateSchemaIfNotExists DB_SCHEMA :: SelectOrdersOfUser user
    :: map (λ o, SelectOrderItems (id o)) (listed user db)
  ∧ length (statements (get_orders_me user db))
    = S (S (length (filter (λ o, user_id o = user) (orders db))))
  ∧ (Forall (λ o, user_id o ≠ user) (orders db) →
     get_orders_me user db
     = mkResponse (Ok []) (run_stmt (CreateSchemaIfNotExists DB_SCHEMA) db)
         [CreateSchemaIfNotExists DB_SCHEMA; SelectOrdersOfUser user]).
Proof.
  rewrite get_orders_me_run. cbn [statements length]. split; [done|]. split.
  - by rewrite length_map, listed_perm.
  - intros Hnone. assert (listed user db = []) as ->; [|done].
    apply Permutation_nil_r. rewrite listed_perm.
    induction Hnone as [|o os Ho _ IH]; [done|].
    by rewrite filter_cons, decide_False.
Qed.

Lemma requested_absent items k : k ∉ map in_product_id items → requested items k = 0.
Proof.
  induction items as [|it items IH]; [done|]. cbn [map requested]. intros Hk.
  apply not_elem_of_cons in Hk as [Hne Hk]. rewrite decide_False by done. by rewrite IH.
Qed.

(** X15. With a body that passes the schema, [POST /orders] never raises
    a stock: whatever the outcome, every product is still there with at
    most the stock it had, and after a success every requested product
    has strictly less. *)
Theorem valid_order_lowers_stock (db : DB) (user : string) (items : list OrderItemIn) :
  db_wf db →
  OrderCreate_valid items →
  (∀ k p, products db !! k = Some p →
          ∃ p', products (db_after (post_orders user items db)) !! k = Some p'
                ∧ stock p' <= stock p)
  ∧ (∀ out k p, result (post_orders user items db) = Ok out →
                k ∈ map in_product_id items → products db !! k = Some p →
                ∃ p', products (db_after (post_orders user items db)) !! k = Some p'
                      ∧ stock p' < stock p).
Proof.
  intros Hwf [_ Hvalid].
  destruct (post_orders_outcome user items db Hwf)
    as [(e & Hr & Hdb)|(Hne & Hstock & _ & Hc)].
  { rewrite Hdb, Hr.
    split; [intros k p Hk; exists p; split; [done|lia]|intros out k p Hres; discriminate Hres]. }
  rewrite Hc; cbn [db_after result].
  cbn [placed_db opened send SessionLocal store run_stmt products].
  assert (∀ k p, products db !! k = Some p →
                 reserve_all (combine_items items) (products db) !! k
                 = Some (mkProduct (name p) (price_cents p) (stock p - requested items k)))
    as Hlook.
  { intros k p Hk. destruct (decide (k ∈ request_ids items)) as [Hin|Hnin].
    - rewrite Forall_forall in Hstock. destruct (Hstock k Hin) as (p' & Hp' & Hle).
      simplify_eq.
      apply (reserve_all_lookup_in _ _ k (requested items k) p);
        [apply combine_items_NoDup| |done|done].
      rewrite combine_items_spec. apply list_elem_of_fmap. by exists k.
    - rewrite reserve_all_lookup_notin by (by rewrite combine_items_keys).
      rewrite requested_absent by (by rewrite <- elem_of_request_ids).
      rewrite Hk. destruct p. cbn. by rewrite Z.sub_0_r. }
  split.
  - intros k p Hk. eexists. split; [by apply Hlook|]. cbn.
    pose proof (requested_nonneg items k Hvalid). lia.
  - intros out k p _ Hin Hk. eexists. split; [by apply Hlook|]. cbn.
    pose proof (requested_positive items k Hvalid Hin). lia.
Qed.

Lemma valid_order_lowers_stock_witness :
  ∃ p', products (db_after (post_orders "ann" [mkItemIn 1 2; mkItemIn 1 1] shop)) !! 1 = Some p'
        ∧ stock p' <= 10.
Proof.
  destruct (valid_order_lowers_stock shop "ann" [mkItemIn 1 2; mkItemIn 1 1]) as [Hall _].
  - apply (bool_decide_unpack _). vm_compute. exact I.
  - split; [cbn; lia|]. repeat constructor; cbn; lia.
  - apply (Hall 1 tea). reflexivity.
Defined.

Lemma sum_split (g : Z → Z) (D : list Z) (x : Z) :
  NoDup D →
  foldr (λ k acc, g k + acc) 0 D
  = (if decide (x ∈ D) then g x else 0)
    + foldr (λ k acc, g k + acc) 0 (filter (λ y, y ≠ x) D).
Proof.
  induction 1 as [|y D Hy Hnd IH]; [done|]. cbn [foldr]. rewrite IH, filter_cons.
  destruct (decide (y = x)) as [->|Hne].
  - destruct (decide (x ≠ x)) as [Hxx|_]; [done|].
    destruct (decide (x ∈ x :: D)) as [_|Hn]; [|destruct Hn; apply list_elem_of_here].
    destruct (decide (x ∈ D)); [done|]. lia.
  - destruct (decide (y ≠ x)) as [_|Hyx]; [|done]. cbn [foldr].
    destruct (decide (x ∈ D)) as [Hin|Hnin].
    + destruct (decide (x ∈ y :: D)) as [_|Hn]; [lia|].
      destruct Hn. by apply list_elem_of_further.
    + destruct (decide (x ∈ y :: D)) as [Hin|_]; [|lia].
      apply elem_of_cons in Hin as [->|Hin]; done.
Qed.

Lemma requested_cons_ne it items (l : list Z) :
  Forall (λ k, k ≠ in_product_id it) l →
  foldr (λ k acc, requested (it :: items) k + acc) 0 l
  = foldr (λ k acc, requested items k + acc) 0 l.
Proof.
  induction 1 as [|k l Hk _ IH]; [done|]. cbn [foldr]. rewrite IH.
  cbn [requested]. rewrite decide_False by congruence. lia.
Qed.

Lemma requested_sum items :
  foldr (λ k acc, requested items k + acc) 0 (request_ids items) = total_qty items.
Proof.
  unfold request_ids. induction items as [|it items IH]; [done|].
  cbn [map distinct foldr total_qty]. fold (total_qty items).
  rewrite requested_cons_ne.
  2:{ apply Forall_forall. intros y Hy. by apply list_elem_of_filter in Hy as [? _]. }
  rewrite <- IH.
  rewrite (sum_split (requested items) (distinct (map in_product_id items)) (in_product_id it))
    by apply NoDup_distinct.
  cbn [requested]. rewrite decide_True by done.
  destruct (decide (in_product_id it ∈ distinct (map in_product_id items))) as [Hin|Hnin];
    [lia|].
  rewrite requested_absent; [lia|]. by rewrite elem_of_distinct in Hnin.
Qed.

(** X16. Merging loses and invents no quantity: the quantities of
    [combined] add up to the quantities of the submitted items; [combined]
    has one entry per distinct product, in first-occurrence order, and no
    entry for a product that was not submitted. *)
Theorem merge_conserves_quantity (items : list OrderItemIn) :
  dict_total (combine_items items) = total_qty items
  ∧ NoDup (combine_items items).*1
  ∧ (combine_items items).*1 = distinct (map in_product_id items)
  ∧ (length (combine_items items) <= length items)%nat.
Proof.
  split; [|split; [apply combine_items_NoDup|split; [apply combine_items_keys|]]].
  - rewrite combine_items_spec, <- requested_sum. unfold dict_total.
    induction (request_ids items) as [|k l IH]; [done|]. cbn [map foldr snd]. by rewrite IH.
  - rewrite <- (length_fmap fst), combine_items_keys. unfold request_ids.
    rewrite <- (length_map in_product_id items).
    induction (map in_product_id items) as [|x l IH]; [done|].
    cbn [distinct length]. pose proof (length_filter (λ y, y ≠ x) (distinct l)). lia.
Qed.
End MoreOfOrders.
